(** * Typify: the caching and request-orchestration core

    A shallow embedding of [services/cache_service.py],
    [services/text_processors.py], [config.py] and the provider contract of
    [models/llm_interface.py] / [models/llama_provider.py], followed by the
    properties of the cache and of the three text processors.

    Conventions of the embedding
    - a Python [str] is a [string] whose characters are the code points
      U+0000..U+00FF (Latin-1); [len] is [String.length];
    - a Python [int] is a [Z];
    - a reading of [time.time()] is a [Z] (clock ticks): timestamps are only
      stored, compared and subtracted;
    - a Python [dict] is an association list in insertion order with
      pairwise distinct keys; [sorted] is stable, so the insertion order
      decides between entries with equal sort keys;
    - the lock of [LRUCache] guards every method body as a whole, so each
      method is one atomic state transformer. *)

From Stdlib Require Import ZArith List String Ascii Bool Lia QArith.
From Stdlib Require Import Permutation Sorted.
Import ListNotations.

Local Open Scope string_scope.
Local Open Scope list_scope.
Local Open Scope Z_scope.

(** ** Python strings *)

Module PyStr.

Definition code (c : ascii) : N := N_of_ascii c.

(** [str.isspace] on one code point below U+0100: the characters removed
    by [str.strip()]. *)
Definition isspace (c : ascii) : bool :=
  let n := code c in
  ((9 <=? n) && (n <=? 13) || (28 <=? n) && (n <=? 32)
   || (n =? 133) || (n =? 160))%N.

(** [str.lower] on one code point below U+0100: A-Z and the upper-case
    letters U+00C0..U+00DE (without the multiplication sign U+00D7). *)
Definition lower_char (c : ascii) : ascii :=
  let n := code c in
  if ((65 <=? n) && (n <=? 90)
      || (192 <=? n) && (n <=? 222) && negb (n =? 215))%N
  then ascii_of_N (n + 32) else c.

Fixpoint lower (s : string) : string :=
  match s with
  | EmptyString => EmptyString
  | String c s' => String (lower_char c) (lower s')
  end.

Fixpoint lstrip (s : string) : string :=
  match s with
  | EmptyString => EmptyString
  | String c s' => if isspace c then lstrip s' else s
  end.

Fixpoint rstrip (s : string) : string :=
  match s with
  | EmptyString => EmptyString
  | String c s' =>
      match rstrip s' with
      | EmptyString => if isspace c then EmptyString else String c EmptyString
      | r => String c r
      end
  end.

(** [s.strip()] *)
Definition strip (s : string) : string := rstrip (lstrip s).

(** [len(s)] *)
Definition len (s : string) : Z := Z.of_nat (String.length s).

(** truth value of a string: [bool(s)] *)
Definition truthy (s : string) : bool :=
  match s with EmptyString => false | _ => true end.

(** truth value of an [Optional[str]] *)
Definition truthy_opt (o : option string) : bool :=
  match o with Some s => truthy s | None => false end.

(** the string held by an [Optional[str]] that passed a truth test *)
Definition the (o : option string) : string :=
  match o with Some s => s | None => EmptyString end.

End PyStr.

(** ** Python lists and dicts *)

Module Py.

(** [l[:n]] for an integer [n]: a negative bound counts from the end. *)
Definition slice_to {A} (n : Z) (l : list A) : list A :=
  if 0 <=? n then firstn (Z.to_nat n) l
  else firstn (List.length l - Z.to_nat (- n)) l.

Section Sorted.
Context {A : Type} (key : A -> Z).

(** [x] goes in front of the first element whose key is not smaller. *)
Fixpoint insert_by (x : A) (l : list A) : list A :=
  match l with
  | [] => [x]
  | y :: l' => if key x <=? key y then x :: l else y :: insert_by x l'
  end.

(** the order [sorted] establishes *)
Definition key_le (a b : A) : Prop := key a <= key b.

(** [sorted(l, key=key)]: ascending and stable. *)
Fixpoint sorted (l : list A) : list A :=
  match l with
  | [] => []
  | x :: l' => insert_by x (sorted l')
  end.
End Sorted.

Section Dict.
Context {V : Type}.

Definition dict := list (string * V).

(** [d.get(k)] / [d[k]] *)
Fixpoint dict_get (k : string) (d : dict) : option V :=
  match d with
  | [] => None
  | (k', v) :: d' => if String.eqb k k' then Some v else dict_get k d'
  end.

(** [k in d] *)
Definition dict_contains (k : string) (d : dict) : bool :=
  match dict_get k d with Some _ => true | None => false end.

(** [d[k] = v]: an existing key keeps its position, a new key goes last. *)
Fixpoint dict_set (k : string) (v : V) (d : dict) : dict :=
  match d with
  | [] => [(k, v)]
  | (k', v') :: d' =>
      if String.eqb k k' then (k, v) :: d' else (k', v') :: dict_set k v d'
  end.

(** [del d[k]] for a key of [d] (Python raises [KeyError] otherwise;
    [_cleanup] only deletes keys it has just read from the dict, see
    [cleanup_deletes_present_keys]). *)
Fixpoint dict_del (k : string) (d : dict) : dict :=
  match d with
  | [] => []
  | (k', v') :: d' =>
      if String.eqb k k' then d' else (k', v') :: dict_del k d'
  end.

Definition keys (d : dict) : list string := map fst d.

(** The representation invariant of a dict: keys are pairwise distinct. *)
Definition dict_wf (d : dict) : Prop := NoDup (keys d).
End Dict.
Arguments dict V : clear implicits.

End Py.

Import Py.

(** ** services/cache_service.py *)

Definition Time := Z.

(** [CacheEntry]: the two [time.time()] defaults are the constructor's
    last two arguments. *)
Record CacheEntry (T : Type) := mkCacheEntry {
  value : T;
  created_at : Time;
  access_count : Z;
  last_accessed : Time
}.
Arguments mkCacheEntry {T}.
Arguments value {T}.
Arguments created_at {T}.
Arguments access_count {T}.
Arguments last_accessed {T}.

(** [CacheEntry(value)] with the clock read as [t_created], then [t_accessed]. *)
Definition new_entry {T} (v : T) (t_created t_accessed : Time) : CacheEntry T :=
  mkCacheEntry v t_created 0 t_accessed.

(** [CacheEntry.access]: the entry after the call, and the returned value. *)
Definition access {T} (e : CacheEntry T) (now : Time) : CacheEntry T * T :=
  (mkCacheEntry (value e) (created_at e) (access_count e + 1) now, value e).

Record LRUCache (T : Type) := mkLRUCache {
  max_size : Z;
  cleanup_batch_size : Z;
  _cache : dict (CacheEntry T)
}.
Arguments mkLRUCache {T}.
Arguments max_size {T}.
Arguments cleanup_batch_size {T}.
Arguments _cache {T}.

Module LRU.
Section Ops.
Context {T : Type}.

(** [LRUCache.__init__] *)
Definition init (max_size cleanup_batch_size : Z) : LRUCache T :=
  mkLRUCache max_size cleanup_batch_size [].

Definition with_map (c : LRUCache T) (d : dict (CacheEntry T)) : LRUCache T :=
  mkLRUCache (max_size c) (cleanup_batch_size c) d.

(** [LRUCache.get]; the clock is read (as [now]) only on a hit. *)
Definition get (c : LRUCache T) (key : string) (now : Time) : option T * LRUCache T :=
  match dict_get key (_cache c) with
  | Some entry =>
      let (entry', v) := access entry now in
      (Some v, with_map c (dict_set key entry' (_cache c)))
  | None => (None, c)
  end.

Definition item_key (item : string * CacheEntry T) : Z :=
  last_accessed (snd item).

(** the items [_cleanup] iterates over: [sorted_entries[:cleanup_batch_size]] *)
Definition cleanup_batch (c : LRUCache T) : list (string * CacheEntry T) :=
  slice_to (cleanup_batch_size c) (sorted item_key (_cache c)).

(** [LRUCache._cleanup] *)
Definition _cleanup (c : LRUCache T) : LRUCache T :=
  if Z.of_nat (List.length (_cache c)) <? cleanup_batch_size c then c
  else
    with_map c
      (fold_left (fun d item => dict_del (fst item) d)
                 (cleanup_batch c) (_cache c)).

(** [LRUCache.put]; [CacheEntry(value)] reads the clock twice. *)
Definition put (c : LRUCache T) (key : string) (v : T)
           (t_created t_accessed : Time) : LRUCache T :=
  let c1 :=
    if max_size c <=? Z.of_nat (List.length (_cache c)) then _cleanup c else c in
  with_map c1 (dict_set key (new_entry v t_created t_accessed) (_cache c1)).

(** [LRUCache.contains] *)
Definition contains (c : LRUCache T) (key : string) : bool :=
  dict_contains key (_cache c).

(** [LRUCache.size] *)
Definition size (c : LRUCache T) : Z := Z.of_nat (List.length (_cache c)).

(** [LRUCache.clear] *)
Definition clear (c : LRUCache T) : LRUCache T := with_map c [].
End Ops.
End LRU.


(** ** config.py *)

Module Config.

(** [GenerationConfig]; the float-valued sampling parameters are opaque
    tunables that are only handed to the provider, kept as rationals. *)
Record GenerationConfig := mkGenerationConfig {
  grammar_max_tokens_multiplier : Z;
  grammar_min_tokens : Z;
  grammar_temperature : Q;
  grammar_top_p : Q;
  grammar_top_k : Z;
  grammar_repeat_penalty : Q;
  summary_max_tokens : Z;
  summary_min_tokens : Z;
  summary_temperature : Q;
  summary_top_p : Q;
  summary_top_k : Z;
  summary_repeat_penalty : Q;
  tone_max_tokens_multiplier : Z;
  tone_min_tokens : Z;
  tone_temperature : Q;
  tone_top_p : Q;
  tone_top_k : Z;
  tone_repeat_penalty : Q
}.

Record CacheConfig := mkCacheConfig {
  max_cache_size : Z;
  cleanup_batch_size : Z
}.

Record AppConfig := mkAppConfig {
  generation : GenerationConfig;
  cache : CacheConfig;
  stop_tokens : dict (list string)
}.

(** [GenerationConfig()] *)
Definition default_generation : GenerationConfig :=
  {| grammar_max_tokens_multiplier := 4;
     grammar_min_tokens := 100;
     grammar_temperature := (3 # 10)%Q;
     grammar_top_p := (9 # 10)%Q;
     grammar_top_k := 40;
     grammar_repeat_penalty := (105 # 100)%Q;
     summary_max_tokens := 200;
     summary_min_tokens := 100;
     summary_temperature := (2 # 10)%Q;
     summary_top_p := (8 # 10)%Q;
     summary_top_k := 40;
     summary_repeat_penalty := (105 # 100)%Q;
     tone_max_tokens_multiplier := 2;
     tone_min_tokens := 150;
     tone_temperature := (2 # 10)%Q;
     tone_top_p := (9 # 10)%Q;
     tone_top_k := 40;
     tone_repeat_penalty := (105 # 100)%Q |}.

(** [CacheConfig()] *)
Definition default_cache : CacheConfig :=
  {| max_cache_size := 100; cleanup_batch_size := 20 |}.

(** the table [AppConfig.__post_init__] installs *)
Definition default_stop_tokens : dict (list string) :=
  [ ("default", ["[INST]"; "</s>"; "[/INST]"]);
    ("summarize", ["[INST]"; "</s>"; "[/INST]"]);
    ("tone_change", ["[INST]"; "</s>"; "[/INST]"]) ].

(** [CONFIG = AppConfig()] *)
Definition CONFIG : AppConfig :=
  {| generation := default_generation;
     cache := default_cache;
     stop_tokens := default_stop_tokens |}.

End Config.

(** ** CacheService *)

Record CacheService := mkCacheService {
  grammar_cache : LRUCache string;
  summary_cache : LRUCache string;
  tone_cache : LRUCache string
}.

Module Service.

(** [CacheService.__init__]; [//] is floor division, as [Z.div]. *)
Definition init (cfg : Config.AppConfig) : CacheService :=
  let cache_config := Config.cache cfg in
  {| grammar_cache :=
       LRU.init (Config.max_cache_size cache_config)
                (Config.cleanup_batch_size cache_config);
     summary_cache :=
       LRU.init (Config.max_cache_size cache_config / 2)
                (Config.cleanup_batch_size cache_config);
     tone_cache :=
       LRU.init (Config.max_cache_size cache_config / 2)
                (Config.cleanup_batch_size cache_config) |}.

(** [CacheService._normalize_key] *)
Definition _normalize_key (text : string) : string :=
  PyStr.lower (PyStr.strip text).

(** the key of the tone cache: [f"{self._normalize_key(text)}_{tone}"] *)
Definition tone_key (text tone : string) : string :=
  (_normalize_key text ++ "_" ++ tone)%string.

Definition set_grammar (c : LRUCache string) (s : CacheService) :=
  mkCacheService c (summary_cache s) (tone_cache s).
Definition set_summary (c : LRUCache string) (s : CacheService) :=
  mkCacheService (grammar_cache s) c (tone_cache s).
Definition set_tone (c : LRUCache string) (s : CacheService) :=
  mkCacheService (grammar_cache s) (summary_cache s) c.

End Service.

(** ** models/llm_interface.py *)

Inductive MetaValue :=
| MBool (b : bool)
| MStr (s : string).

Record TextProcessingResult := mkResult {
  processed_text : string;
  original_text : string;
  processing_time : Time;
  success : bool;
  error_message : option string;
  metadata : option (dict MetaValue)
}.

(** the keyword arguments of one [generate_response] call *)
Record GenRequest := mkGenRequest {
  prompt : string;
  max_tokens : Z;
  temperature : Q;
  top_p : Q;
  top_k : Z;
  req_stop_tokens : list string;
  repeat_penalty : Q
}.

(** An exception in flight, by what the handlers of this code ask of it:
    whether it is an instance of [Exception], which is what a clause
    [except Exception] handles, and its [str(e)]. [KeyboardInterrupt],
    [SystemExit] and [GeneratorExit] derive from [BaseException] without
    being instances of [Exception]. *)
Record PyException := mkPyException {
  is_Exception : bool;
  exc_str : string
}.

(** [RuntimeError(msg)], and any other instance of [Exception] whose [str]
    is [msg] *)
Definition RuntimeError (msg : string) : PyException := mkPyException true msg.

(** [KeyError(key)] for one of the names looked up here; its [str] is the
    name in single quotes *)
Definition KeyError (key : string) : PyException :=
  mkPyException true ("'" ++ key ++ "'")%string.

(** [KeyboardInterrupt()] *)
Definition KeyboardInterrupt : PyException := mkPyException false EmptyString.

(** what a statement does: completes with a value, or raises an exception *)
Inductive Completion (A : Type) :=
| Normal (a : A)
| Raised (e : PyException).
Arguments Normal {A}.
Arguments Raised {A}.

(** the dictionary [generate_response] returns, as the processors read it:
    [success] true with [response['choices'][0]['text']], or [success]
    false with [error]. A dictionary of any other shape makes the processor's
    subscripts raise, which is a [Raised] completion of the call. *)
Inductive Response :=
| RespText (text : string)
| RespError (error : string).

(** [ILLMProvider]: the answer to a request may depend on the calls made
    before it. Exceptions enter this code through the calls of what lies
    outside it: the provider here, the model object and the desktop
    below; a call may raise an instance of [Exception] or, as when an
    interrupt arrives while it runs, something that is not one. *)
Record ILLMProvider := mkProvider {
  is_loaded : bool;
  generate_response : list GenRequest -> GenRequest -> Completion Response
}.

(** ** The state the processors run in *)

(** [time.time()] as the processors and the cache service read it: the
    readings, and how many have been taken *)
Record Clock := mkClock {
  readings : nat -> Time;
  reads : nat
}.

Record World := mkWorld {
  clock : Clock;
  cache_service : CacheService;
  provider_calls : list GenRequest
}.

Definition M (A : Type) : Type := World -> Completion A * World.

Definition ret {A} (a : A) : M A := fun w => (Normal a, w).

Definition bind {A B} (m : M A) (k : A -> M B) : M B :=
  fun w =>
    match m w with
    | (Normal a, w') => k a w'
    | (Raised e, w') => (Raised e, w')
    end.

Definition raise {A} (e : PyException) : M A := fun w => (Raised e, w).

(** [try: body  except Exception as e: handler(str(e))]: an exception that
    is not an instance of [Exception] is not handled and goes on to the
    caller. *)
Definition try_except {A} (body : M A) (handler : string -> M A) : M A :=
  fun w =>
    match body w with
    | (Normal a, w') => (Normal a, w')
    | (Raised e, w') =>
        if is_Exception e then handler (exc_str e) w' else (Raised e, w')
    end.

Declare Scope py_scope.
Delimit Scope py_scope with py.
Notation "x <- m ;; k" := (bind m (fun x => k))
  (at level 61, m at next level, right associativity) : py_scope.
Notation "m ;;; k" := (bind m (fun _ => k))
  (at level 61, right associativity) : py_scope.
Local Open Scope py_scope.

(** [time.time()] *)
Definition time_time : M Time :=
  fun w =>
    let c := clock w in
    (Normal (readings c (reads c)),
     mkWorld (mkClock (readings c) (S (reads c)))
             (cache_service w) (provider_calls w)).

Definition modify_service (f : CacheService -> CacheService) : M unit :=
  fun w => (Normal tt, mkWorld (clock w) (f (cache_service w)) (provider_calls w)).

(** [cache.get(key)] on one of the service's caches *)
Definition lru_get (sel : CacheService -> LRUCache string)
           (upd : LRUCache string -> CacheService -> CacheService)
           (key : string) : M (option string) :=
  fun w =>
    if LRU.contains (sel (cache_service w)) key then
      (now <- time_time ;;
       let (r, c') := LRU.get (sel (cache_service w)) key now in
       modify_service (upd c') ;;; ret r) w
    else (Normal None, w).

(** [cache.put(key, value)] on one of the service's caches *)
Definition lru_put (sel : CacheService -> LRUCache string)
           (upd : LRUCache string -> CacheService -> CacheService)
           (key v : string) : M unit :=
  t_created <- time_time ;;
  t_accessed <- time_time ;;
  modify_service (fun s => upd (LRU.put (sel s) key v t_created t_accessed) s).

(** [CacheService.get_grammar_correction] and its siblings; the [if result:]
    branches only log. *)
Definition get_grammar_correction (text : string) : M (option string) :=
  lru_get grammar_cache Service.set_grammar (Service._normalize_key text).

Definition cache_grammar_correction (original_text corrected_text : string) : M unit :=
  lru_put grammar_cache Service.set_grammar
          (Service._normalize_key original_text) corrected_text.

Definition get_summary (text : string) : M (option string) :=
  lru_get summary_cache Service.set_summary (Service._normalize_key text).

Definition cache_summary (original_text summary : string) : M unit :=
  lru_put summary_cache Service.set_summary
          (Service._normalize_key original_text) summary.

Definition get_tone_change (text tone : string) : M (option string) :=
  lru_get tone_cache Service.set_tone (Service.tone_key text tone).

Definition cache_tone_change (original_text changed_text tone : string) : M unit :=
  lru_put tone_cache Service.set_tone
          (Service.tone_key original_text tone) changed_text.

(** ** services/text_processors.py *)

Module PromptTemplates.

(** [Template.substitute(text=text)] puts the text in place of [$text],
    verbatim. *)
Definition GRAMMAR_CORRECTION (text : string) : string :=
  ("[INST] Fix all typos, grammar, and punctuation errors in the following text. Keep the same meaning and preserve line breaks. Only return the corrected text without any explanations.

Text to fix: " ++ text ++ " [/INST]")%string.

Definition SUMMARIZATION (text : string) : string :=
  ("[INST] Summarize the following text in a concise and clear manner. Keep the main points and key information. Make it about 1/3 the length of the original. Only return the summarized text without any explanations.

Text to summarize: " ++ text ++ " [/INST]")%string.

Definition TONE_CHANGE (text : string) : string :=
  ("[INST] Rewrite the following text to make it more formal and professional while keeping the same meaning. Use appropriate business language and tone. Only return the formal text without any explanations.

Text to make formal: " ++ text ++ " [/INST]")%string.

End PromptTemplates.

(** [len(out) < len(text) * 0.3]. The double nearest to 0.3 is
    0.29999999999999998889..., and the product is rounded to the nearest
    double; for lengths below 2^49 the comparison of the integer [len(out)]
    with that product has the same outcome as the exact comparison
    [10 * len(out) < 3 * len(text)], which is what is embedded. *)
Definition under_30_percent (out text : string) : bool :=
  10 * PyStr.len out <? 3 * PyStr.len text.

Section Processors.

(** [self.llm_provider] and [self.config] of [BaseTextProcessor];
    [self.cache_service] is the shared service of the [World]. *)
Variable llm_provider : ILLMProvider.
Variable config : Config.AppConfig.

(** [BaseTextProcessor.is_available] *)
Definition is_available : bool := is_loaded llm_provider.

(** [BaseTextProcessor._validate_input]: [bool(text and text.strip())] *)
Definition _validate_input (text : string) : bool :=
  PyStr.truthy text && PyStr.truthy (PyStr.strip text).

(** [BaseTextProcessor._create_error_result] *)
Definition _create_error_result (text error_message : string) : TextProcessingResult :=
  {| processed_text := text;
     original_text := text;
     processing_time := 0;
     success := false;
     error_message := Some error_message;
     metadata := None |}.

(** [self.config.stop_tokens[name]]: a missing name raises [KeyError(name)],
    whose [str] is the quoted name. *)
Definition stop_tokens_for (name : string) : M (list string) :=
  match dict_get name (Config.stop_tokens config) with
  | Some l => ret l
  | None => raise (KeyError name)
  end.

(** [self.llm_provider.generate_response(...)]: the call is recorded, then
    the provider answers or raises. *)
Definition call_provider (req : GenRequest) : M Response :=
  fun w =>
    (generate_response llm_provider (provider_calls w) req,
     mkWorld (clock w) (cache_service w) (provider_calls w ++ [req])).

(** the [max_tokens] arguments *)
Definition grammar_max_tokens (text : string) : Z :=
  let gen_config := Config.generation config in
  Z.max (Config.grammar_min_tokens gen_config)
        (PyStr.len text * Config.grammar_max_tokens_multiplier gen_config).

Definition summary_request_tokens (text : string) : Z :=
  let gen_config := Config.generation config in
  Z.min (Config.summary_max_tokens gen_config)
        (Z.max (Config.summary_min_tokens gen_config) (PyStr.len text)).

Definition tone_max_tokens (text : string) : Z :=
  let gen_config := Config.generation config in
  Z.max (Config.tone_min_tokens gen_config)
        (PyStr.len text * Config.tone_max_tokens_multiplier gen_config).

Definition from_cache_result (cached text : string) (meta : dict MetaValue)
  : TextProcessingResult :=
  {| processed_text := cached;
     original_text := text;
     processing_time := 0;
     success := true;
     error_message := None;
     metadata := Some meta |}.

Definition fresh_result (out text : string) (elapsed : Time)
           (meta : dict MetaValue) : TextProcessingResult :=
  {| processed_text := out;
     original_text := text;
     processing_time := elapsed;
     success := true;
     error_message := None;
     metadata := Some meta |}.

(** The [try] block of [GrammarCorrector.fix_grammar]. Python evaluates
    the arguments of the call, the stop-token lookup among them, before the
    call itself. *)
Definition fix_grammar_try (text : string) : M TextProcessingResult :=
  start_time <- time_time ;;
  let prompt := PromptTemplates.GRAMMAR_CORRECTION text in
  let gen_config := Config.generation config in
  stop <- stop_tokens_for "default" ;;
  response <- call_provider
    {| prompt := prompt;
       max_tokens := grammar_max_tokens text;
       temperature := Config.grammar_temperature gen_config;
       top_p := Config.grammar_top_p gen_config;
       top_k := Config.grammar_top_k gen_config;
       req_stop_tokens := stop;
       repeat_penalty := Config.grammar_repeat_penalty gen_config |} ;;
  end_time <- time_time ;;
  let processing_time := end_time - start_time in
  match response with
  | RespError error => ret (_create_error_result text error)
  | RespText out =>
      let corrected_text := PyStr.strip out in
      if negb (PyStr.truthy corrected_text) || under_30_percent corrected_text text
      then ret (_create_error_result text "Invalid response from model")
      else
        cache_grammar_correction text corrected_text ;;;
        ret (fresh_result corrected_text text processing_time
                          [("from_cache", MBool false)])
  end.

(** [GrammarCorrector.fix_grammar] *)
Definition fix_grammar (text : string) : M TextProcessingResult :=
  if negb (_validate_input text) then
    ret (_create_error_result text "Invalid input text")
  else if negb is_available then
    ret (_create_error_result text "Grammar corrector not available")
  else
    cached_result <- get_grammar_correction text ;;
    if PyStr.truthy_opt cached_result then
      ret (from_cache_result (PyStr.the cached_result) text
                             [("from_cache", MBool true)])
    else
      try_except (fix_grammar_try text)
                 (fun e => ret (_create_error_result text e)).

(** The [try] block of [TextSummarizer.summarize]. *)
Definition summarize_try (text : string) : M TextProcessingResult :=
  start_time <- time_time ;;
  let prompt := PromptTemplates.SUMMARIZATION text in
  let gen_config := Config.generation config in
  stop <- stop_tokens_for "summarize" ;;
  response <- call_provider
    {| prompt := prompt;
       max_tokens := summary_request_tokens text;
       temperature := Config.summary_temperature gen_config;
       top_p := Config.summary_top_p gen_config;
       top_k := Config.summary_top_k gen_config;
       req_stop_tokens := stop;
       repeat_penalty := Config.summary_repeat_penalty gen_config |} ;;
  end_time <- time_time ;;
  let processing_time := end_time - start_time in
  match response with
  | RespError error => ret (_create_error_result text error)
  | RespText out =>
      let summary_text := PyStr.strip out in
      if negb (PyStr.truthy summary_text)
      then ret (_create_error_result text "Empty summary response")
      else
        cache_summary text summary_text ;;;
        ret (fresh_result summary_text text processing_time
                          [("from_cache", MBool false)])
  end.

(** [TextSummarizer.summarize] *)
Definition summarize (text : string) : M TextProcessingResult :=
  if negb (_validate_input text) then
    ret (_create_error_result text "Invalid input text")
  else if negb is_available then
    ret (_create_error_result text "Text summarizer not available")
  else
    cached_result <- get_summary text ;;
    if PyStr.truthy_opt cached_result then
      ret (from_cache_result (PyStr.the cached_result) text
                             [("from_cache", MBool true)])
    else
      try_except (summarize_try text)
                 (fun e => ret (_create_error_result text e)).

(** The [try] block of [ToneChanger.change_tone]. *)
Definition change_tone_try (text target_tone : string) : M TextProcessingResult :=
  start_time <- time_time ;;
  if negb (String.eqb (PyStr.lower target_tone) "formal") then
    ret (_create_error_result text ("Unsupported tone: " ++ target_tone)%string)
  else
    let prompt := PromptTemplates.TONE_CHANGE text in
    let gen_config := Config.generation config in
    stop <- stop_tokens_for "tone_change" ;;
    response <- call_provider
      {| prompt := prompt;
         max_tokens := tone_max_tokens text;
         temperature := Config.tone_temperature gen_config;
         top_p := Config.tone_top_p gen_config;
         top_k := Config.tone_top_k gen_config;
         req_stop_tokens := stop;
         repeat_penalty := Config.tone_repeat_penalty gen_config |} ;;
    end_time <- time_time ;;
    let processing_time := end_time - start_time in
    match response with
    | RespError error => ret (_create_error_result text error)
    | RespText out =>
        let formal_text := PyStr.strip out in
        if negb (PyStr.truthy formal_text) || under_30_percent formal_text text
        then ret (_create_error_result text "Invalid tone change response")
        else
          cache_tone_change text formal_text target_tone ;;;
          ret (fresh_result formal_text text processing_time
                            [("from_cache", MBool false);
                             ("target_tone", MStr target_tone)])
    end.

(** [ToneChanger.change_tone] *)
Definition change_tone (text target_tone : string) : M TextProcessingResult :=
  if negb (_validate_input text) then
    ret (_create_error_result text "Invalid input text")
  else if negb is_available then
    ret (_create_error_result text "Tone changer not available")
  else
    cached_result <- get_tone_change text target_tone ;;
    if PyStr.truthy_opt cached_result then
      ret (from_cache_result (PyStr.the cached_result) text
                             [("from_cache", MBool true);
                              ("target_tone", MStr target_tone)])
    else
      try_except (change_tone_try text target_tone)
                 (fun e => ret (_create_error_result text e)).

(** The three processor classes and their [process_text(text, **kwargs)];
    of the keyword arguments only [target_tone] is ever read. *)
Inductive Processor := GrammarCorrector | TextSummarizer | ToneChanger.

Definition process_text (p : Processor) (text : string)
           (target_tone : option string) : M TextProcessingResult :=
  match p with
  | GrammarCorrector => fix_grammar text
  | TextSummarizer => summarize text
  | ToneChanger =>
      change_tone text
        (match target_tone with Some t => t | None => "formal" end)
  end.

End Processors.

(** ** Vocabulary of the statements *)

(** One [put] call: key, value and the two clock readings of the new entry. *)
Record PutCall := mkPutCall {
  put_key : string;
  put_value : string;
  put_created : Time;
  put_accessed : Time
}.

Definition apply_put (c : LRUCache string) (p : PutCall) : LRUCache string :=
  LRU.put c (put_key p) (put_value p) (put_created p) (put_accessed p).

(** The cache after a sequence of [put] calls. *)
Definition run_puts (calls : list PutCall) (c : LRUCache string) : LRUCache string :=
  fold_left apply_put calls c.

(** [n] put calls with pairwise distinct keys: the key of call [i] is a run
    of [i] letters. *)
Fixpoint letters (n : nat) : string :=
  match n with
  | O => EmptyString
  | S n' => String "a" (letters n')
  end.

Fixpoint distinct_puts (n : nat) : list PutCall :=
  match n with
  | O => []
  | S n' => distinct_puts n' ++ [mkPutCall (letters n') "v" 0 0]
  end.

(** The keys [_cleanup] deleted: those of the map before that the map
    after no longer has. *)
Definition evicted {T} (before after : LRUCache T) : list string :=
  filter (fun k => negb (LRU.contains after k)) (keys (_cache before)).

(** What a cache stores, without the access metadata. *)
Definition contents (c : LRUCache string) : list (string * string) :=
  map (fun item => (fst item, value (snd item))) (_cache c).

Definition service_contents (s : CacheService)
  : list (string * string) * list (string * string) * list (string * string) :=
  (contents (grammar_cache s), contents (summary_cache s),
   contents (tone_cache s)).

(** The value stored under a key, if any. *)
Definition cached_value (c : LRUCache string) (key : string) : option string :=
  option_map value (dict_get key (_cache c)).

(** The cache a processor consults, and the key it consults it with. *)
Definition cache_of (p : Processor) (s : CacheService) : LRUCache string :=
  match p with
  | GrammarCorrector => grammar_cache s
  | TextSummarizer => summary_cache s
  | ToneChanger => tone_cache s
  end.

Definition tone_of (target_tone : option string) : string :=
  match target_tone with Some t => t | None => "formal" end.

Definition key_of (p : Processor) (text : string) (target_tone : option string)
  : string :=
  match p with
  | ToneChanger => Service.tone_key text (tone_of target_tone)
  | _ => Service._normalize_key text
  end.

(** The metadata of a result says it came from the cache. *)
Definition from_cache (r : TextProcessingResult) : bool :=
  match metadata r with
  | Some m =>
      match dict_get "from_cache" m with
      | Some (MBool b) => b
      | _ => false
      end
  | None => false
  end.

(** The documented [max_tokens] budget of each operation. *)
Definition max_tokens_formula (p : Processor) (text : string) : Z :=
  match p with
  | GrammarCorrector => Z.max 100 (4 * PyStr.len text)
  | TextSummarizer => Z.min 200 (Z.max 100 (PyStr.len text))
  | ToneChanger => Z.max 150 (2 * PyStr.len text)
  end.

(** A provider that answers every request with the same text. *)
Definition answers (p : ILLMProvider) (out : string) : Prop :=
  forall history req, generate_response p history req = Normal (RespText out).

(** A string that does not begin with a whitespace character. *)
Definition no_leading_space (s : string) : Prop :=
  match s with
  | EmptyString => True
  | String c _ => PyStr.isspace c = false
  end.

(** [k in ks] for a list of keys *)
Definition key_in (k : string) (ks : list string) : bool :=
  existsb (String.eqb k) ks.

(** The dict without the keys [ks], the other items in their order. *)
Definition remove_keys {V} (ks : list string) (d : dict V) : dict V :=
  filter (fun item => negb (key_in (fst item) ks)) d.

(** ** The common shape of the three processors

    [fix_grammar], [summarize] and [change_tone] are one procedure with
    different constants. [run] is that procedure, with the constants
    gathered in a [Policy]; [process_text_run] shows that each processor is
    [run] at its policy, so that a property of [run] is a property of all
    three. *)

Definition set_cache_of (p : Processor)
  : LRUCache string -> CacheService -> CacheService :=
  match p with
  | GrammarCorrector => Service.set_grammar
  | TextSummarizer => Service.set_summary
  | ToneChanger => Service.set_tone
  end.

Record Policy := mkPolicy {
  pol_kind : Processor;
  pol_key : string;
  pol_unavailable : string;
  pol_hit_meta : dict MetaValue;
  pol_unsupported : option string;
  pol_stop : string;
  pol_request : list string -> GenRequest;
  pol_min_length : bool;
  pol_invalid : string;
  pol_miss_meta : dict MetaValue
}.

Section Shape.
Variable llm_provider : ILLMProvider.
Variable config : Config.AppConfig.

Definition run_try (pol : Policy) (text : string) : M TextProcessingResult :=
  start_time <- time_time ;;
  match pol_unsupported pol with
  | Some msg => ret (_create_error_result text msg)
  | None =>
      stop <- stop_tokens_for config (pol_stop pol) ;;
      response <- call_provider llm_provider (pol_request pol stop) ;;
      end_time <- time_time ;;
      match response with
      | RespError error => ret (_create_error_result text error)
      | RespText out =>
          let stripped := PyStr.strip out in
          if negb (PyStr.truthy stripped)
             || pol_min_length pol && under_30_percent stripped text
          then ret (_create_error_result text (pol_invalid pol))
          else
            lru_put (cache_of (pol_kind pol)) (set_cache_of (pol_kind pol))
                    (pol_key pol) stripped ;;;
            ret (fresh_result stripped text (end_time - start_time)
                              (pol_miss_meta pol))
      end
  end.

Definition run (pol : Policy) (text : string) : M TextProcessingResult :=
  if negb (_validate_input text) then
    ret (_create_error_result text "Invalid input text")
  else if negb (is_available llm_provider) then
    ret (_create_error_result text (pol_unavailable pol))
  else
    cached_result <- lru_get (cache_of (pol_kind pol))
                             (set_cache_of (pol_kind pol)) (pol_key pol) ;;
    if PyStr.truthy_opt cached_result then
      ret (from_cache_result (PyStr.the cached_result) text (pol_hit_meta pol))
    else
      try_except (run_try pol text)
                 (fun e => ret (_create_error_result text e)).

Definition grammar_request (text : string) (stop : list string) : GenRequest :=
  let gen_config := Config.generation config in
  {| prompt := PromptTemplates.GRAMMAR_CORRECTION text;
     max_tokens := grammar_max_tokens config text;
     temperature := Config.grammar_temperature gen_config;
     top_p := Config.grammar_top_p gen_config;
     top_k := Config.grammar_top_k gen_config;
     req_stop_tokens := stop;
     repeat_penalty := Config.grammar_repeat_penalty gen_config |}.

Definition summary_request (text : string) (stop : list string) : GenRequest :=
  let gen_config := Config.generation config in
  {| prompt := PromptTemplates.SUMMARIZATION text;
     max_tokens := summary_request_tokens config text;
     temperature := Config.summary_temperature gen_config;
     top_p := Config.summary_top_p gen_config;
     top_k := Config.summary_top_k gen_config;
     req_stop_tokens := stop;
     repeat_penalty := Config.summary_repeat_penalty gen_config |}.

Definition tone_request (text : string) (stop : list string) : GenRequest :=
  let gen_config := Config.generation config in
  {| prompt := PromptTemplates.TONE_CHANGE text;
     max_tokens := tone_max_tokens config text;
     temperature := Config.tone_temperature gen_config;
     top_p := Config.tone_top_p gen_config;
     top_k := Config.tone_top_k gen_config;
     req_stop_tokens := stop;
     repeat_penalty := Config.tone_repeat_penalty gen_config |}.

Definition policy_of (p : Processor) (text : string)
           (target_tone : option string) : Policy :=
  match p with
  | GrammarCorrector =>
      {| pol_kind := GrammarCorrector;
         pol_key := Service._normalize_key text;
         pol_unavailable := "Grammar corrector not available";
         pol_hit_meta := [("from_cache", MBool true)];
         pol_unsupported := None;
         pol_stop := "default";
         pol_request := grammar_request text;
         pol_min_length := true;
         pol_invalid := "Invalid response from model";
         pol_miss_meta := [("from_cache", MBool false)] |}
  | TextSummarizer =>
      {| pol_kind := TextSummarizer;
         pol_key := Service._normalize_key text;
         pol_unavailable := "Text summarizer not available";
         pol_hit_meta := [("from_cache", MBool true)];
         pol_unsupported := None;
         pol_stop := "summarize";
         pol_request := summary_request text;
         pol_min_length := false;
         pol_invalid := "Empty summary response";
         pol_miss_meta := [("from_cache", MBool false)] |}
  | ToneChanger =>
      let tone := tone_of target_tone in
      {| pol_kind := ToneChanger;
         pol_key := Service.tone_key text tone;
         pol_unavailable := "Tone changer not available";
         pol_hit_meta := [("from_cache", MBool true); ("target_tone", MStr tone)];
         pol_unsupported :=
           if negb (String.eqb (PyStr.lower tone) "formal")
           then Some ("Unsupported tone: " ++ tone)%string else None;
         pol_stop := "tone_change";
         pol_request := tone_request text;
         pol_min_length := true;
         pol_invalid := "Invalid tone change response";
         pol_miss_meta := [("from_cache", MBool false); ("target_tone", MStr tone)] |}
  end.

(** The ways one invocation can go, each with its result and with what it
    did to the provider's call log and to the stored cache contents. *)
Inductive Path (pol : Policy) (text : string) (w : World)
  : Completion TextProcessingResult * World -> Prop :=
| path_invalid :
    _validate_input text = false ->
    Path pol text w (Normal (_create_error_result text "Invalid input text"), w)
| path_unavailable :
    _validate_input text = true ->
    is_loaded llm_provider = false ->
    Path pol text w
         (Normal (_create_error_result text (pol_unavailable pol)), w)
| path_hit (v : string) (w' : World) :
    _validate_input text = true ->
    is_loaded llm_provider = true ->
    cached_value (cache_of (pol_kind pol) (cache_service w)) (pol_key pol) = Some v ->
    PyStr.truthy v = true ->
    provider_calls w' = provider_calls w ->
    service_contents (cache_service w') = service_contents (cache_service w) ->
    Path pol text w (Normal (from_cache_result v text (pol_hit_meta pol)), w')
| path_unsupported (msg : string) (w' : World) :
    _validate_input text = true ->
    is_loaded llm_provider = true ->
    PyStr.truthy_opt
      (cached_value (cache_of (pol_kind pol) (cache_service w)) (pol_key pol)) = false ->
    pol_unsupported pol = Some msg ->
    provider_calls w' = provider_calls w ->
    service_contents (cache_service w') = service_contents (cache_service w) ->
    Path pol text w (Normal (_create_error_result text msg), w')
| path_no_stop_tokens (w' : World) :
    _validate_input text = true ->
    is_loaded llm_provider = true ->
    PyStr.truthy_opt
      (cached_value (cache_of (pol_kind pol) (cache_service w)) (pol_key pol)) = false ->
    pol_unsupported pol = None ->
    dict_get (pol_stop pol) (Config.stop_tokens config) = None ->
    provider_calls w' = provider_calls w ->
    service_contents (cache_service w') = service_contents (cache_service w) ->
    Path pol text w
         (Normal (_create_error_result text ("'" ++ pol_stop pol ++ "'")%string), w')
| path_raised (stop : list string) (e : PyException) (w' : World) :
    _validate_input text = true ->
    is_loaded llm_provider = true ->
    PyStr.truthy_opt
      (cached_value (cache_of (pol_kind pol) (cache_service w)) (pol_key pol)) = false ->
    pol_unsupported pol = None ->
    dict_get (pol_stop pol) (Config.stop_tokens config) = Some stop ->
    generate_response llm_provider (provider_calls w) (pol_request pol stop)
    = Raised e ->
    is_Exception e = true ->
    provider_calls w' = provider_calls w ++ [pol_request pol stop] ->
    service_contents (cache_service w') = service_contents (cache_service w) ->
    Path pol text w (Normal (_create_error_result text (exc_str e)), w')
| path_propagated (stop : list string) (e : PyException) (w' : World) :
    _validate_input text = true ->
    is_loaded llm_provider = true ->
    PyStr.truthy_opt
      (cached_value (cache_of (pol_kind pol) (cache_service w)) (pol_key pol)) = false ->
    pol_unsupported pol = None ->
    dict_get (pol_stop pol) (Config.stop_tokens config) = Some stop ->
    generate_response llm_provider (provider_calls w) (pol_request pol stop)
    = Raised e ->
    is_Exception e = false ->
    provider_calls w' = provider_calls w ++ [pol_request pol stop] ->
    service_contents (cache_service w') = service_contents (cache_service w) ->
    Path pol text w (Raised e, w')
| path_error (stop : list string) (e : string) (w' : World) :
    _validate_input text = true ->
    is_loaded llm_provider = true ->
    PyStr.truthy_opt
      (cached_value (cache_of (pol_kind pol) (cache_service w)) (pol_key pol)) = false ->
    pol_unsupported pol = None ->
    dict_get (pol_stop pol) (Config.stop_tokens config) = Some stop ->
    generate_response llm_provider (provider_calls w) (pol_request pol stop)
    = Normal (RespError e) ->
    provider_calls w' = provider_calls w ++ [pol_request pol stop] ->
    service_contents (cache_service w') = service_contents (cache_service w) ->
    Path pol text w (Normal (_create_error_result text e), w')
| path_rejected (stop : list string) (out : string) (w' : World) :
    _validate_input text = true ->
    is_loaded llm_provider = true ->
    PyStr.truthy_opt
      (cached_value (cache_of (pol_kind pol) (cache_service w)) (pol_key pol)) = false ->
    pol_unsupported pol = None ->
    dict_get (pol_stop pol) (Config.stop_tokens config) = Some stop ->
    generate_response llm_provider (provider_calls w) (pol_request pol stop)
    = Normal (RespText out) ->
    PyStr.strip out = EmptyString \/
    (pol_min_length pol = true /\
     under_30_percent (PyStr.strip out) text = true) ->
    provider_calls w' = provider_calls w ++ [pol_request pol stop] ->
    service_contents (cache_service w') = service_contents (cache_service w) ->
    Path pol text w (Normal (_create_error_result text (pol_invalid pol)), w')
| path_fresh (stop : list string) (out : string) (elapsed : Time) (w' : World) :
    _validate_input text = true ->
    is_loaded llm_provider = true ->
    PyStr.truthy_opt
      (cached_value (cache_of (pol_kind pol) (cache_service w)) (pol_key pol)) = false ->
    pol_unsupported pol = None ->
    dict_get (pol_stop pol) (Config.stop_tokens config) = Some stop ->
    generate_response llm_provider (provider_calls w) (pol_request pol stop)
    = Normal (RespText out) ->
    PyStr.strip out <> EmptyString ->
    (pol_min_length pol = true ->
     under_30_percent (PyStr.strip out) text = false) ->
    provider_calls w' = provider_calls w ++ [pol_request pol stop] ->
    cached_value (cache_of (pol_kind pol) (cache_service w')) (pol_key pol)
    = Some (PyStr.strip out) ->
    Path pol text w
         (Normal (fresh_result (PyStr.strip out) text elapsed (pol_miss_meta pol)),
          w').

End Shape.

(** ** Sample inputs *)

(** A clock that advances by 10 at every reading. *)
Definition sample_clock : Clock := mkClock (fun n => Z.of_nat n * 10) 0.

(** A loaded provider with one fixed answer. *)
Definition mock_provider (answer : Completion Response) : ILLMProvider :=
  mkProvider true (fun _ _ => answer).

(** The service of the default configuration, nothing cached. *)
Definition empty_world : World :=
  mkWorld sample_clock (Service.init Config.CONFIG) [].

(** The same with one grammar correction cached. *)
Definition world_with_grammar (key v : string) : World :=
  mkWorld sample_clock
          (Service.set_grammar
             (LRU.put (LRU.init 100 20) key v 1 2)
             (Service.init Config.CONFIG))
          [].

(** The same with one tone change cached. *)
Definition world_with_tone (key v : string) : World :=
  mkWorld sample_clock
          (Service.set_tone
             (LRU.put (LRU.init 50 20) key v 1 2)
             (Service.init Config.CONFIG))
          [].

(** ** Further vocabulary: the cache *)

(** [get] called once per clock reading of [nows], each time on [key]. *)
Definition get_many {T} (c : LRUCache T) (key : string) (nows : list Time)
  : LRUCache T :=
  fold_left (fun c' now => snd (LRU.get c' key now)) nows c.

(** The entries are in non-decreasing order of [last_accessed]. *)
Definition oldest_first {T} (c : LRUCache T) : Prop :=
  StronglySorted (key_le LRU.item_key) (_cache c).

(** ** The rest of [CacheService] *)

(** [CacheService.get_cache_stats] *)
Definition get_cache_stats (s : CacheService) : dict Z :=
  [ ("grammar_cache_size", LRU.size (grammar_cache s));
    ("summary_cache_size", LRU.size (summary_cache s));
    ("tone_cache_size", LRU.size (tone_cache s));
    ("grammar_cache_max", max_size (grammar_cache s));
    ("summary_cache_max", max_size (summary_cache s));
    ("tone_cache_max", max_size (tone_cache s)) ].

(** [CacheService.clear_all_caches] *)
Definition clear_all_caches (s : CacheService) : CacheService :=
  {| grammar_cache := LRU.clear (grammar_cache s);
     summary_cache := LRU.clear (summary_cache s);
     tone_cache := LRU.clear (tone_cache s) |}.

(** The [get_<op>] and [cache_<op>] method of each operation kind; an
    omitted [tone] is the methods' default, "formal". *)
Definition cached_lookup (p : Processor) (text : string) (tone : option string)
  : M (option string) :=
  match p with
  | GrammarCorrector => get_grammar_correction text
  | TextSummarizer => get_summary text
  | ToneChanger => get_tone_change text (tone_of tone)
  end.

Definition cache_store (p : Processor) (text v : string) (tone : option string)
  : M unit :=
  match p with
  | GrammarCorrector => cache_grammar_correction text v
  | TextSummarizer => cache_summary text v
  | ToneChanger => cache_tone_change text v (tone_of tone)
  end.

(** One call of a processor, and the world after a sequence of calls on
    the same provider and configuration. *)
Record Invocation := mkInvocation {
  inv_processor : Processor;
  inv_text : string;
  inv_tone : option string
}.

Definition invoke (llm : ILLMProvider) (config : Config.AppConfig)
           (w : World) (i : Invocation) : World :=
  snd (process_text llm config (inv_processor i) (inv_text i) (inv_tone i) w).

Definition run_invocations (llm : ILLMProvider) (config : Config.AppConfig)
           (calls : list Invocation) (w : World) : World :=
  fold_left (invoke llm config) calls w.

(** The world of a freshly constructed service. *)
Definition initial_world (config : Config.AppConfig) (clock : Clock) : World :=
  mkWorld clock (Service.init config) [].

(** No cache of the service holds an empty string. *)
Definition no_empty_values (s : CacheService) : Prop :=
  forall p, Forall (fun item => value (snd item) <> EmptyString)
                   (_cache (cache_of p s)).

(** Each cache has distinct keys and at most as many entries as the larger
    of its two parameters. *)
Definition bounded (c : LRUCache string) : Prop :=
  dict_wf (_cache c) /\
  LRU.size c <= Z.max (max_size c) (cleanup_batch_size c).

(** The prompt of each operation and the name of its stop-token list. *)
Definition prompt_of (p : Processor) (text : string) : string :=
  match p with
  | GrammarCorrector => PromptTemplates.GRAMMAR_CORRECTION text
  | TextSummarizer => PromptTemplates.SUMMARIZATION text
  | ToneChanger => PromptTemplates.TONE_CHANGE text
  end.

Definition stop_name_of (p : Processor) : string :=
  match p with
  | GrammarCorrector => "default"
  | TextSummarizer => "summarize"
  | ToneChanger => "tone_change"
  end.

(** The message of a processor whose provider is not loaded. *)
Definition unavailable_message (p : Processor) : string :=
  match p with
  | GrammarCorrector => "Grammar corrector not available"
  | TextSummarizer => "Text summarizer not available"
  | ToneChanger => "Tone changer not available"
  end.

(** ** A state monad over any state, for the code around the processors *)

Definition St (S A : Type) : Type := S -> Completion A * S.

Definition sret {S A} (a : A) : St S A := fun s => (Normal a, s).

Definition sbind {S A B} (m : St S A) (k : A -> St S B) : St S B :=
  fun s =>
    match m s with
    | (Normal a, s') => k a s'
    | (Raised e, s') => (Raised e, s')
    end.

Definition sraise {S A} (e : PyException) : St S A := fun s => (Raised e, s).

(** [try: body  except Exception as e: handler(str(e))]; as in
    [try_except], what is not an instance of [Exception] is not handled. *)
Definition stry {S A} (body : St S A) (handler : string -> St S A) : St S A :=
  fun s =>
    match body s with
    | (Normal a, s') => (Normal a, s')
    | (Raised e, s') =>
        if is_Exception e then handler (exc_str e) s' else (Raised e, s')
    end.

Notation "x <~ m ;; k" := (sbind m (fun x => k))
  (at level 61, m at next level, right associativity) : py_scope.
Notation "m ;~ k" := (sbind m (fun _ => k))
  (at level 61, right associativity) : py_scope.

(** [time.time()] on a clock of its own *)
Definition clock_read : St Clock Time :=
  fun c => (Normal (readings c (reads c)), mkClock (readings c) (S (reads c))).

(** ** models/llama_provider.py *)

Module Llama.

(** The [llama_cpp.Llama] object as the provider uses it: called with the
    arguments of a request (and [echo=False], [stream=False]) it returns a
    completion, of which the text of the first choice is kept, or raises.
    Its answer may depend on the calls made before. *)
Definition Model : Type := list GenRequest -> GenRequest -> Completion string.

Record LlamaCppProvider := mkLlamaCppProvider {
  llm : option Model;
  _model_loaded : bool
}.

(** [LlamaCppProvider.__init__] *)
Definition init : LlamaCppProvider := mkLlamaCppProvider None false.

Definition is_set (m : option Model) : bool :=
  match m with Some _ => true | None => false end.

(** [LlamaCppProvider.is_loaded]: [self._model_loaded and self.llm is not None] *)
Definition is_loaded (p : LlamaCppProvider) : bool :=
  _model_loaded p && is_set (llm p).

(** [LlamaCppProvider.load_model]. [path_exists] is what [os.path.exists]
    answers for the model path and [construct] what the constructor
    [Llama(...)] does; a model object counts as true in
    [self._model_loaded and self.llm]. The whole body stands in
    [try: ... except Exception], whose handler sets [_model_loaded] to
    false and returns false; the assignment to [self.llm] does not happen
    when the constructor raises. The result, and the provider after the
    call. *)
Definition load_model (path_exists : bool) (construct : Completion Model)
           (p : LlamaCppProvider) : Completion bool * LlamaCppProvider :=
  if _model_loaded p && is_set (llm p) then (Normal true, p)
  else if negb path_exists then (Normal false, p)
  else
    match construct with
    | Normal m => (Normal true, mkLlamaCppProvider (Some m) true)
    | Raised e =>
        if is_Exception e
        then (Normal false, mkLlamaCppProvider (llm p) false)
        else (Raised e, p)
    end.

(** The two dictionaries [generate_response] builds:
    [{'success': True, 'response': response, 'processing_time': ..., 'error': None}]
    and
    [{'success': False, 'response': None, 'processing_time': 0, 'error': str(e)}]. *)
Inductive ResponseDict :=
| Succeeded (response : string) (processing_time : Time)
| Failed (error : string).

(** [self.llm(prompt, ...)] *)
Definition call_model (model : Model) (history : list GenRequest)
           (req : GenRequest) : St Clock string :=
  fun c => (model history req, c).

(** [LlamaCppProvider.generate_response]: the check of [is_loaded] stands
    before the [try], so its [RuntimeError] goes to the caller; the clock is
    read before and after the call of the model. *)
Definition generate_response (p : LlamaCppProvider) (history : list GenRequest)
           (req : GenRequest) : St Clock ResponseDict :=
  match llm p, _model_loaded p with
  | Some model, true =>
      stry (start_time <~ clock_read ;;
            response <~ call_model model history req ;;
            end_time <~ clock_read ;;
            sret (Succeeded response (end_time - start_time)))
           (fun e => sret (Failed e))
  | _, _ => sraise (RuntimeError "Model not loaded. Call load_model() first.")
  end.

(** The provider as the processors see it. Of the dictionary they read
    [success], the text of [response] and [error], none of which depends
    on the clock; [clock_at history] is the clock as the provider finds it
    at the call that follows [history]. *)
Definition as_provider (clock_at : list GenRequest -> Clock)
           (p : LlamaCppProvider) : ILLMProvider :=
  mkProvider
    (is_loaded p)
    (fun history req =>
       match fst (generate_response p history req (clock_at history)) with
       | Normal (Succeeded text _) => Normal (RespText text)
       | Normal (Failed error) => Normal (RespError error)
       | Raised e => Raised e
       end).

End Llama.

(** ** services/hotkey_service.py: the registry of handlers *)

Module Hotkey.

(** [HotkeyConfig] of config.py *)
Record HotkeyConfig := mkHotkeyConfig {
  grammar_fix_line : string;
  grammar_fix_selection : string;
  summarize : string;
  change_tone : string;
  exit_app : string
}.

(** [HotkeyConfig()] *)
Definition default : HotkeyConfig :=
  {| grammar_fix_line := "<120>";
     grammar_fix_selection := "<121>";
     summarize := "<119>";
     change_tone := "<118>";
     exit_app := "<ctrl>+<shift>+e" |}.

Section Registry.
(** the handlers are callables; the registry does not look into them *)
Context {Handler : Type}.

(** [HotkeyService], without the [pynput] listener. *)
Record HotkeyService := mkHotkeyService {
  hotkeys : HotkeyConfig;
  handlers : dict Handler
}.

(** [HotkeyService.__init__] *)
Definition init (cfg : HotkeyConfig) : HotkeyService := mkHotkeyService cfg [].

(** [HotkeyService.register_handler] *)
Definition register_handler (hotkey : string) (handler : Handler)
           (s : HotkeyService) : HotkeyService :=
  mkHotkeyService (hotkeys s) (dict_set hotkey handler (handlers s)).

(** [HotkeyService.unregister_handler]: the [del] is guarded by
    [if hotkey in self.handlers]. *)
Definition unregister_handler (hotkey : string) (s : HotkeyService)
  : HotkeyService :=
  if dict_contains hotkey (handlers s)
  then mkHotkeyService (hotkeys s) (dict_del hotkey (handlers s))
  else s.

(** A dict display [{k1: v1, ..., kn: vn}]: the items are stored from left
    to right, a repeated key keeping its place and taking the later value. *)
Definition dict_display {V} (items : list (string * V)) : dict V :=
  fold_left (fun d item => dict_set (fst item) (snd item) d) items [].

(** the local [hotkey_mapping] of [register_default_handlers];
    [given.get(name)] is [dict_get name given] *)
Definition hotkey_mapping (cfg : HotkeyConfig) (given : dict Handler)
  : dict (option Handler) :=
  dict_display
    [ (grammar_fix_line cfg, dict_get "grammar_fix_line" given);
      (grammar_fix_selection cfg, dict_get "grammar_fix_selection" given);
      (summarize cfg, dict_get "summarize" given);
      (change_tone cfg, dict_get "change_tone" given);
      (exit_app cfg, dict_get "exit_app" given) ].

(** [HotkeyService.register_default_handlers]; a hotkey without handler is
    only logged. *)
Definition register_default_handlers (given : dict Handler) (s : HotkeyService)
  : HotkeyService :=
  fold_left
    (fun s' item =>
       match snd item with
       | Some handler => register_handler (fst item) handler s'
       | None => s'
       end)
    (hotkey_mapping (hotkeys s) given) s.

(** The handler the display of [register_default_handlers] holds for a
    hotkey: that of the last of the five settings equal to it. *)
Definition configured_handler (cfg : HotkeyConfig) (given : dict Handler)
           (hotkey : string) : option Handler :=
  if String.eqb hotkey (exit_app cfg) then dict_get "exit_app" given
  else if String.eqb hotkey (change_tone cfg) then dict_get "change_tone" given
  else if String.eqb hotkey (summarize cfg) then dict_get "summarize" given
  else if String.eqb hotkey (grammar_fix_selection cfg)
       then dict_get "grammar_fix_selection" given
  else if String.eqb hotkey (grammar_fix_line cfg)
       then dict_get "grammar_fix_line" given
  else None.

End Registry.

(** [DefaultHotkeyHandlers.get_handlers], over the five bound methods. *)
Definition get_handlers {Handler} (on_grammar_fix_line on_grammar_fix_selection
                                   on_summarize on_change_tone on_exit_app : Handler)
  : dict Handler :=
  [ ("grammar_fix_line", on_grammar_fix_line);
    ("grammar_fix_selection", on_grammar_fix_selection);
    ("summarize", on_summarize);
    ("change_tone", on_change_tone);
    ("exit_app", on_exit_app) ].

End Hotkey.

(** ** services/clipboard_service.py *)

Module Clip.

Inductive Key :=
| KeyCtrl
| KeyShift
| KeyHome
| KeyEnd
| KeyChar (c : ascii).

(** What the service does to the desktop: [controller.press],
    [controller.release], [time.sleep], [pyperclip.paste()] and
    [pyperclip.copy(text)]. *)
Inductive Prim :=
| Press (key : Key)
| Release (key : Key)
| Sleep (seconds : Q)
| Paste
| Copy (text : string).

(** The desktop: given what was done so far, an action completes (a
    [Paste] with the text on the clipboard) or raises, be it an error of
    the library or an interrupt that arrives during the call. *)
Definition Environment : Type := list Prim -> Prim -> Completion string.

Section Service.
Variable env : Environment.

(** one action on the desktop, recorded in the log *)
Definition perform (p : Prim) : St (list Prim) string :=
  fun log => (env log p, log ++ [p]).

(** [time.sleep(seconds)] *)
Definition sleep (seconds : Q) : St (list Prim) unit :=
  perform (Sleep seconds) ;~ sret tt.

(** [ClipboardService.copy_to_clipboard] *)
Definition copy_to_clipboard : St (list Prim) unit :=
  stry (perform (Press KeyCtrl) ;~
        perform (Press (KeyChar "c")) ;~
        perform (Release (KeyChar "c")) ;~
        perform (Release KeyCtrl) ;~
        sret tt)
       (fun _ => sret tt).

(** [ClipboardService.paste_from_clipboard] *)
Definition paste_from_clipboard : St (list Prim) unit :=
  stry (perform (Press KeyCtrl) ;~
        perform (Press (KeyChar "v")) ;~
        perform (Release (KeyChar "v")) ;~
        perform (Release KeyCtrl) ;~
        sret tt)
       (fun _ => sret tt).

(** [ClipboardService.get_clipboard_text] *)
Definition get_clipboard_text (wait_time : Q) : St (list Prim) string :=
  stry ((if negb (Qle_bool wait_time 0) then sleep wait_time else sret tt) ;~
        text <~ perform Paste ;;
        sret text)
       (fun _ => sret EmptyString).

(** the default of [wait_time] *)
Definition default_wait : Q := (1 # 10)%Q.

(** [ClipboardService.set_clipboard_text] *)
Definition set_clipboard_text (text : string) : St (list Prim) unit :=
  stry (perform (Copy text) ;~ sret tt) (fun _ => sret tt).

(** [ClipboardService.select_current_line] *)
Definition select_current_line : St (list Prim) unit :=
  stry (perform (Press KeyHome) ;~
        perform (Release KeyHome) ;~
        perform (Press KeyShift) ;~
        perform (Press KeyEnd) ;~
        perform (Release KeyEnd) ;~
        perform (Release KeyShift) ;~
        sret tt)
       (fun _ => sret tt).

(** [ClipboardService.copy_current_line] *)
Definition copy_current_line : St (list Prim) string :=
  stry (select_current_line ;~
        copy_to_clipboard ;~
        get_clipboard_text default_wait)
       (fun _ => sret EmptyString).

(** [ClipboardService.copy_selection] *)
Definition copy_selection : St (list Prim) string :=
  stry (copy_to_clipboard ;~ get_clipboard_text default_wait)
       (fun _ => sret EmptyString).

(** [ClipboardService.replace_selection_with_text] *)
Definition replace_selection_with_text (text : string) : St (list Prim) unit :=
  stry (set_clipboard_text text ;~ paste_from_clipboard)
       (fun _ => sret tt).

(** [ClipboardService.replace_current_line_with_text] *)
Definition replace_current_line_with_text (text : string) : St (list Prim) unit :=
  stry (select_current_line ;~ replace_selection_with_text text)
       (fun _ => sret tt).

End Service.

(** An action that is neither a write to the clipboard nor a key of the
    paste shortcut. *)
Definition reads_only (p : Prim) : Prop :=
  match p with
  | Copy _ => False
  | Press (KeyChar c) | Release (KeyChar c) => c = "c"%char
  | _ => True
  end.

(** An action that does not write to the clipboard. *)
Definition no_copy (p : Prim) : Prop :=
  match p with Copy _ => False | _ => True end.

End Clip.

(** ** services/hotkey_service.py: the default handlers *)

(** A processor object: its provider and its configuration; the cache
    service is the shared one of the [World]. *)
Record TextProcessor := mkTextProcessor {
  tp_llm_provider : ILLMProvider;
  tp_config : Config.AppConfig
}.

(** [DefaultHotkeyHandlers]; each field may be [None]. *)
Record DefaultHotkeyHandlers := mkDefaultHotkeyHandlers {
  grammar_corrector : option TextProcessor;
  text_summarizer : option TextProcessor;
  tone_changer : option TextProcessor;
  clipboard_service : option unit
}.

Section Handlers.
Variable env : Clip.Environment.

Definition Desk : Type := (World * list Clip.Prim)%type.

Definition on_clipboard {A} (m : St (list Clip.Prim) A) : St Desk A :=
  fun s =>
    let (r, log') := m (snd s) in (r, (fst s, log')).

Definition on_world {A} (m : M A) : St Desk A :=
  fun s =>
    let (r, w') := m (fst s) in (r, (w', snd s)).

(** The body the four text handlers share: they differ in the processor
    and the clipboard operations they use. *)
Definition handle (processor : option TextProcessor) (clipboard : option unit)
           (copy : St (list Clip.Prim) string)
           (process : TextProcessor -> string -> M TextProcessingResult)
           (replace : string -> St (list Clip.Prim) unit) : St Desk unit :=
  stry
    (match processor, clipboard with
     | Some proc, Some _ =>
         text <~ on_clipboard copy ;;
         if negb (PyStr.truthy (PyStr.strip text)) then sret tt
         else
           result <~ on_world (process proc text) ;;
           if success result
           then on_clipboard (replace (processed_text result))
           else sret tt
     | _, _ => sret tt
     end)
    (fun _ => sret tt).

(** [DefaultHotkeyHandlers.grammar_fix_line] *)
Definition grammar_fix_line (h : DefaultHotkeyHandlers) : St Desk unit :=
  handle (grammar_corrector h) (clipboard_service h)
         (Clip.copy_current_line env)
         (fun proc => fix_grammar (tp_llm_provider proc) (tp_config proc))
         (Clip.replace_current_line_with_text env).

(** [DefaultHotkeyHandlers.grammar_fix_selection] *)
Definition grammar_fix_selection (h : DefaultHotkeyHandlers) : St Desk unit :=
  handle (grammar_corrector h) (clipboard_service h)
         (Clip.copy_selection env)
         (fun proc => fix_grammar (tp_llm_provider proc) (tp_config proc))
         (Clip.replace_selection_with_text env).

(** [DefaultHotkeyHandlers.summarize] *)
Definition handle_summarize (h : DefaultHotkeyHandlers) : St Desk unit :=
  handle (text_summarizer h) (clipboard_service h)
         (Clip.copy_selection env)
         (fun proc => summarize (tp_llm_provider proc) (tp_config proc))
         (Clip.replace_selection_with_text env).

(** [DefaultHotkeyHandlers.change_tone] *)
Definition handle_change_tone (h : DefaultHotkeyHandlers) : St Desk unit :=
  handle (tone_changer h) (clipboard_service h)
         (Clip.copy_selection env)
         (fun proc text =>
            change_tone (tp_llm_provider proc) (tp_config proc) text "formal")
         (Clip.replace_selection_with_text env).

(** The four text handlers. *)
Inductive TextHandler :=
| OnGrammarFixLine
| OnGrammarFixSelection
| OnSummarize
| OnChangeTone.

Definition run_handler (t : TextHandler) (h : DefaultHotkeyHandlers)
  : St Desk unit :=
  match t with
  | OnGrammarFixLine => grammar_fix_line h
  | OnGrammarFixSelection => grammar_fix_selection h
  | OnSummarize => handle_summarize h
  | OnChangeTone => handle_change_tone h
  end.

(** The processor a handler uses and the invocation it makes. *)
Definition processor_of (t : TextHandler) (h : DefaultHotkeyHandlers)
  : option TextProcessor :=
  match t with
  | OnGrammarFixLine | OnGrammarFixSelection => grammar_corrector h
  | OnSummarize => text_summarizer h
  | OnChangeTone => tone_changer h
  end.

Definition invocation_of (t : TextHandler) (proc : TextProcessor)
           (text : string) : M TextProcessingResult :=
  match t with
  | OnGrammarFixLine | OnGrammarFixSelection =>
      process_text (tp_llm_provider proc) (tp_config proc)
                   GrammarCorrector text None
  | OnSummarize =>
      process_text (tp_llm_provider proc) (tp_config proc)
                   TextSummarizer text None
  | OnChangeTone =>
      process_text (tp_llm_provider proc) (tp_config proc)
                   ToneChanger text (Some "formal")
  end.

End Handlers.

(** ** Vocabulary for the clipboard service and the handlers *)

(** A straight-line block of actions on the desktop, one after the other. *)
Fixpoint performs (env : Clip.Environment) (ps : list Clip.Prim)
  : St (list Clip.Prim) unit :=
  match ps with
  | [] => sret tt
  | p :: ps' => Clip.perform env p ;~ performs env ps'
  end.

(** The run that did [ev] from [log] was ended by its last action, which
    raised [e], not an instance of [Exception]. *)
Definition interrupted (env : Clip.Environment) (log ev : list Clip.Prim)
           (e : PyException) : Prop :=
  is_Exception e = false /\
  exists ev0 p, ev = ev0 ++ [p] /\ env (log ++ ev0) p = Raised e.

(** [m], run from [log], only does actions that satisfy [P], and when it
    does not return it was interrupted by the last of them. *)
Definition runs (env : Clip.Environment) {A} (m : St (list Clip.Prim) A)
           (P : Clip.Prim -> Prop) (log : list Clip.Prim) : Prop :=
  exists ev,
    snd (m log) = log ++ ev /\
    Forall P ev /\
    forall e, fst (m log) = Raised e -> interrupted env log ev e.

(** [ev] writes to the clipboard once, the given text, and presses no key
    of the paste shortcut before that. *)
Definition writes_once (text : string) (ev : list Clip.Prim) : Prop :=
  exists ev0 ev1,
    ev = ev0 ++ Clip.Copy text :: ev1 /\
    Forall Clip.reads_only ev0 /\
    Forall Clip.no_copy ev1.

(** What a copy operation of the clipboard service does from a log. It
    writes nothing to the clipboard and presses no paste key. When it
    returns, its last action was the read of the clipboard, whose text (the
    empty string if the read raised) it returns, or it was a wait that
    raised, and then it returns the empty string. When it does not return,
    its last action raised what is not an instance of [Exception]. *)
Definition copy_outcome (env : Clip.Environment)
           (m : St (list Clip.Prim) string) (log : list Clip.Prim) : Prop :=
  exists ev,
    snd (m log) = log ++ ev /\
    Forall Clip.reads_only ev /\
    match fst (m log) with
    | Normal text =>
        (exists ev0,
            ev = ev0 ++ [Clip.Paste] /\
            text = match env (log ++ ev0) Clip.Paste with
                   | Normal t => t
                   | Raised _ => EmptyString
                   end) \/
        (text = EmptyString /\
         exists ev0 seconds e,
           ev = ev0 ++ [Clip.Sleep seconds] /\
           env (log ++ ev0) (Clip.Sleep seconds) = Raised e /\
           is_Exception e = true)
    | Raised e => interrupted env log ev e
    end.

(** What a replace operation does. When it returns, it has written to the
    clipboard once, the given text, before any key of the paste shortcut.
    When it does not return, its last action raised what is not an
    instance of [Exception], and up to there it has done the same or has
    not come to the write. *)
Definition replace_outcome (env : Clip.Environment)
           (m : St (list Clip.Prim) unit) (text : string)
           (log : list Clip.Prim) : Prop :=
  exists ev,
    snd (m log) = log ++ ev /\
    match fst (m log) with
    | Normal _ => writes_once text ev
    | Raised e =>
        interrupted env log ev e /\
        (Forall Clip.reads_only ev \/ writes_once text ev)
    end.

(** The exception was raised by an action on the desktop, or by a call of
    the provider of the processor. *)
Definition desk_raised (env : Clip.Environment) (e : PyException) : Prop :=
  exists log p, env log p = Raised e.

Definition provider_raised (proc : TextProcessor) (e : PyException) : Prop :=
  exists history req,
    generate_response (tp_llm_provider proc) history req = Raised e.

(** ** main_dev.py: the single-file version of grammar correction *)

Module Dev.

(** The globals [fix_text] uses; [llm_calls] records the calls of the
    model. The [print] calls and the timing, which is only printed, have no
    part in the result. *)
Record Globals := mkGlobals {
  MODEL_LOADED : bool;
  correction_cache : dict string;
  llm_calls : list GenRequest
}.

(** [PROMPT_TEMPLATE.substitute(text=text)] *)
Definition PROMPT_TEMPLATE (text : string) : string :=
  ("[INST] Fix all typos, grammar, and punctuation errors in the following text. Keep the same meaning and preserve line breaks. Only return the corrected text without any explanations.

Text to fix: " ++ text ++ " [/INST]")%string.

(** the arguments of the call [llm(prompt, max_tokens=..., ...)] *)
Definition fix_request (text : string) : GenRequest :=
  {| prompt := PROMPT_TEMPLATE text;
     max_tokens := Z.max 100 (PyStr.len text * 4);
     temperature := (3 # 10)%Q;
     top_p := (9 # 10)%Q;
     top_k := 40;
     req_stop_tokens := ["[INST]"; "</s>"; "[/INST]"];
     repeat_penalty := (105 # 100)%Q |}.

(** [if len(cache) > limit: for key in list(cache.keys())[:count]: del cache[key]] *)
Definition trim (limit count : Z) (cache : dict string) : dict string :=
  if limit <? Z.of_nat (List.length cache)
  then fold_left (fun d key => dict_del key d) (slice_to count (keys cache)) cache
  else cache.

Section Script.
(** the global [llm], a [llama_cpp.Llama] object *)
Variable llm : Llama.Model.

(** [fix_text]: the text returned, and the globals afterwards. The call
    of the model stands in [try: ... except Exception], whose handler
    returns the text as given. *)
Definition fix_text (text : string) (g : Globals) : Completion string * Globals :=
  if negb (MODEL_LOADED g) then (Normal text, g)
  else
    let text_key := PyStr.lower (PyStr.strip text) in
    match dict_get text_key (correction_cache g) with
    | Some cached => (Normal cached, g)
    | None =>
        let g1 := mkGlobals (MODEL_LOADED g) (correction_cache g)
                            (llm_calls g ++ [fix_request text]) in
        match llm (llm_calls g) (fix_request text) with
        | Raised e => if is_Exception e then (Normal text, g1) else (Raised e, g1)
        | Normal out =>
            let fixed_text := PyStr.strip out in
            if negb (PyStr.truthy fixed_text) then (Normal text, g1)
            else if under_30_percent fixed_text text && (10 <? PyStr.len text)
            then (Normal text, g1)
            else
              (Normal fixed_text,
               mkGlobals (MODEL_LOADED g)
                         (trim 100 20
                               (dict_set text_key fixed_text (correction_cache g)))
                         (llm_calls g ++ [fix_request text]))
        end
    end.

(** The globals after [fix_text] was called on each text in turn. *)
Definition run_fix_texts (texts : list string) (g : Globals) : Globals :=
  fold_left (fun g' text => snd (fix_text text g')) texts g.

End Script.

End Dev.

(** * Properties *)

(** ** Strings *)

Section StringFacts.
Import PyStr.

Lemma isspace_lower_char (c : ascii) : isspace (lower_char c) = isspace c.
Proof. destruct c as [[] [] [] [] [] [] [] []]; reflexivity. Qed.

Lemma lower_char_idem (c : ascii) : lower_char (lower_char c) = lower_char c.
Proof. destruct c as [[] [] [] [] [] [] [] []]; reflexivity. Qed.

Lemma lower_idem (s : string) : lower (lower s) = lower s.
Proof.
  induction s as [|c s IH]; simpl; [reflexivity|].
  now rewrite lower_char_idem, IH.
Qed.

Lemma lstrip_lower (s : string) : lstrip (lower s) = lower (lstrip s).
Proof.
  induction s as [|c s IH]; simpl; [reflexivity|].
  rewrite isspace_lower_char. destruct (isspace c); [exact IH|reflexivity].
Qed.

Lemma rstrip_lower (s : string) : rstrip (lower s) = lower (rstrip s).
Proof.
  induction s as [|c s IH]; simpl; [reflexivity|].
  rewrite IH, isspace_lower_char.
  destruct (rstrip s); simpl; [destruct (isspace c)|]; reflexivity.
Qed.

Lemma strip_lower (s : string) : strip (lower s) = lower (strip s).
Proof. unfold strip. now rewrite lstrip_lower, rstrip_lower. Qed.

Lemma lstrip_no_leading_space (s : string) : no_leading_space (lstrip s).
Proof.
  induction s as [|c s IH]; simpl; [exact I|].
  destruct (isspace c) eqn:E; [exact IH|exact E].
Qed.

Lemma lstrip_fixed (s : string) : no_leading_space s -> lstrip s = s.
Proof. destruct s; simpl; [reflexivity|]. now intros ->. Qed.

Lemma rstrip_no_leading_space (s : string) :
  no_leading_space s -> no_leading_space (rstrip s).
Proof.
  destruct s as [|c s]; simpl; [exact id|]. intros E.
  destruct (rstrip s); simpl; [rewrite E|]; exact E.
Qed.

Lemma rstrip_idem (s : string) : rstrip (rstrip s) = rstrip s.
Proof.
  induction s as [|c s IH]; simpl; [reflexivity|].
  destruct (rstrip s) as [|d r] eqn:E.
  - destruct (isspace c) eqn:Ec; simpl; [reflexivity|now rewrite Ec].
  - simpl in IH |- *. now rewrite IH.
Qed.

Lemma strip_idem (s : string) : strip (strip s) = strip s.
Proof.
  unfold strip.
  rewrite (lstrip_fixed (rstrip (lstrip s))).
  - apply rstrip_idem.
  - apply rstrip_no_leading_space, lstrip_no_leading_space.
Qed.

Lemma length_lstrip (s : string) : (String.length (lstrip s) <= String.length s)%nat.
Proof.
  induction s as [|c s IH]; simpl; [lia|]. destruct (isspace c); simpl; lia.
Qed.

Lemma length_rstrip (s : string) : (String.length (rstrip s) <= String.length s)%nat.
Proof.
  induction s as [|c s IH]; simpl; [lia|].
  destruct (rstrip s); [destruct (isspace c)|]; simpl in *; lia.
Qed.

Lemma len_strip (s : string) : len (strip s) <= len s.
Proof.
  unfold len, strip.
  pose proof (length_rstrip (lstrip s)). pose proof (length_lstrip s). lia.
Qed.

Lemma truthy_false (s : string) : truthy s = false <-> s = EmptyString.
Proof. destruct s; simpl; split; congruence. Qed.

End StringFacts.

(** ** Lists, dicts and [sorted] *)

Section ListFacts.
Context {A : Type}.

Lemma filter_Permutation (f : A -> bool) (l l' : list A) :
  Permutation l l' -> Permutation (filter f l) (filter f l').
Proof.
  induction 1 as [|x l l' _ IH|x y l|l l' l'' _ IH1 _ IH2]; simpl.
  - constructor.
  - destruct (f x); [now constructor|exact IH].
  - destruct (f x), (f y); try reflexivity. apply perm_swap.
  - now transitivity (filter f l').
Qed.

Lemma filter_none (f : A -> bool) (l : list A) :
  (forall x, In x l -> f x = false) -> filter f l = [].
Proof.
  induction l as [|x l IH]; simpl; intros H; [reflexivity|].
  rewrite (H x) by now left. apply IH. intros y Hy. apply H. now right.
Qed.

Lemma filter_all (f : A -> bool) (l : list A) :
  (forall x, In x l -> f x = true) -> filter f l = l.
Proof.
  intros H. apply forallb_filter_id, forallb_forall, H.
Qed.

Lemma filter_twice (f g : A -> bool) (l : list A) :
  filter f (filter g l) = filter (fun x => g x && f x) l.
Proof.
  induction l as [|x l IH]; simpl; [reflexivity|].
  destruct (g x); simpl; [destruct (f x)|]; now rewrite IH.
Qed.

Lemma NoDup_map_filter {B} (h : A -> B) (f : A -> bool) (l : list A) :
  NoDup (map h l) -> NoDup (map h (filter f l)).
Proof.
  induction l as [|x l IH]; simpl; intros H; [constructor|].
  inversion H as [|? ? Hx Hl]; subst.
  destruct (f x); simpl; [constructor|]; auto.
  intros Hin. apply Hx. apply in_map_iff in Hin as (y & <- & Hy).
  apply in_map, (proj1 (filter_In f y l)), Hy.
Qed.

Variable key : A -> Z.

Lemma insert_by_Permutation (x : A) (l : list A) :
  Permutation (insert_by key x l) (x :: l).
Proof.
  induction l as [|y l IH]; simpl; [reflexivity|].
  destruct (key x <=? key y); [reflexivity|].
  rewrite IH. apply perm_swap.
Qed.

Lemma sorted_Permutation (l : list A) : Permutation (sorted key l) l.
Proof.
  induction l as [|x l IH]; simpl; [reflexivity|].
  rewrite insert_by_Permutation. now constructor.
Qed.

Lemma length_sorted (l : list A) : List.length (sorted key l) = List.length l.
Proof. apply Permutation_length, sorted_Permutation. Qed.

Lemma insert_by_sorted (x : A) (l : list A) :
  StronglySorted (key_le key) l -> StronglySorted (key_le key) (insert_by key x l).
Proof.
  induction 1 as [|y l Hl IH Hy]; simpl.
  - repeat constructor.
  - destruct (key x <=? key y) eqn:E.
    + apply Z.leb_le in E. constructor; [now constructor|].
      constructor; [exact E|].
      eapply Forall_impl; [|exact Hy]. unfold key_le. intros; lia.
    + apply Z.leb_gt in E. constructor; [exact IH|].
      eapply Permutation_Forall;
        [symmetry; apply insert_by_Permutation|].
      constructor; [unfold key_le; lia|exact Hy].
Qed.

Lemma sorted_StronglySorted (l : list A) : StronglySorted (key_le key) (sorted key l).
Proof.
  induction l as [|x l IH]; simpl; [constructor|now apply insert_by_sorted].
Qed.

(** In a sorted list nothing among the first [n] elements is larger than
    anything after them. *)
Lemma StronglySorted_firstn_skipn (l : list A) (n : nat) (x y : A) :
  StronglySorted (key_le key) l ->
  In x (firstn n l) -> In y (skipn n l) -> key x <= key y.
Proof.
  intros Hs. revert n. induction Hs as [|z l Hl IH Hz]; intros n Hx Hy.
  - rewrite firstn_nil in Hx. contradiction.
  - destruct n as [|n]; simpl in Hx, Hy; [contradiction|].
    destruct Hx as [->|Hx]; [|now apply (IH n)].
    rewrite Forall_forall in Hz. apply Hz.
    rewrite <- (firstn_skipn n l). apply in_or_app. now right.
Qed.

End ListFacts.

Section DictFacts.
Context {V : Type}.
Implicit Types (d : dict V) (k : string) (v : V).

Lemma dict_get_set_same k v d : dict_get k (dict_set k v d) = Some v.
Proof.
  induction d as [|[k' v'] d IH]; simpl.
  - now rewrite String.eqb_refl.
  - destruct (String.eqb k k') eqn:E; simpl.
    + now rewrite String.eqb_refl.
    + now rewrite E.
Qed.

Lemma dict_get_set_other k k' v d :
  k' <> k -> dict_get k' (dict_set k v d) = dict_get k' d.
Proof.
  intros Hne. induction d as [|[k0 v0] d IH]; simpl.
  - now apply String.eqb_neq in Hne as ->.
  - destruct (String.eqb k k0) eqn:E; simpl.
    + apply String.eqb_eq in E as <-.
      now apply String.eqb_neq in Hne as ->.
    + now rewrite IH.
Qed.

Lemma dict_contains_In k d : dict_contains k d = true <-> In k (keys d).
Proof.
  unfold dict_contains. induction d as [|[k' v'] d IH]; simpl.
  - split; [discriminate|contradiction].
  - destruct (String.eqb_spec k k') as [->|Hne].
    + split; auto.
    + rewrite IH. split; [now right|]. intros [H|H]; congruence.
Qed.

Lemma dict_contains_false k d : dict_contains k d = false <-> ~ In k (keys d).
Proof.
  rewrite <- dict_contains_In. destruct (dict_contains k d); split; congruence.
Qed.

Lemma key_in_In k (ks : list string) : key_in k ks = true <-> In k ks.
Proof.
  unfold key_in. rewrite existsb_exists. split.
  - intros (x & Hx & E). now apply String.eqb_eq in E as ->.
  - intros H. exists k. split; [exact H|apply String.eqb_refl].
Qed.

Lemma keys_dict_set k v d :
  keys (dict_set k v d) = if dict_contains k d then keys d else keys d ++ [k].
Proof.
  unfold dict_contains. induction d as [|[k' v'] d IH]; simpl; [reflexivity|].
  destruct (String.eqb_spec k k') as [->|Hne]; simpl; [reflexivity|].
  rewrite IH. now destruct (dict_get k d).
Qed.

Lemma length_dict_set k v d :
  List.length (dict_set k v d) =
  if dict_contains k d then List.length d else S (List.length d).
Proof.
  unfold keys. rewrite <- (length_map fst), <- (length_map fst d).
  fold (keys (dict_set k v d)). rewrite keys_dict_set. fold (keys d).
  destruct (dict_contains k d); [reflexivity|].
  rewrite length_app. simpl. lia.
Qed.

Lemma dict_wf_set k v d : dict_wf d -> dict_wf (dict_set k v d).
Proof.
  unfold dict_wf. rewrite keys_dict_set.
  destruct (dict_contains k d) eqn:E; [exact id|].
  intros H. apply NoDup_app; [exact H|repeat constructor; exact (fun x => x)|].
  intros a Ha [<-|[]]. now apply dict_contains_false in E.
Qed.

Lemma dict_get_In k v d : dict_wf d -> In (k, v) d -> dict_get k d = Some v.
Proof.
  unfold dict_wf. induction d as [|[k' v'] d IH]; simpl; [contradiction|].
  intros Hwf [E|Hin]; inversion Hwf as [|? ? Hk Hd]; subst.
  - inversion E; subst. now rewrite String.eqb_refl.
  - destruct (String.eqb_spec k k') as [->|Hne]; [|now apply IH].
    exfalso. apply Hk. now apply (in_map fst) in Hin.
Qed.

Lemma dict_get_Some_In k v d : dict_get k d = Some v -> In (k, v) d.
Proof.
  induction d as [|[k' v'] d IH]; simpl; [discriminate|].
  destruct (String.eqb_spec k k') as [->|Hne].
  - intros [= ->]. now left.
  - intros H. right. now apply IH.
Qed.

Lemma dict_wf_remove_keys (ks : list string) d :
  dict_wf d -> dict_wf (remove_keys ks d).
Proof. apply NoDup_map_filter. Qed.

Lemma dict_del_remove_keys k d : dict_wf d -> dict_del k d = remove_keys [k] d.
Proof.
  unfold dict_wf, remove_keys, key_in.
  induction d as [|[k' v'] d IH]; simpl; [reflexivity|].
  intros Hwf. inversion Hwf as [|? ? Hk Hd]; subst.
  destruct (String.eqb_spec k k') as [->|Hne]; simpl.
  - rewrite String.eqb_refl. simpl. symmetry.
    apply filter_all. intros [k0 v0] Hin. simpl.
    destruct (String.eqb_spec k0 k') as [->|]; [|reflexivity].
    exfalso. apply Hk. now apply (in_map fst) in Hin.
  - assert (E : String.eqb k' k = false) by (apply String.eqb_neq; congruence).
    rewrite E. simpl. now rewrite IH.
Qed.

Lemma remove_keys_cons k (ks : list string) d :
  remove_keys ks (remove_keys [k] d) = remove_keys (k :: ks) d.
Proof.
  unfold remove_keys. rewrite filter_twice. apply filter_ext.
  intros [k0 v0]. unfold key_in. simpl.
  destruct (String.eqb k0 k); reflexivity.
Qed.

(** The loop of [_cleanup]: deleting the keys of [items] one by one. *)
Lemma fold_dict_del (items : list (string * V)) d :
  dict_wf d ->
  fold_left (fun d' item => dict_del (fst item) d') items d
  = remove_keys (map fst items) d.
Proof.
  revert d. induction items as [|[k v] items IH]; simpl; intros d Hwf.
  - symmetry. now apply filter_all.
  - rewrite dict_del_remove_keys by exact Hwf.
    rewrite IH by now apply dict_wf_remove_keys.
    apply remove_keys_cons.
Qed.

Lemma dict_contains_remove_keys k (ks : list string) d :
  dict_contains k (remove_keys ks d) = dict_contains k d && negb (key_in k ks).
Proof.
  unfold dict_contains, remove_keys.
  induction d as [|[k' v'] d IH]; simpl; [reflexivity|].
  destruct (key_in k' ks) eqn:Ek; simpl.
  - destruct (String.eqb_spec k k') as [->|Hne]; [|exact IH].
    rewrite IH, Ek. simpl. now rewrite andb_false_r.
  - destruct (String.eqb_spec k k') as [->|Hne]; [|exact IH].
    now rewrite Ek.
Qed.

End DictFacts.

(** ** [LRUCache] *)

Section LRUFacts.
Context {T : Type}.
Implicit Types (c : LRUCache T) (d : dict (CacheEntry T)).

Lemma NoDup_app_disjoint {B} (l1 l2 : list B) (a : B) :
  NoDup (l1 ++ l2) -> In a l1 -> In a l2 -> False.
Proof.
  induction l1 as [|x l1 IH]; simpl; [contradiction|].
  intros H [->|H1] H2; inversion H as [|? ? Hx Hl]; subst.
  - apply Hx, in_or_app. now right.
  - now apply IH.
Qed.

Lemma slice_to_firstn {B} (n : Z) (l : list B) :
  exists m, slice_to n l = firstn m l.
Proof. unfold slice_to. destruct (0 <=? n); eauto. Qed.

Lemma slice_to_nonneg {B} (n : Z) (l : list B) :
  0 <= n -> slice_to n l = firstn (Z.to_nat n) l.
Proof. unfold slice_to. intros H. apply Z.leb_le in H. now rewrite H. Qed.

(** The sorted items, split after the first [m], still have distinct keys. *)
Lemma sorted_split_keys d (m : nat) :
  dict_wf d ->
  Permutation (keys d)
    (keys (firstn m (sorted LRU.item_key d))
     ++ keys (skipn m (sorted LRU.item_key d))).
Proof.
  intros _. unfold keys. rewrite <- map_app, firstn_skipn.
  apply Permutation_map. symmetry. apply sorted_Permutation.
Qed.

Lemma sorted_split_NoDup d (m : nat) :
  dict_wf d ->
  NoDup (keys (firstn m (sorted LRU.item_key d))
         ++ keys (skipn m (sorted LRU.item_key d))).
Proof.
  intros Hwf. eapply Permutation_NoDup; [|exact Hwf].
  now apply sorted_split_keys.
Qed.

(** Removing the keys of the first [m] sorted items leaves the other sorted
    items, up to order. *)
Lemma remove_firstn_sorted d (m : nat) :
  dict_wf d ->
  Permutation
    (remove_keys (keys (firstn m (sorted LRU.item_key d))) d)
    (skipn m (sorted LRU.item_key d)).
Proof.
  intros Hwf. pose proof (sorted_split_NoDup d m Hwf) as Hnd.
  set (srt := sorted LRU.item_key d) in *.
  transitivity (remove_keys (keys (firstn m srt)) srt).
  - apply filter_Permutation. symmetry. apply sorted_Permutation.
  - rewrite <- (firstn_skipn m srt) at 2.
    unfold remove_keys. rewrite filter_app.
    rewrite filter_none, filter_all; [reflexivity| |].
    + intros x Hx. apply negb_true_iff.
      destruct (key_in (fst x) (keys (firstn m srt))) eqn:E; [|reflexivity].
      apply key_in_In in E. exfalso.
      eapply NoDup_app_disjoint; [exact Hnd|exact E|].
      now apply in_map.
    + intros x Hx. apply negb_false_iff, key_in_In. now apply in_map.
Qed.

Lemma cleanup_skipped c :
  LRU.size c < cleanup_batch_size c -> LRU._cleanup c = c.
Proof.
  unfold LRU._cleanup, LRU.size. intros H. apply Z.ltb_lt in H. now rewrite H.
Qed.

Lemma cleanup_map c :
  dict_wf (_cache c) -> cleanup_batch_size c <= LRU.size c ->
  _cache (LRU._cleanup c)
  = remove_keys (keys (LRU.cleanup_batch c)) (_cache c).
Proof.
  unfold LRU._cleanup, LRU.size. intros Hwf H.
  apply Z.ltb_ge in H. rewrite H. simpl. now apply fold_dict_del.
Qed.

Lemma cleanup_params c :
  max_size (LRU._cleanup c) = max_size c /\
  cleanup_batch_size (LRU._cleanup c) = cleanup_batch_size c.
Proof.
  unfold LRU._cleanup.
  destruct (_ <? _); simpl; auto.
Qed.

(** Every key the loop of [_cleanup] deletes is a key of the dict, and no
    key comes twice: [del] never meets an absent key. *)
Lemma cleanup_deletes_present_keys c :
  dict_wf (_cache c) ->
  NoDup (keys (LRU.cleanup_batch c)) /\
  forall k, In k (keys (LRU.cleanup_batch c)) -> In k (keys (_cache c)).
Proof.
  intros Hwf. unfold LRU.cleanup_batch.
  destruct (slice_to_firstn (cleanup_batch_size c)
              (sorted LRU.item_key (_cache c))) as [m ->].
  split.
  - eapply NoDup_app_remove_r. now apply sorted_split_NoDup.
  - intros k Hk. eapply Permutation_in;
      [symmetry; now apply (sorted_split_keys _ m)|].
    apply in_or_app. now left.
Qed.

Lemma dict_wf_cleanup c : dict_wf (_cache c) -> dict_wf (_cache (LRU._cleanup c)).
Proof.
  intros Hwf.
  destruct (Z.lt_ge_cases (LRU.size c) (cleanup_batch_size c)) as [H|H].
  - now rewrite cleanup_skipped.
  - rewrite cleanup_map by assumption. now apply dict_wf_remove_keys.
Qed.

Lemma dict_wf_put c key v t1 t2 :
  dict_wf (_cache c) -> dict_wf (_cache (LRU.put c key v t1 t2)).
Proof.
  intros Hwf. unfold LRU.put. simpl. apply dict_wf_set.
  destruct (_ <=? _); [now apply dict_wf_cleanup|exact Hwf].
Qed.

(** Distinct keys are an invariant of the cache: they hold initially and
    after [clear], and [get] keeps them as [put] does. *)
Lemma dict_wf_init (max batch : Z) : dict_wf (_cache (@LRU.init T max batch)).
Proof. constructor. Qed.

Lemma dict_wf_clear c : dict_wf (_cache (LRU.clear c)).
Proof. constructor. Qed.

Lemma dict_wf_get c key now :
  dict_wf (_cache c) -> dict_wf (_cache (snd (LRU.get c key now))).
Proof.
  intros Hwf. unfold LRU.get.
  destruct (dict_get key (_cache c)); simpl; [|exact Hwf].
  now apply dict_wf_set.
Qed.

(** A cleanup that is not skipped shrinks the map by the batch size. *)
Lemma size_cleanup c :
  dict_wf (_cache c) -> 0 <= cleanup_batch_size c <= LRU.size c ->
  LRU.size (LRU._cleanup c) = LRU.size c - cleanup_batch_size c.
Proof.
  intros Hwf [H0 H1]. unfold LRU.size in *.
  rewrite cleanup_map by assumption.
  unfold LRU.cleanup_batch. rewrite slice_to_nonneg by assumption.
  rewrite (Permutation_length (remove_firstn_sorted _ _ Hwf)).
  rewrite length_skipn, length_sorted. lia.
Qed.

End LRUFacts.

Section Eviction.
Context {T : Type}.
Implicit Types (c : LRUCache T).

Lemma dict_value_unique (d : dict (CacheEntry T)) k e e' :
  dict_wf d -> In (k, e) d -> In (k, e') d -> e = e'.
Proof.
  intros Hwf H1 H2.
  apply (dict_get_In _ _ _ Hwf) in H1. apply (dict_get_In _ _ _ Hwf) in H2.
  congruence.
Qed.

(** The evicted keys are the keys of the first [cleanup_batch_size] items
    in ascending order of [last_accessed]. *)
Lemma evicted_iff c k :
  dict_wf (_cache c) -> 0 <= cleanup_batch_size c <= LRU.size c ->
  In k (evicted c (LRU._cleanup c)) <->
  In k (keys (firstn (Z.to_nat (cleanup_batch_size c))
                     (sorted LRU.item_key (_cache c)))).
Proof.
  intros Hwf [H0 H1]. unfold evicted, LRU.contains.
  rewrite cleanup_map by assumption.
  unfold LRU.cleanup_batch. rewrite slice_to_nonneg by assumption.
  rewrite filter_In, dict_contains_remove_keys, negb_andb, negb_involutive.
  split.
  - intros [Hk E]. apply dict_contains_In in Hk. rewrite Hk in E.
    now apply key_in_In.
  - intros Hk. split.
    + eapply Permutation_in;
        [symmetry; apply (sorted_split_keys _ (Z.to_nat (cleanup_batch_size c)) Hwf)|].
      apply in_or_app. now left.
    + apply key_in_In in Hk. rewrite Hk. apply orb_true_r.
Qed.

Lemma length_evicted c :
  dict_wf (_cache c) -> 0 <= cleanup_batch_size c <= LRU.size c ->
  Z.of_nat (List.length (evicted c (LRU._cleanup c))) = cleanup_batch_size c.
Proof.
  intros Hwf H. pose proof H as [H0 H1].
  set (m := Z.to_nat (cleanup_batch_size c)).
  set (srt := sorted LRU.item_key (_cache c)).
  assert (E : evicted c (LRU._cleanup c)
              = filter (fun k => key_in k (keys (firstn m srt))) (keys (_cache c))).
  { unfold evicted. apply filter_ext_in. intros k Hk.
    unfold LRU.contains. rewrite cleanup_map by assumption.
    unfold LRU.cleanup_batch. rewrite slice_to_nonneg by assumption.
    rewrite dict_contains_remove_keys, negb_andb, negb_involutive.
    apply dict_contains_In in Hk. now rewrite Hk. }
  rewrite E.
  rewrite (Permutation_length
             (filter_Permutation _ _ _ (sorted_split_keys _ m Hwf))).
  fold srt. rewrite filter_app, filter_all, filter_none.
  - rewrite app_nil_r. unfold keys. rewrite length_map, length_firstn.
    unfold srt. rewrite length_sorted. unfold LRU.size in H1. lia.
  - intros k Hk. destruct (key_in k (keys (firstn m srt))) eqn:Ek; [|reflexivity].
    apply key_in_In in Ek. exfalso.
    exact (NoDup_app_disjoint _ _ _ (sorted_split_NoDup _ m Hwf) Ek Hk).
  - intros k Hk. now apply key_in_In.
Qed.

End Eviction.

(** C2. When a [put] finds the map at capacity and holding at least
    [cleanup_batch_size] entries, it inserts into the map its cleanup
    leaves, and that cleanup removes exactly [cleanup_batch_size] keys, every removed entry was
    last accessed no later than every entry that stays, and the map that
    stays is the old map without the removed keys: no other entry is
    removed or altered. *)
Theorem C2_cleanup_evicts_oldest_batch :
  forall (T : Type) (c : LRUCache T) (key : string) (v : T) (t1 t2 : Time),
    dict_wf (_cache c) ->
    max_size c <= LRU.size c ->
    0 <= cleanup_batch_size c <= LRU.size c ->
    let c' := LRU._cleanup c in
    _cache (LRU.put c key v t1 t2)
    = dict_set key (new_entry v t1 t2) (_cache c') /\
    Z.of_nat (List.length (evicted c c')) = cleanup_batch_size c /\
    NoDup (evicted c c') /\
    _cache c' = remove_keys (evicted c c') (_cache c) /\
    (forall k e k' e',
        In (k, e) (_cache c) -> In (k', e') (_cache c) ->
        In k (evicted c c') -> ~ In k' (evicted c c') ->
        last_accessed e <= last_accessed e').
Proof.
  intros T c key v t1 t2 Hwf Hfull H c'. subst c'. pose proof H as [H0 H1].
  set (m := Z.to_nat (cleanup_batch_size c)).
  set (srt := sorted LRU.item_key (_cache c)).
  split.
  { unfold LRU.put, LRU.size in *. apply Z.leb_le in Hfull.
    now rewrite Hfull. }
  split; [now apply length_evicted|].
  split; [apply NoDup_filter, Hwf|].
  split.
  - rewrite cleanup_map by assumption.
    unfold LRU.cleanup_batch. rewrite slice_to_nonneg by assumption.
    apply filter_ext_in. intros [k e] Hin. simpl. f_equal.
    apply eq_iff_eq_true. rewrite !key_in_In.
    symmetry. now apply evicted_iff.
  - intros k e k' e' Hin Hin' Hk Hk'.
    rewrite evicted_iff in Hk, Hk' by assumption. fold m srt in Hk, Hk'.
    assert (Hperm : Permutation (_cache c) (firstn m srt ++ skipn m srt)).
    { rewrite firstn_skipn. symmetry. apply sorted_Permutation. }
    apply (StronglySorted_firstn_skipn LRU.item_key srt m (k, e) (k', e')).
    + apply sorted_StronglySorted.
    + apply in_map_iff in Hk as ([k0 e0] & E & H0').
      simpl in E. subst k0.
      assert (Hin0 : In (k, e0) (_cache c)).
      { eapply Permutation_in; [symmetry; exact Hperm|].
        apply in_or_app. now left. }
      now rewrite (dict_value_unique _ k e e0 Hwf Hin Hin0).
    + apply (Permutation_in _ Hperm) in Hin'.
      apply in_app_or in Hin' as [Hin'|Hin']; [|exact Hin'].
      exfalso. apply Hk'. now apply (in_map fst) in Hin'.
Qed.

(** ** Sequences of [put] calls *)

Lemma size_dict_set_le (c : LRUCache string) key e :
  Z.of_nat (List.length (dict_set key e (_cache c))) <= LRU.size c + 1.
Proof.
  unfold LRU.size. rewrite length_dict_set.
  destruct (dict_contains key (_cache c)); lia.
Qed.

Lemma put_params (c : LRUCache string) p :
  max_size (apply_put c p) = max_size c /\
  cleanup_batch_size (apply_put c p) = cleanup_batch_size c.
Proof.
  unfold apply_put, LRU.put. simpl.
  destruct (_ <=? _); [apply cleanup_params|auto].
Qed.

(** One [put] keeps the size below the larger of the two parameters. *)
Lemma size_put_le (c : LRUCache string) p :
  dict_wf (_cache c) -> 1 <= cleanup_batch_size c ->
  LRU.size c <= Z.max (max_size c) (cleanup_batch_size c) ->
  LRU.size (apply_put c p) <= Z.max (max_size c) (cleanup_batch_size c).
Proof.
  intros Hwf Hb Hsz. unfold apply_put, LRU.put.
  destruct (max_size c <=? Z.of_nat (List.length (_cache c))) eqn:Efull.
  - apply Z.leb_le in Efull. fold (LRU.size c) in Efull.
    destruct (Z.lt_ge_cases (LRU.size c) (cleanup_batch_size c)) as [H|H].
    + rewrite cleanup_skipped by exact H.
      etransitivity; [apply size_dict_set_le|]. lia.
    + etransitivity; [apply size_dict_set_le|].
      rewrite size_cleanup by (auto; lia). lia.
  - apply Z.leb_gt in Efull. fold (LRU.size c) in Efull.
    etransitivity; [apply size_dict_set_le|]. lia.
Qed.

Lemma run_puts_invariant (calls : list PutCall) (c : LRUCache string) :
  dict_wf (_cache c) -> 1 <= cleanup_batch_size c ->
  LRU.size c <= Z.max (max_size c) (cleanup_batch_size c) ->
  let c' := run_puts calls c in
  dict_wf (_cache c') /\
  max_size c' = max_size c /\
  cleanup_batch_size c' = cleanup_batch_size c /\
  LRU.size c' <= Z.max (max_size c) (cleanup_batch_size c).
Proof.
  revert c. induction calls as [|p calls IH]; simpl; intros c Hwf Hb Hsz.
  - auto.
  - destruct (put_params c p) as [Em Eb].
    destruct (IH (apply_put c p)) as (Hwf' & Em' & Eb' & Hsz').
    + now apply dict_wf_put.
    + now rewrite Eb.
    + rewrite Em, Eb. now apply size_put_le.
    + rewrite Em, Eb in *. auto.
Qed.

(** With [max_size < cleanup_batch_size], a [put] on a map of exactly
    [cleanup_batch_size] entries evicts them all. *)
Lemma put_at_batch_size (c : LRUCache string) p :
  dict_wf (_cache c) -> 0 <= cleanup_batch_size c ->
  max_size c < cleanup_batch_size c ->
  LRU.size c = cleanup_batch_size c ->
  LRU.size (apply_put c p) = 1.
Proof.
  intros Hwf Hb Hlt Hsz. unfold apply_put, LRU.put.
  assert (E : (max_size c <=? Z.of_nat (List.length (_cache c))) = true).
  { apply Z.leb_le. unfold LRU.size in Hsz. lia. }
  rewrite E.
  assert (Hc : LRU.size (LRU._cleanup c) = 0).
  { rewrite size_cleanup by (auto; lia). lia. }
  unfold LRU.size in *. simpl.
  destruct (_cache (LRU._cleanup c)) eqn:Ed; [reflexivity|].
  simpl in Hc. lia.
Qed.

Lemma length_letters (n : nat) : String.length (letters n) = n.
Proof. induction n; simpl; congruence. Qed.

Lemma letters_fresh (n : nat) : ~ In (letters n) (map letters (seq 0 n)).
Proof.
  intros H. apply in_map_iff in H as (m & E & Hm). apply in_seq in Hm.
  apply (f_equal String.length) in E. rewrite !length_letters in E. lia.
Qed.

(** While the map is smaller than the batch size, puts with new keys all
    stay. *)
Lemma run_distinct_puts (max batch : Z) (n : nat) :
  Z.of_nat n <= batch ->
  let c := run_puts (distinct_puts n) (LRU.init max batch) in
  keys (_cache c) = map letters (seq 0 n) /\
  max_size c = max /\ cleanup_batch_size c = batch.
Proof.
  induction n as [|n IH]; intros Hn.
  - simpl. auto.
  - simpl distinct_puts. unfold run_puts. rewrite fold_left_app.
    cbn [fold_left].
    fold (run_puts (distinct_puts n) (LRU.init max batch)).
    destruct IH as (Ek & Em & Eb); [lia|].
    set (c := run_puts (distinct_puts n) (LRU.init max batch)) in *.
    assert (Hlen : LRU.size c = Z.of_nat n).
    { unfold LRU.size. rewrite <- (length_map fst). fold (keys (_cache c)).
      now rewrite Ek, length_map, length_seq. }
    assert (Ec : (if max_size c <=? Z.of_nat (List.length (_cache c))
                  then LRU._cleanup c else c) = c).
    { destruct (_ <=? _); [|reflexivity].
      apply cleanup_skipped. rewrite Hlen, Eb. lia. }
    unfold apply_put, LRU.put. rewrite Ec. unfold LRU.with_map.
    cbn [_cache max_size cleanup_batch_size put_key].
    rewrite keys_dict_set.
    assert (Hf : dict_contains (letters n) (_cache c) = false).
    { apply dict_contains_false. rewrite Ek. apply letters_fresh. }
    rewrite Hf, Ek, seq_S, map_app. simpl. auto.
Qed.

(** C1 (as amended). With [cleanup_batch_size >= 1]: if
    [max_size >= cleanup_batch_size], the size is at most [max_size] after
    every [put] of every sequence from the empty cache; if
    [max_size < cleanup_batch_size], the size can exceed [max_size], stays
    at most [cleanup_batch_size], and the [put] that finds exactly
    [cleanup_batch_size] entries runs the cleanup, which leaves only the
    new entry. *)
Theorem C1_put_size_bound :
  forall (max batch : Z) (calls : list PutCall),
    1 <= batch ->
    let c := run_puts calls (LRU.init max batch) in
    (batch <= max -> LRU.size c <= max) /\
    (max < batch ->
     LRU.size c <= batch /\
     (LRU.size c = batch -> forall p, LRU.size (apply_put c p) = 1) /\
     exists calls', max < LRU.size (run_puts calls' (LRU.init max batch))).
Proof.
  intros max batch calls Hb c.
  destruct (run_puts_invariant calls (LRU.init max batch))
    as (Hwf & Em & Eb & Hsz).
  { constructor. }
  { exact Hb. }
  { unfold LRU.size. simpl. lia. }
  fold c in Hwf, Em, Eb, Hsz. simpl in Em, Eb, Hsz.
  split; [lia|]. intros Hlt.
  split; [lia|]. split.
  - intros Hs p. apply put_at_batch_size; rewrite ?Em, ?Eb; auto; lia.
  - destruct (Z.lt_ge_cases max 0) as [Hneg|Hpos].
    + exists []. unfold LRU.size. simpl. lia.
    + exists (distinct_puts (S (Z.to_nat max))).
      destruct (run_distinct_puts max batch (S (Z.to_nat max))) as (Ek & _);
        [lia|].
      unfold LRU.size. rewrite <- (length_map fst).
      unfold keys in Ek. rewrite Ek, length_map, length_seq. lia.
Qed.

(** A cache of capacity 3 with batch size 2, after five puts. *)
Lemma C1_put_size_bound_witness :
  1 <= 2 /\
  LRU.size (run_puts (distinct_puts 5) (LRU.init 3 2)) <= 3.
Proof.
  split; [lia|].
  apply (C1_put_size_bound 3 2 (distinct_puts 5)); lia.
Defined.

(** C1 (as stated) fails for a batch size of 0: [max_size = 1 >=
    cleanup_batch_size = 0], and after two puts the cache holds two
    entries. *)
Lemma C1_counterexample :
  let c := run_puts [mkPutCall "a" "x" 0 0; mkPutCall "b" "y" 1 1]
                    (LRU.init 1 0) in
  cleanup_batch_size c <= max_size c /\ LRU.size c = 2 /\ max_size c = 1 /\
  ~ LRU.size c <= max_size c.
Proof.
  vm_compute. repeat split; try discriminate. intros H. now apply H.
Qed.

(** A cache of three entries and batch size 2, at capacity. *)
Lemma C2_cleanup_evicts_oldest_batch_witness :
  let c := mkLRUCache 3 2
             [("a", mkCacheEntry "x" 0 0 5);
              ("b", mkCacheEntry "y" 1 0 1);
              ("c", mkCacheEntry "z" 2 0 3)] in
  dict_wf (_cache c) /\ max_size c <= LRU.size c /\
  0 <= cleanup_batch_size c <= LRU.size c /\
  Z.of_nat (List.length (evicted c (LRU._cleanup c))) = cleanup_batch_size c.
Proof.
  intros c.
  assert (Hwf : dict_wf (_cache c)).
  { unfold dict_wf. simpl.
    repeat constructor; simpl; intuition discriminate. }
  assert (Hfull : max_size c <= LRU.size c) by (vm_compute; discriminate).
  assert (Hb : 0 <= cleanup_batch_size c <= LRU.size c)
    by (split; vm_compute; discriminate).
  split; [exact Hwf|]. split; [exact Hfull|]. split; [exact Hb|].
  exact (proj1 (proj2
    (C2_cleanup_evicts_oldest_batch string c "d" "w" 9 9 Hwf Hfull Hb))).
Defined.

(** C9. [get] on a key that is absent returns nothing and leaves the cache
    as it is; on a key that is present it returns the stored value, and the
    map differs only at that entry, whose [access_count] is one higher and
    whose [last_accessed] is the current time: the items before and after
    it, all keys and both parameters are the same. *)
Theorem C9_get_frame :
  forall (T : Type) (c : LRUCache T) (key : string) (now : Time),
    match dict_get key (_cache c) with
    | None => LRU.get c key now = (None, c)
    | Some e =>
        let e' := mkCacheEntry (value e) (created_at e)
                               (access_count e + 1) now in
        let c' := snd (LRU.get c key now) in
        fst (LRU.get c key now) = Some (value e) /\
        dict_get key (_cache c') = Some e' /\
        (forall k, k <> key -> dict_get k (_cache c') = dict_get k (_cache c)) /\
        keys (_cache c') = keys (_cache c) /\
        (exists before after,
            ~ In key (keys before) /\
            _cache c = before ++ (key, e) :: after /\
            _cache c' = before ++ (key, e') :: after) /\
        max_size c' = max_size c /\
        cleanup_batch_size c' = cleanup_batch_size c
    end.
Proof.
  intros T c key now. unfold LRU.get.
  destruct (dict_get key (_cache c)) as [e|] eqn:E; [|reflexivity].
  simpl. repeat split.
  - apply dict_get_set_same.
  - intros k Hk. now apply dict_get_set_other.
  - rewrite keys_dict_set. unfold dict_contains. now rewrite E.
  - revert E. generalize (_cache c) as d.
    induction d as [|[k0 e0] d IH]; simpl; [discriminate|].
    destruct (String.eqb_spec key k0) as [<-|Hne].
    + intros [= ->]. exists [], d. simpl. auto.
    + intros E. destruct (IH E) as (before & after & Hb & -> & ->).
      exists ((k0, e0) :: before), after. simpl. repeat split; auto.
      intros [H|H]; [congruence|contradiction].
Qed.

(** C8. Normalising a key twice is the same as normalising it once, and a
    [get] of a normalised key right after a [put] under it returns the value
    that was put. *)
Theorem C8_normalize_idempotent_put_get :
  forall s : string,
    Service._normalize_key (Service._normalize_key s) = Service._normalize_key s /\
    forall (T : Type) (c : LRUCache T) (v : T) (t1 t2 now : Time),
      fst (LRU.get (LRU.put c (Service._normalize_key s) v t1 t2)
                   (Service._normalize_key s) now) = Some v.
Proof.
  intros s. split.
  - unfold Service._normalize_key.
    now rewrite strip_lower, strip_idem, lower_idem.
  - intros T c v t1 t2 now. unfold LRU.get, LRU.put. simpl.
    now rewrite dict_get_set_same.
Qed.

(** ** The cache service under the processors *)

Lemma cache_of_set (p : Processor) (c : LRUCache string) (s : CacheService) :
  cache_of p (set_cache_of p c s) = c.
Proof. destruct p; reflexivity. Qed.

Lemma service_contents_set (p : Processor) (c : LRUCache string) (s : CacheService) :
  contents c = contents (cache_of p s) ->
  service_contents (set_cache_of p c s) = service_contents s.
Proof. destruct p; unfold service_contents; simpl; now intros ->. Qed.

Lemma fst_get (c : LRUCache string) (key : string) (now : Time) :
  fst (LRU.get c key now) = cached_value c key.
Proof.
  unfold LRU.get, cached_value. now destruct (dict_get key (_cache c)).
Qed.

Lemma contents_dict_set (d : dict (CacheEntry string)) key e e' :
  dict_get key d = Some e -> value e' = value e ->
  map (fun item => (fst item, value (snd item))) (dict_set key e' d)
  = map (fun item => (fst item, value (snd item))) d.
Proof.
  intros E Hv. induction d as [|[k0 e0] d IH]; simpl in *; [discriminate|].
  destruct (String.eqb_spec key k0) as [->|Hne]; simpl.
  - injection E as ->. now rewrite Hv.
  - now rewrite IH.
Qed.

(** A lookup leaves the stored keys and values as they are. *)
Lemma contents_get (c : LRUCache string) (key : string) (now : Time) :
  contents (snd (LRU.get c key now)) = contents c.
Proof.
  unfold LRU.get, contents.
  destruct (dict_get key (_cache c)) as [e|] eqn:E; [|reflexivity].
  simpl. now apply (contents_dict_set _ key e).
Qed.

Lemma lru_get_spec (p : Processor) (key : string) (w : World) :
  exists w',
    lru_get (cache_of p) (set_cache_of p) key w
    = (Normal (cached_value (cache_of p (cache_service w)) key), w') /\
    provider_calls w' = provider_calls w /\
    service_contents (cache_service w') = service_contents (cache_service w).
Proof.
  unfold lru_get, LRU.contains, dict_contains.
  pose proof (fst_get (cache_of p (cache_service w)) key
                      (readings (clock w) (reads (clock w)))) as Hf.
  pose proof (contents_get (cache_of p (cache_service w)) key
                           (readings (clock w) (reads (clock w)))) as Hc.
  destruct (dict_get key (_cache (cache_of p (cache_service w)))) as [e|] eqn:E.
  - unfold bind, time_time, modify_service, ret. simpl.
    destruct (LRU.get (cache_of p (cache_service w)) key
                      (readings (clock w) (reads (clock w)))) as [r c'].
    simpl in Hf, Hc. subst r. simpl.
    eexists. split; [reflexivity|]. simpl. split; [reflexivity|].
    now apply service_contents_set.
  - unfold cached_value. rewrite E. simpl. eauto.
Qed.

Lemma lru_put_spec (p : Processor) (key v : string) (w : World) :
  exists w',
    lru_put (cache_of p) (set_cache_of p) key v w = (Normal tt, w') /\
    provider_calls w' = provider_calls w /\
    cached_value (cache_of p (cache_service w')) key = Some v.
Proof.
  unfold lru_put, bind, time_time, modify_service. simpl.
  eexists. split; [reflexivity|]. simpl. split; [reflexivity|].
  rewrite cache_of_set. unfold cached_value, LRU.put. simpl.
  now rewrite dict_get_set_same.
Qed.

(** ** The processors *)

Section RunFacts.
Variable llm_provider : ILLMProvider.
Variable config : Config.AppConfig.

Lemma truthy_true (s : string) : PyStr.truthy s = true <-> s <> EmptyString.
Proof. destruct s; simpl; split; congruence. Qed.

(** Every invocation follows one of the paths. *)
Lemma run_path (pol : Policy) (text : string) (w : World) :
  Path llm_provider config pol text w (run llm_provider config pol text w).
Proof.
  unfold run.
  destruct (_validate_input text) eqn:Hvalid; simpl;
    [|now apply path_invalid].
  unfold is_available.
  destruct (is_loaded llm_provider) eqn:Hloaded; simpl;
    [|now apply path_unavailable].
  unfold bind at 1.
  destruct (lru_get_spec (pol_kind pol) (pol_key pol) w)
    as (w1 & -> & Hcalls & Hcontents).
  destruct (cached_value (cache_of (pol_kind pol) (cache_service w)) (pol_key pol))
    as [v|] eqn:Hcached; simpl.
  2: assert (Hmiss : PyStr.truthy_opt
                       (cached_value (cache_of (pol_kind pol) (cache_service w))
                                     (pol_key pol)) = false)
       by now rewrite Hcached.
  1: destruct (PyStr.truthy v) eqn:Htruthy;
       [now apply (path_hit _ _ _ _ _ v w1)|].
  1: assert (Hmiss : PyStr.truthy_opt
                       (cached_value (cache_of (pol_kind pol) (cache_service w))
                                     (pol_key pol)) = false)
       by now rewrite Hcached.
  all: clear Hcached.
  all: unfold try_except, run_try, bind, time_time; simpl.
  all: destruct (pol_unsupported pol) as [msg|] eqn:Hsupported; simpl;
    [now apply (path_unsupported _ _ _ _ _ msg)|].
  all: unfold stop_tokens_for.
  all: destruct (dict_get (pol_stop pol) (Config.stop_tokens config))
    as [stop|] eqn:Hstop; simpl;
    [|now apply path_no_stop_tokens].
  all: rewrite Hcalls.
  all: destruct (generate_response llm_provider (provider_calls w)
                                   (pol_request pol stop))
    as [[out|e]|e] eqn:Hgen; simpl;
    [ | apply (path_error _ _ _ _ _ stop e); auto; simpl; congruence
      | destruct (is_Exception e) eqn:Hexc; simpl;
        [ apply (path_raised _ _ _ _ _ stop e); auto; simpl; congruence
        | apply (path_propagated _ _ _ _ _ stop e); auto; simpl; congruence ] ].
  all: destruct (PyStr.truthy (PyStr.strip out)) eqn:Hout; simpl;
    [|apply (path_rejected _ _ _ _ _ stop out); auto;
      left; now apply truthy_false].
  all: destruct (pol_min_length pol && under_30_percent (PyStr.strip out) text)
    eqn:Hshort; simpl;
    [apply andb_true_iff in Hshort;
     now apply (path_rejected _ _ _ _ _ stop out); auto|].
  all: apply (path_fresh _ _ _ _ _ stop out); auto; simpl.
  all: try (now apply truthy_true).
  all: try (intros Hm; rewrite Hm in Hshort; exact Hshort).
  all: rewrite cache_of_set; unfold cached_value, LRU.put; simpl;
    now rewrite dict_get_set_same.
Qed.

End RunFacts.

Section Instances.
Variable llm_provider : ILLMProvider.
Variable config : Config.AppConfig.

Lemma summarize_try_run (text : string) (w : World) :
  summarize_try llm_provider config text w
  = run_try llm_provider config (policy_of config TextSummarizer text None) text w.
Proof.
  unfold summarize_try, run_try, bind, time_time, stop_tokens_for. simpl.
  destruct (dict_get "summarize" (Config.stop_tokens config)); simpl;
    [|reflexivity].
  unfold call_provider, summary_request. simpl.
  match goal with
  | |- context [generate_response ?p ?h ?r] =>
      destruct (generate_response p h r) as [[out|e]|e]
  end; simpl; try reflexivity.
  destruct (PyStr.truthy (PyStr.strip out)); reflexivity.
Qed.

Lemma change_tone_try_run (text tone : string) (w : World) :
  change_tone_try llm_provider config text tone w
  = run_try llm_provider config (policy_of config ToneChanger text (Some tone))
            text w.
Proof.
  unfold change_tone_try, run_try, bind, time_time. simpl.
  destruct (negb (String.eqb (PyStr.lower tone) "formal")); reflexivity.
Qed.

(** Each processor is [run] at its policy. *)
Lemma process_text_run (p : Processor) (text : string)
      (target_tone : option string) (w : World) :
  process_text llm_provider config p text target_tone w
  = run llm_provider config (policy_of config p text target_tone) text w.
Proof.
  destruct p; unfold process_text.
  - reflexivity.
  - unfold summarize, run. simpl.
    destruct (_validate_input text); simpl; [|reflexivity].
    destruct (is_available llm_provider); simpl; [|reflexivity].
    unfold get_summary, bind.
    change (cache_of TextSummarizer) with summary_cache.
    destruct (lru_get summary_cache Service.set_summary
                      (Service._normalize_key text) w) as [[r|e] w1];
      [|reflexivity].
    destruct (PyStr.truthy_opt r); [reflexivity|].
    unfold try_except. now rewrite summarize_try_run.
  - change (policy_of config ToneChanger text target_tone)
      with (policy_of config ToneChanger text (Some (tone_of target_tone))).
    fold (tone_of target_tone). generalize (tone_of target_tone) as tone.
    intros tone. unfold change_tone, run. simpl.
    destruct (_validate_input text); simpl; [|reflexivity].
    destruct (is_available llm_provider); simpl; [|reflexivity].
    unfold get_tone_change, bind.
    change (cache_of ToneChanger) with tone_cache.
    destruct (lru_get tone_cache Service.set_tone
                      (Service.tone_key text tone) w)
      as [[r|e] w1]; [|reflexivity].
    destruct (PyStr.truthy_opt r); [reflexivity|].
    unfold try_except. now rewrite change_tone_try_run.
Qed.

(** Every invocation of a processor follows one of the paths of its policy. *)
Lemma process_text_path (p : Processor) (text : string)
      (target_tone : option string) (w : World) :
  Path llm_provider config (policy_of config p text target_tone) text w
       (process_text llm_provider config p text target_tone w).
Proof. rewrite process_text_run. apply run_path. Qed.

End Instances.

Section PolicyFacts.
Variable config : Config.AppConfig.
Implicit Types (p : Processor) (text : string) (tone : option string).

Lemma pol_kind_policy p text tone : pol_kind (policy_of config p text tone) = p.
Proof. now destruct p. Qed.

Lemma pol_key_policy p text tone :
  pol_key (policy_of config p text tone) = key_of p text tone.
Proof. now destruct p. Qed.

Lemma hit_meta_from_cache p text tone :
  dict_get "from_cache" (pol_hit_meta (policy_of config p text tone))
  = Some (MBool true).
Proof. now destruct p. Qed.

Lemma miss_meta_from_cache p text tone :
  dict_get "from_cache" (pol_miss_meta (policy_of config p text tone))
  = Some (MBool false).
Proof. now destruct p. Qed.

Lemma pol_unsupported_Some p text tone msg :
  pol_unsupported (policy_of config p text tone) = Some msg ->
  p = ToneChanger /\ PyStr.lower (tone_of tone) <> "formal" /\
  msg = ("Unsupported tone: " ++ tone_of tone)%string.
Proof.
  destruct p; simpl; try discriminate.
  destruct (String.eqb_spec (PyStr.lower (tone_of tone)) "formal"); simpl;
    [discriminate|]. intros [= <-]. auto.
Qed.

Lemma pol_unsupported_None p text tone :
  pol_unsupported (policy_of config p text tone) = None ->
  p = ToneChanger -> PyStr.lower (tone_of tone) = "formal".
Proof.
  intros H ->. simpl in H.
  destruct (String.eqb_spec (PyStr.lower (tone_of tone)) "formal"); simpl in H;
    [assumption|discriminate].
Qed.

Lemma pol_messages_nonempty p text tone :
  pol_unavailable (policy_of config p text tone) <> EmptyString /\
  pol_invalid (policy_of config p text tone) <> EmptyString.
Proof. destruct p; simpl; split; discriminate. Qed.

Lemma pol_min_length_policy p text tone :
  pol_min_length (policy_of config p text tone)
  = match p with TextSummarizer => false | _ => true end.
Proof. now destruct p. Qed.

End PolicyFacts.

(** Splits an invocation into its paths: [HP] names the path. *)
Ltac on_paths llm config p text tone w r w' E :=
  let HP := fresh "HP" in
  pose proof (process_text_path llm config p text tone w) as HP;
  destruct (process_text llm config p text tone w) as [r w'] eqn:E;
  inversion HP; subst; clear HP;
  rewrite ?pol_kind_policy, ?pol_key_policy in *.

(** C3 (as amended). For every processor, if the input is valid (not empty
    and not only whitespace), the provider is loaded and the cache holds a
    non-empty value under the key of the input, the invocation returns a
    success result with that value, the original text, a processing time
    of 0 and [from_cache] true, and the provider is not called. *)
Theorem C3_cache_hit_short_circuit :
  forall (llm : ILLMProvider) (config : Config.AppConfig) (p : Processor)
         (text : string) (tone : option string) (w : World) (v : string),
    _validate_input text = true ->
    is_loaded llm = true ->
    cached_value (cache_of p (cache_service w)) (key_of p text tone) = Some v ->
    v <> EmptyString ->
    exists r w',
      process_text llm config p text tone w = (Normal r, w') /\
      success r = true /\
      processed_text r = v /\
      original_text r = text /\
      processing_time r = 0 /\
      from_cache r = true /\
      error_message r = None /\
      provider_calls w' = provider_calls w.
Proof.
  intros llm config p text tone w v Hvalid Hloaded Hcached Hv.
  on_paths llm config p text tone w r w' E; try congruence.
  2-8: exfalso;
    match goal with
    | H : PyStr.truthy_opt _ = false |- _ =>
        rewrite Hcached in H; simpl in H; apply truthy_false in H; auto
    end.
  eexists _, _. split; [reflexivity|].
  assert (v0 = v) by congruence. subst v0.
  unfold from_cache. simpl. rewrite hit_meta_from_cache. auto 10.
Qed.

(** A cached grammar correction is served without a provider call. *)
Lemma C3_cache_hit_short_circuit_witness :
  let llm := mock_provider (Normal (RespText "unused")) in
  let w := world_with_grammar "hello" "Hello." in
  _validate_input "Hello " = true /\
  is_loaded llm = true /\
  cached_value (grammar_cache (cache_service w))
               (Service._normalize_key "Hello ") = Some "Hello." /\
  exists r w',
    process_text llm Config.CONFIG GrammarCorrector "Hello " None w
    = (Normal r, w') /\
    success r = true /\ processed_text r = "Hello." /\
    original_text r = "Hello " /\ processing_time r = 0 /\
    from_cache r = true /\ error_message r = None /\
    provider_calls w' = provider_calls w.
Proof.
  intros llm w.
  split; [reflexivity|]. split; [reflexivity|]. split; [reflexivity|].
  apply (C3_cache_hit_short_circuit llm Config.CONFIG GrammarCorrector
           "Hello " None w "Hello.");
    [reflexivity|reflexivity|reflexivity|discriminate].
Defined.

(** C3 (as stated) fails when the cached value is the empty string: the
    provider is loaded and the cache holds an entry under the key of the
    input, yet the provider is called and the result does not come from the
    cache. *)
Lemma C3_counterexample :
  let llm := mock_provider (Normal (RespText "Hello.")) in
  let w := world_with_grammar "hello" "" in
  let out := process_text llm Config.CONFIG GrammarCorrector "hello" None w in
  is_loaded llm = true /\
  LRU.contains (grammar_cache (cache_service w))
               (Service._normalize_key "hello") = true /\
  fst out = Normal (fresh_result "Hello." "hello" 10 [("from_cache", MBool false)]) /\
  provider_calls w = [] /\
  List.length (provider_calls (snd out)) = 1%nat.
Proof. vm_compute. repeat split. Qed.

(** C4 (as amended). For every text and every target tone whose lower-case
    form is not "formal", [change_tone] does not call the provider. Invalid
    input and an unloaded provider fail with their own messages and a
    non-empty cached value is returned as a success; in every other case
    the result is the failure "Unsupported tone: <target_tone>". *)
Theorem C4_unsupported_tone :
  forall (llm : ILLMProvider) (config : Config.AppConfig)
         (text target_tone : string) (w : World),
    PyStr.lower target_tone <> "formal" ->
    exists r w',
      change_tone llm config text target_tone w = (Normal r, w') /\
      provider_calls w' = provider_calls w /\
      (success r = true -> from_cache r = true) /\
      (_validate_input text = true ->
       is_loaded llm = true ->
       PyStr.truthy_opt
         (cached_value (tone_cache (cache_service w))
                       (Service.tone_key text target_tone)) = false ->
       r = _create_error_result text ("Unsupported tone: " ++ target_tone)%string).
Proof.
  intros llm config text tone w Htone.
  change (change_tone llm config text tone w)
    with (process_text llm config ToneChanger text (Some tone) w).
  on_paths llm config ToneChanger text (Some tone) w r w' E;
    try match goal with
        | H : pol_unsupported _ = None |- _ =>
            exfalso; apply Htone;
            exact (pol_unsupported_None _ _ _ _ H eq_refl)
        end;
    eexists _, _; (split; [reflexivity|]); simpl;
    (split; [assumption || reflexivity|]);
    (split; [try discriminate|]); try congruence.
  - intros _. reflexivity.
  - intros _ _ Hmiss.
    match goal with
    | H : cached_value _ _ = Some _, Ht : PyStr.truthy _ = true |- _ =>
        simpl in H; rewrite H in Hmiss; simpl in Hmiss; congruence
    end.
  - intros _ _ _.
    match goal with
    | H : pol_unsupported _ = Some _ |- _ =>
        apply pol_unsupported_Some in H as (_ & _ & ->)
    end. reflexivity.
Qed.

(** An unsupported tone on an empty cache. *)
Lemma C4_unsupported_tone_witness :
  PyStr.lower "casual" <> "formal" /\
  exists r w',
    change_tone (mock_provider (Normal (RespText "unused"))) Config.CONFIG
                "hello" "casual" empty_world = (Normal r, w') /\
    provider_calls w' = provider_calls empty_world /\
    r = _create_error_result "hello" "Unsupported tone: casual".
Proof.
  assert (Htone : PyStr.lower "casual" <> "formal") by (vm_compute; discriminate).
  split; [exact Htone|].
  destruct (C4_unsupported_tone (mock_provider (Normal (RespText "unused")))
              Config.CONFIG "hello" "casual" empty_world Htone)
    as (r & w' & E & Hcalls & _ & Hr).
  exists r, w'. split; [exact E|]. split; [exact Hcalls|].
  apply Hr; reflexivity.
Defined.

(** C4 (as stated) fails for the target tone "FORMAL": it is a string other
    than "formal", the text is not empty, and the provider is called and the
    result is a success. *)
Lemma C4_counterexample :
  let llm := mock_provider (Normal (RespText "Good day.")) in
  let out := change_tone llm Config.CONFIG "hello" "FORMAL" empty_world in
  "FORMAL" <> "formal" /\
  "hello" <> EmptyString /\
  fst out = Normal (fresh_result "Good day." "hello" 10
                      [("from_cache", MBool false); ("target_tone", MStr "FORMAL")]) /\
  List.length (provider_calls (snd out)) = 1%nat.
Proof. vm_compute. repeat split; discriminate. Qed.

Lemma strip_empty : PyStr.strip EmptyString = EmptyString.
Proof. reflexivity. Qed.

(** C5 (as amended). When the provider is reached and returns [out]: for
    grammar correction and tone change, an empty [out] or one whose length
    is under 30% of the input's length gives a failed result whose
    [processed_text] is the original input; for summarization the output is
    rejected exactly when it is empty after trimming whitespace, and every
    other output, of whatever length, gives a success result carrying the
    trimmed output. *)
Theorem C5_response_validation :
  forall (llm : ILLMProvider) (config : Config.AppConfig) (p : Processor)
         (text : string) (tone : option string) (w : World) (out : string),
    _validate_input text = true ->
    is_loaded llm = true ->
    PyStr.truthy_opt
      (cached_value (cache_of p (cache_service w)) (key_of p text tone)) = false ->
    answers llm out ->
    exists r w',
      process_text llm config p text tone w = (Normal r, w') /\
      original_text r = text /\
      (p <> TextSummarizer ->
       out = EmptyString \/ 10 * PyStr.len out < 3 * PyStr.len text ->
       success r = false /\ processed_text r = text) /\
      (p = TextSummarizer ->
       dict_contains "summarize" (Config.stop_tokens config) = true ->
       (PyStr.strip out = EmptyString ->
        success r = false /\ processed_text r = text) /\
       (PyStr.strip out <> EmptyString ->
        success r = true /\ processed_text r = PyStr.strip out)).
Proof.
  intros llm config p text tone w out Hvalid Hloaded Hmiss Hans.
  on_paths llm config p text tone w r w' E; try congruence;
    try match goal with
        | H : cached_value _ _ = Some ?v, Ht : PyStr.truthy ?v = true |- _ =>
            rewrite H in Hmiss; simpl in Hmiss; congruence
        end;
    try match goal with
        | H : generate_response llm _ _ = _ |- _ =>
            rewrite Hans in H; inversion H; subst; clear H
        end;
    eexists _, _; (split; [reflexivity|]); (split; [reflexivity|]);
    cbn [success processed_text _create_error_result fresh_result].
  - (* unsupported tone *)
    split; [auto|]. intros ->.
    match goal with
    | H : pol_unsupported _ = Some _ |- _ =>
        apply pol_unsupported_Some in H as (? & _); discriminate
    end.
  - (* stop tokens missing *)
    split; [auto|]. intros -> Hstop. simpl in *.
    unfold dict_contains in Hstop.
    match goal with
    | H : dict_get "summarize" _ = None |- _ => now rewrite H in Hstop
    end.
  - (* rejected *)
    split; [auto|]. intros -> _. split; [auto|]. intros Hne.
    match goal with
    | H : _ \/ _ |- _ => destruct H as [H|[H _]]; [contradiction|]
    end.
    discriminate.
  - (* accepted *)
    split.
    + intros Hp Hbad. exfalso.
      match goal with
      | H : pol_min_length _ = true -> under_30_percent ?s text = false |- _ =>
          rewrite pol_min_length_policy in H;
          assert (Hlong : under_30_percent s text = false)
            by (apply H; now destruct p)
      end.
      destruct Hbad as [->|Hshort]; [now rewrite strip_empty in *|].
      apply Z.ltb_ge in Hlong.
      match type of Hshort with
      | 10 * PyStr.len ?o < _ => pose proof (len_strip o)
      end. lia.
    + intros -> _. split; [contradiction|auto].
Qed.

(** A two-letter answer to a 23-letter text is rejected by the grammar
    corrector. *)
Lemma C5_response_validation_witness :
  let llm := mock_provider (Normal (RespText "ok")) in
  let text := "this is a test sentance" in
  _validate_input text = true /\
  is_loaded llm = true /\
  answers llm "ok" /\
  exists r w',
    process_text llm Config.CONFIG GrammarCorrector text None empty_world
    = (Normal r, w') /\
    success r = false /\ processed_text r = text.
Proof.
  intros llm text.
  assert (Hans : answers llm "ok") by (intros h req; reflexivity).
  split; [reflexivity|]. split; [reflexivity|]. split; [exact Hans|].
  destruct (C5_response_validation llm Config.CONFIG GrammarCorrector text None
              empty_world "ok" eq_refl eq_refl eq_refl Hans)
    as (r & w' & E & _ & Hreject & _).
  exists r, w'. split; [exact E|].
  apply Hreject; [discriminate|]. right. reflexivity.
Defined.

(** C5 (as stated) fails for summarization on an output of one blank: the
    output is not empty, yet the summary is rejected. *)
Lemma C5_counterexample :
  let llm := mock_provider (Normal (RespText " ")) in
  let out := summarize llm Config.CONFIG "hello" empty_world in
  " " <> EmptyString /\
  fst out = Normal (_create_error_result "hello" "Empty summary response") /\
  List.length (provider_calls (snd out)) = 1%nat.
Proof. vm_compute. repeat split; discriminate. Qed.



(** C7. With the default generation settings the [max_tokens] arguments
    are [max(100, 4 * len(text))] for grammar correction,
    [min(200, max(100, len(text)))] for summarization and
    [max(150, 2 * len(text))] for tone change, and every request an
    invocation sends to the provider carries that value. *)
Theorem C7_max_tokens_defaults :
  forall (llm : ILLMProvider) (cache_config : Config.CacheConfig)
         (stop_tokens : dict (list string)) (p : Processor)
         (text : string) (tone : option string) (w : World),
    let config :=
      Config.mkAppConfig Config.default_generation cache_config stop_tokens in
    grammar_max_tokens config text = Z.max 100 (4 * PyStr.len text) /\
    summary_request_tokens config text = Z.min 200 (Z.max 100 (PyStr.len text)) /\
    tone_max_tokens config text = Z.max 150 (2 * PyStr.len text) /\
    forall req,
      In req (provider_calls (snd (process_text llm config p text tone w))) ->
      In req (provider_calls w) \/ max_tokens req = max_tokens_formula p text.
Proof.
  intros llm cache_config stop_tokens p text tone w config.
  assert (Hf : forall stop,
             max_tokens (pol_request (policy_of config p text tone) stop)
             = max_tokens_formula p text).
  { intros stop. destruct p;
      unfold policy_of, pol_request, grammar_request, summary_request,
        tone_request, max_tokens, max_tokens_formula,
        grammar_max_tokens, summary_request_tokens, tone_max_tokens;
      cbn -[Z.mul Z.max Z.min PyStr.len]; lia. }
  split; [unfold grammar_max_tokens; cbn -[Z.mul Z.max Z.min PyStr.len]; lia|].
  split; [reflexivity|].
  split; [unfold tone_max_tokens; cbn -[Z.mul Z.max Z.min PyStr.len]; lia|].
  intros req.
  on_paths llm config p text tone w r w' E; cbn [snd]; intros Hin;
    try (left; congruence);
    match goal with
    | H : provider_calls _ = provider_calls w ++ [_] |- _ =>
        rewrite H in Hin; apply in_app_or in Hin as [Hin|[<-|[]]];
        [now left|right; apply Hf]
    end.
Qed.

Lemma pol_stop_policy (config : Config.AppConfig) (p : Processor)
      (text : string) (tone : option string) :
  pol_stop (policy_of config p text tone) = stop_name_of p.
Proof. now destruct p. Qed.

(** C10 (as amended). For every processor, a cached empty string is not
    served as a hit: no result of the invocation has [from_cache] true.
    When moreover the input is valid, the provider is loaded, the tone is
    supported and the configuration holds the stop tokens of the
    operation, the invocation goes on to call the provider. *)
Theorem C10_empty_cached_value_is_miss :
  forall (llm : ILLMProvider) (config : Config.AppConfig) (p : Processor)
         (text : string) (tone : option string) (w : World),
    cached_value (cache_of p (cache_service w)) (key_of p text tone)
    = Some EmptyString ->
    let out := process_text llm config p text tone w in
    (forall r, fst out = Normal r -> from_cache r = false) /\
    (_validate_input text = true ->
     is_loaded llm = true ->
     (p = ToneChanger -> PyStr.lower (tone_of tone) = "formal") ->
     dict_contains (stop_name_of p) (Config.stop_tokens config) = true ->
     exists req, provider_calls (snd out) = provider_calls w ++ [req]).
Proof.
  intros llm config p text tone w Hcached. cbv zeta.
  on_paths llm config p text tone w r w' E; cbn [fst snd];
    try match goal with
        | H : cached_value _ _ = Some ?v, Ht : PyStr.truthy ?v = true |- _ =>
            rewrite Hcached in H; injection H as <-; discriminate Ht
        end;
    (split; [intros r0 [= <-]; try reflexivity | try discriminate]);
    try (intros; congruence); eauto.
  - intros _ _ Htone _.
    match goal with
    | H : pol_unsupported _ = Some _ |- _ =>
        apply pol_unsupported_Some in H as (-> & Hn & _)
    end. now specialize (Htone eq_refl).
  - intros _ _ _ Hstop.
    match goal with
    | H : dict_get _ (Config.stop_tokens config) = None |- _ =>
        rewrite pol_stop_policy in H; unfold dict_contains in Hstop;
        rewrite H in Hstop; discriminate Hstop
    end.
  - unfold from_cache. simpl. now rewrite miss_meta_from_cache.
Qed.

(** The grammar cache holds the empty string under the key of the input. *)
Lemma C10_empty_cached_value_is_miss_witness :
  let llm := mock_provider (Normal (RespText "Hello.")) in
  let w := world_with_grammar "hello" EmptyString in
  let out := process_text llm Config.CONFIG GrammarCorrector "hello" None w in
  cached_value (grammar_cache (cache_service w)) (Service._normalize_key "hello")
  = Some EmptyString /\
  (forall r, fst out = Normal r -> from_cache r = false) /\
  exists req, provider_calls (snd out) = provider_calls w ++ [req].
Proof.
  intros llm w out. split; [reflexivity|].
  destruct (C10_empty_cached_value_is_miss llm Config.CONFIG GrammarCorrector
              "hello" None w eq_refl) as (Hfc & Hcall).
  split; [exact Hfc|].
  apply Hcall; [reflexivity|reflexivity|discriminate|reflexivity].
Defined.

(** C10 (as stated) fails for the tone changer on a tone it does not
    support: the tone cache holds the empty string under the key of the
    input and the provider is loaded, yet the invocation ends with
    "Unsupported tone" and the provider is not called. It fails in the same
    way for every processor whose provider is not loaded. *)
Lemma C10_counterexample :
  let llm := mock_provider (Normal (RespText "Good day.")) in
  let w := world_with_tone "hello_casual" EmptyString in
  let out := process_text llm Config.CONFIG ToneChanger "hello" (Some "casual") w in
  let unloaded := mkProvider false (fun _ _ => Normal (RespText "Hello.")) in
  let w0 := world_with_grammar "hello" EmptyString in
  let out0 := process_text unloaded Config.CONFIG GrammarCorrector "hello" None w0 in
  is_loaded llm = true /\
  cached_value (tone_cache (cache_service w)) (Service.tone_key "hello" "casual")
  = Some EmptyString /\
  fst out = Normal (_create_error_result "hello" "Unsupported tone: casual") /\
  provider_calls (snd out) = [] /\
  cached_value (grammar_cache (cache_service w0)) (Service._normalize_key "hello")
  = Some EmptyString /\
  fst out0 = Normal (_create_error_result "hello" "Grammar corrector not available") /\
  provider_calls (snd out0) = [].
Proof. vm_compute. repeat split. Qed.

(** * Further properties of the code *)

(** ** [LRUCache]: what [put] and [_cleanup] do to the other entries *)

Section CacheExtras.
Context {T : Type}.
Implicit Types (c : LRUCache T) (d : dict (CacheEntry T)).

Lemma dict_get_remove_keys (ks : list string) d k :
  dict_get k (remove_keys ks d) = if key_in k ks then None else dict_get k d.
Proof.
  unfold remove_keys. induction d as [|[k' e'] d IH]; simpl.
  - now destruct (key_in k ks).
  - destruct (key_in k' ks) eqn:Ek'; simpl.
    + destruct (String.eqb_spec k k') as [->|Hne]; [|exact IH].
      rewrite IH, Ek'. reflexivity.
    + destruct (String.eqb_spec k k') as [->|Hne]; [|exact IH].
      now rewrite Ek'.
Qed.

Lemma sorted_fixed (key : string * CacheEntry T -> Z) (l : list (string * CacheEntry T)) :
  StronglySorted (key_le key) l -> sorted key l = l.
Proof.
  induction 1 as [|x l Hl IH Hx]; simpl; [reflexivity|].
  rewrite IH. destruct l as [|y l']; simpl; [reflexivity|].
  inversion Hx as [|? ? Hxy _]; subst. unfold key_le in Hxy.
  apply Z.leb_le in Hxy. now rewrite Hxy.
Qed.

Lemma remove_keys_firstn d (n : nat) :
  dict_wf d -> remove_keys (keys (firstn n d)) d = skipn n d.
Proof.
  intros Hwf. unfold dict_wf, keys in Hwf.
  rewrite <- (firstn_skipn n d) in Hwf. rewrite map_app in Hwf.
  rewrite <- (firstn_skipn n d) at 2.
  unfold remove_keys. rewrite filter_app, filter_none, filter_all; [reflexivity| |].
  - intros x Hx. apply negb_true_iff.
    destruct (key_in (fst x) (keys (firstn n d))) eqn:E; [|reflexivity].
    apply key_in_In in E. exfalso.
    eapply NoDup_app_disjoint; [exact Hwf|exact E|now apply in_map].
  - intros x Hx. apply negb_false_iff, key_in_In. now apply in_map.
Qed.

(** Among the sorted items, none of the first [m] was accessed later than
    one of the others. *)
Lemma firstn_sorted_not_younger d (m : nat) k e k' e' :
  dict_wf d -> In (k, e) d -> In (k', e') d ->
  In k (keys (firstn m (sorted LRU.item_key d))) ->
  ~ In k' (keys (firstn m (sorted LRU.item_key d))) ->
  last_accessed e <= last_accessed e'.
Proof.
  intros Hwf Hin Hin' Hk Hk'.
  set (srt := sorted LRU.item_key d) in *.
  assert (Hperm : Permutation d (firstn m srt ++ skipn m srt)).
  { rewrite firstn_skipn. symmetry. apply sorted_Permutation. }
  apply (StronglySorted_firstn_skipn LRU.item_key srt m (k, e) (k', e')).
  - apply sorted_StronglySorted.
  - apply in_map_iff in Hk as ([k0 e0] & E & H0). simpl in E. subst k0.
    assert (Hin0 : In (k, e0) d).
    { eapply Permutation_in; [symmetry; exact Hperm|].
      apply in_or_app. now left. }
    now rewrite (dict_value_unique _ k e e0 Hwf Hin Hin0).
  - apply (Permutation_in _ Hperm) in Hin'.
    apply in_app_or in Hin' as [Hin'|Hin']; [|exact Hin'].
    exfalso. apply Hk'. now apply (in_map fst) in Hin'.
Qed.

End CacheExtras.

(** X1. A [put] on a cache below capacity touches only its own key: the
    key holds a new entry with [access_count] 0, every other key keeps its
    entry, an existing key keeps its position and a new key goes last, and
    the size grows by one exactly when the key is new. *)
Theorem X1_put_below_capacity :
  forall (T : Type) (c : LRUCache T) (key : string) (v : T) (t1 t2 : Time),
    LRU.size c < max_size c ->
    let c' := LRU.put c key v t1 t2 in
    dict_get key (_cache c') = Some (mkCacheEntry v t1 0 t2) /\
    (forall k, k <> key -> dict_get k (_cache c') = dict_get k (_cache c)) /\
    keys (_cache c')
    = (if LRU.contains c key then keys (_cache c) else keys (_cache c) ++ [key]) /\
    LRU.size c' = LRU.size c + (if LRU.contains c key then 0 else 1).
Proof.
  intros T c key v t1 t2 Hlt c'. subst c'. unfold LRU.put, LRU.size in *.
  apply Z.leb_gt in Hlt. rewrite Hlt. simpl.
  split; [apply dict_get_set_same|].
  split; [intros k Hk; now apply dict_get_set_other|].
  split; [apply keys_dict_set|].
  rewrite length_dict_set. unfold LRU.contains.
  destruct (dict_contains key (_cache c)); lia.
Qed.

Lemma X1_put_below_capacity_witness :
  let c := LRU.put (LRU.init 3 2) "a" "x" 0 0 in
  LRU.size c < max_size c /\
  LRU.size (LRU.put c "a" "y" 1 1) = LRU.size c + 0 /\
  LRU.size (LRU.put c "b" "y" 1 1) = LRU.size c + 1.
Proof.
  intros c.
  assert (H : LRU.size c < max_size c) by reflexivity.
  split; [exact H|]. split.
  - exact (proj2 (proj2 (proj2 (X1_put_below_capacity string c "a" "y" 1 1 H)))).
  - exact (proj2 (proj2 (proj2 (X1_put_below_capacity string c "b" "y" 1 1 H)))).
Defined.

Lemma size_cleanup_negative {T} (c : LRUCache T) :
  dict_wf (_cache c) -> cleanup_batch_size c < 0 ->
  LRU.size (LRU._cleanup c) = Z.min (LRU.size c) (- cleanup_batch_size c).
Proof.
  intros Hwf Hneg. unfold LRU.size.
  rewrite cleanup_map by (auto; unfold LRU.size; lia).
  unfold LRU.cleanup_batch, slice_to.
  assert (E : (0 <=? cleanup_batch_size c) = false) by now apply Z.leb_gt.
  rewrite E.
  rewrite (Permutation_length (remove_firstn_sorted _ _ Hwf)).
  rewrite length_skipn, !length_sorted. lia.
Qed.

(** X2. A [put] on a cache at capacity runs the cleanup before it looks at
    the key: the size afterwards is the old size minus the number of
    entries the cleanup removes, plus one unless the key survived the
    cleanup. The cleanup removes [cleanup_batch_size] entries when the map
    holds at least that many; when it holds fewer the cleanup is skipped
    and removes nothing, so that a full cache smaller than the batch grows
    beyond [max_size]; a negative [cleanup_batch_size] removes all but the
    last [-cleanup_batch_size] entries. Overwriting an existing key of a
    full cache therefore runs the cleanup as well. *)
Theorem X2_put_at_capacity_size :
  forall (T : Type) (c : LRUCache T) (key : string) (v : T) (t1 t2 : Time),
    dict_wf (_cache c) ->
    max_size c <= LRU.size c ->
    let batch := cleanup_batch_size c in
    let removed :=
      if LRU.size c <? batch then 0
      else if 0 <=? batch then batch
      else Z.max 0 (LRU.size c + batch) in
    LRU.size (LRU.put c key v t1 t2)
    = LRU.size c - removed
      + (if LRU.contains (LRU._cleanup c) key then 0 else 1) /\
    (LRU.size c < batch -> LRU._cleanup c = c).
Proof.
  intros T c key v t1 t2 Hwf Hfull batch removed.
  assert (Hskip : LRU.size c < batch -> LRU._cleanup c = c).
  { intros Hlt. unfold LRU._cleanup. fold (LRU.size c).
    apply Z.ltb_lt in Hlt. fold batch. now rewrite Hlt. }
  split; [|exact Hskip].
  assert (Hsize : LRU.size (LRU._cleanup c) = LRU.size c - removed).
  { subst removed. destruct (LRU.size c <? batch) eqn:E1.
    - apply Z.ltb_lt in E1. rewrite (Hskip E1). lia.
    - apply Z.ltb_ge in E1. destruct (0 <=? batch) eqn:E2.
      + apply Z.leb_le in E2. now apply size_cleanup.
      + apply Z.leb_gt in E2. rewrite size_cleanup_negative by assumption.
        fold batch. lia. }
  rewrite <- Hsize.
  unfold LRU.put, LRU.size in *. apply Z.leb_le in Hfull. rewrite Hfull.
  simpl. rewrite length_dict_set. unfold LRU.contains.
  destruct (dict_contains key (_cache (LRU._cleanup c))); lia.
Qed.

(** A full cache of three entries with a batch of two, and a full cache
    of two entries with a batch of twenty, whose cleanup is skipped. *)
Lemma X2_put_at_capacity_size_witness :
  let c := mkLRUCache 3 2
             [("a", mkCacheEntry "x" 0 0 5);
              ("b", mkCacheEntry "y" 1 0 1);
              ("c", mkCacheEntry "z" 2 0 3)] in
  let small := mkLRUCache 2 20
                 [("a", mkCacheEntry "x" 0 0 5);
                  ("b", mkCacheEntry "y" 1 0 1)] in
  dict_wf (_cache c) /\ max_size c <= LRU.size c /\
  dict_wf (_cache small) /\ max_size small <= LRU.size small /\
  LRU.size (LRU.put c "a" "w" 9 9) = 3 - 2 + 0 /\
  LRU.size (LRU.put small "c" "w" 9 9) = 2 - 0 + 1.
Proof.
  intros c small.
  assert (Hwf : dict_wf (_cache c)).
  { unfold dict_wf. simpl. repeat constructor; simpl; intuition discriminate. }
  assert (Hfull : max_size c <= LRU.size c) by (vm_compute; discriminate).
  assert (Hwf' : dict_wf (_cache small)).
  { unfold dict_wf. simpl. repeat constructor; simpl; intuition discriminate. }
  assert (Hfull' : max_size small <= LRU.size small)
    by (vm_compute; discriminate).
  split; [exact Hwf|]. split; [exact Hfull|].
  split; [exact Hwf'|]. split; [exact Hfull'|]. split.
  - exact (proj1 (X2_put_at_capacity_size string c "a" "w" 9 9 Hwf Hfull)).
  - exact (proj1 (X2_put_at_capacity_size string small "c" "w" 9 9 Hwf' Hfull')).
Defined.

Section Survival.
Context {T : Type}.
Implicit Types (c : LRUCache T).

(** An entry accessed later than all the others outlives a cleanup that
    leaves anything at all. *)
Lemma newest_survives_cleanup c key e :
  dict_wf (_cache c) ->
  0 <= cleanup_batch_size c < LRU.size c ->
  dict_get key (_cache c) = Some e ->
  (forall k' e', In (k', e') (_cache c) -> k' <> key ->
                 last_accessed e' < last_accessed e) ->
  dict_get key (_cache (LRU._cleanup c)) = Some e.
Proof.
  intros Hwf [H0 H1] Hget Hnew.
  set (m := Z.to_nat (cleanup_batch_size c)).
  set (ks := keys (firstn m (sorted LRU.item_key (_cache c)))).
  assert (Hmap : _cache (LRU._cleanup c) = remove_keys ks (_cache c)).
  { rewrite cleanup_map by (auto; lia).
    unfold LRU.cleanup_batch. now rewrite slice_to_nonneg by assumption. }
  rewrite Hmap, dict_get_remove_keys.
  destruct (key_in key ks) eqn:Ein; [exfalso|exact Hget].
  apply key_in_In in Ein.
  (* some key is kept, because fewer keys go than there are *)
  assert (Hkept : exists k' e', In (k', e') (_cache c) /\ ~ In k' ks).
  { pose proof (remove_firstn_sorted (_cache c) m Hwf) as Hperm.
    fold ks in Hperm.
    assert (Hlen : (0 < List.length (remove_keys ks (_cache c)))%nat).
    { rewrite (Permutation_length Hperm), length_skipn, length_sorted.
      unfold LRU.size in H1. lia. }
    destruct (remove_keys ks (_cache c)) as [|[k' e'] rest] eqn:Er;
      [simpl in Hlen; lia|].
    assert (Hin : In (k', e') (remove_keys ks (_cache c)))
      by (rewrite Er; now left).
    apply filter_In in Hin as [Hin Hk]. simpl in Hk.
    exists k', e'. split; [exact Hin|].
    intros Hc. apply key_in_In in Hc. now rewrite Hc in Hk. }
  destruct Hkept as (k' & e' & Hin' & Hk').
  assert (Hne : k' <> key) by (intros ->; contradiction).
  pose proof (Hnew k' e' Hin' Hne) as Hlt.
  pose proof (firstn_sorted_not_younger (_cache c) m key e k' e' Hwf
                (dict_get_Some_In _ _ _ Hget) Hin' Ein Hk') as Hle.
  lia.
Qed.

End Survival.

(** X3. Least recently used, as seen from a reader: an entry read by
    [get] at a time later than every [last_accessed] in the cache is still
    there, with its value, after the next cleanup, whenever the batch is
    smaller than the map. *)
Theorem X3_get_protects_from_cleanup :
  forall (T : Type) (c : LRUCache T) (key : string) (e : CacheEntry T)
         (now : Time),
    dict_wf (_cache c) ->
    0 <= cleanup_batch_size c < LRU.size c ->
    dict_get key (_cache c) = Some e ->
    (forall k' e', In (k', e') (_cache c) -> last_accessed e' < now) ->
    dict_get key (_cache (LRU._cleanup (snd (LRU.get c key now))))
    = Some (mkCacheEntry (value e) (created_at e) (access_count e + 1) now).
Proof.
  intros T c key e now Hwf Hb Hget Hold.
  set (e1 := mkCacheEntry (value e) (created_at e) (access_count e + 1) now).
  assert (Hc1 : snd (LRU.get c key now)
                = LRU.with_map c (dict_set key e1 (_cache c))).
  { unfold LRU.get. now rewrite Hget. }
  rewrite Hc1. apply newest_survives_cleanup.
  - simpl. now apply dict_wf_set.
  - unfold LRU.size. simpl. rewrite length_dict_set.
    unfold dict_contains. rewrite Hget. exact Hb.
  - simpl. apply dict_get_set_same.
  - simpl. intros k' e' Hin Hne.
    assert (Hwf1 : dict_wf (dict_set key e1 (_cache c))) by now apply dict_wf_set.
    apply (dict_get_In _ _ _ Hwf1) in Hin.
    rewrite dict_get_set_other in Hin by exact Hne.
    apply dict_get_Some_In in Hin. exact (Hold k' e' Hin).
Qed.

Lemma X3_get_protects_from_cleanup_witness :
  let c := mkLRUCache 3 2
             [("a", mkCacheEntry "x" 0 0 1);
              ("b", mkCacheEntry "y" 1 0 2);
              ("c", mkCacheEntry "z" 2 0 3)] in
  dict_wf (_cache c) /\
  0 <= cleanup_batch_size c < LRU.size c /\
  dict_get "a" (_cache (LRU._cleanup (snd (LRU.get c "a" 7))))
  = Some (mkCacheEntry "x" 0 1 7).
Proof.
  intros c.
  assert (Hwf : dict_wf (_cache c)).
  { unfold dict_wf. simpl. repeat constructor; simpl; intuition discriminate. }
  assert (Hb : 0 <= cleanup_batch_size c < LRU.size c)
    by (split; vm_compute; [discriminate|reflexivity]).
  split; [exact Hwf|]. split; [exact Hb|].
  apply (X3_get_protects_from_cleanup string c "a" (mkCacheEntry "x" 0 0 1) 7
           Hwf Hb eq_refl).
  intros k' e' [E|[E|[E|[]]]]; inversion E; subst; reflexivity.
Defined.

(** X4. Ties and untouched caches: when the entries are in non-decreasing
    order of [last_accessed] as they stand in the map (in particular when
    all timestamps are equal), a cleanup that runs removes the first
    [cleanup_batch_size] entries in insertion order and keeps the others
    as they are. *)
Theorem X4_cleanup_insertion_order :
  forall (T : Type) (c : LRUCache T),
    dict_wf (_cache c) ->
    oldest_first c ->
    0 <= cleanup_batch_size c <= LRU.size c ->
    _cache (LRU._cleanup c)
    = skipn (Z.to_nat (cleanup_batch_size c)) (_cache c).
Proof.
  intros T c Hwf Hsorted [H0 H1].
  rewrite cleanup_map by assumption.
  unfold LRU.cleanup_batch. rewrite slice_to_nonneg by assumption.
  rewrite sorted_fixed by exact Hsorted.
  now apply remove_keys_firstn.
Qed.

Lemma X4_cleanup_insertion_order_witness :
  let c := mkLRUCache 3 2
             [("a", mkCacheEntry "x" 4 0 4);
              ("b", mkCacheEntry "y" 4 0 4);
              ("c", mkCacheEntry "z" 4 0 4)] in
  dict_wf (_cache c) /\ oldest_first c /\
  0 <= cleanup_batch_size c <= LRU.size c /\
  _cache (LRU._cleanup c) = [("c", mkCacheEntry "z" 4 0 4)].
Proof.
  intros c.
  assert (Hwf : dict_wf (_cache c)).
  { unfold dict_wf. simpl. repeat constructor; simpl; intuition discriminate. }
  assert (Hs : oldest_first c).
  { unfold oldest_first, key_le. simpl.
    repeat constructor; simpl; discriminate. }
  assert (Hb : 0 <= cleanup_batch_size c <= LRU.size c)
    by (split; vm_compute; discriminate).
  split; [exact Hwf|]. split; [exact Hs|]. split; [exact Hb|].
  exact (X4_cleanup_insertion_order string c Hwf Hs Hb).
Defined.

(** X5. A negative batch size is taken as a slice bound counted from the
    end: the cleanup, which then always runs, keeps [-cleanup_batch_size]
    entries, or all of them if there are fewer. *)
Theorem X5_cleanup_negative_batch :
  forall (T : Type) (c : LRUCache T),
    dict_wf (_cache c) ->
    cleanup_batch_size c < 0 ->
    LRU.size (LRU._cleanup c) = Z.min (LRU.size c) (- cleanup_batch_size c).
Proof.
  intros T c Hwf Hneg. unfold LRU.size.
  rewrite cleanup_map by (auto; unfold LRU.size; lia).
  unfold LRU.cleanup_batch, slice_to.
  assert (E : (0 <=? cleanup_batch_size c) = false) by now apply Z.leb_gt.
  rewrite E.
  rewrite (Permutation_length (remove_firstn_sorted _ _ Hwf)).
  rewrite length_skipn, !length_sorted. lia.
Qed.

Lemma X5_cleanup_negative_batch_witness :
  let c := mkLRUCache 3 (-1)
             [("a", mkCacheEntry "x" 0 0 5);
              ("b", mkCacheEntry "y" 1 0 1);
              ("c", mkCacheEntry "z" 2 0 3)] in
  dict_wf (_cache c) /\ cleanup_batch_size c < 0 /\
  LRU.size (LRU._cleanup c) = 1.
Proof.
  intros c.
  assert (Hwf : dict_wf (_cache c)).
  { unfold dict_wf. simpl. repeat constructor; simpl; intuition discriminate. }
  assert (Hb : cleanup_batch_size c < 0) by reflexivity.
  split; [exact Hwf|]. split; [exact Hb|].
  exact (X5_cleanup_negative_batch string c Hwf Hb).
Defined.

Lemma last_cons_default {A} (l : list A) (x d d' : A) :
  last (x :: l) d = last (x :: l) d'.
Proof.
  revert x. induction l as [|y l IH]; intros x; [reflexivity|].
  change (last (y :: l) d = last (y :: l) d'). apply IH.
Qed.

Lemma get_many_entry {T} (nows : list Time) (c : LRUCache T) key e :
  dict_get key (_cache c) = Some e ->
  dict_get key (_cache (get_many c key nows))
  = Some (mkCacheEntry (value e) (created_at e)
                       (access_count e + Z.of_nat (List.length nows))
                       (last nows (last_accessed e))).
Proof.
  revert c e. induction nows as [|now nows IH]; intros c e Hget.
  - simpl. rewrite Hget. destruct e; simpl. do 2 f_equal. lia.
  - unfold get_many in *. cbn [fold_left].
    set (e1 := mkCacheEntry (value e) (created_at e) (access_count e + 1) now).
    assert (Hc1 : snd (LRU.get c key now)
                  = LRU.with_map c (dict_set key e1 (_cache c))).
    { unfold LRU.get. now rewrite Hget. }
    rewrite Hc1. rewrite (IH _ e1) by (simpl; apply dict_get_set_same).
    simpl value. simpl created_at. simpl access_count. simpl last_accessed.
    f_equal. f_equal.
    + cbn [List.length]. lia.
    + destruct nows as [|t nows']; [reflexivity|].
      change (last (now :: t :: nows') (last_accessed e))
        with (last (t :: nows') (last_accessed e)).
      apply last_cons_default.
Qed.

(** X6. [access_count] counts the hits since the entry was put: after a
    [put] and any number of [get] calls on its key the entry still has the
    value and [created_at] of the [put], an [access_count] equal to the
    number of calls, and the time of the last call (of the [put], if there
    was none) as [last_accessed]. *)
Theorem X6_access_count_counts_hits :
  forall (T : Type) (c : LRUCache T) (key : string) (v : T) (t1 t2 : Time)
         (nows : list Time),
    dict_get key (_cache (get_many (LRU.put c key v t1 t2) key nows))
    = Some (mkCacheEntry v t1 (Z.of_nat (List.length nows)) (last nows t2)).
Proof.
  intros T c key v t1 t2 nows.
  rewrite (get_many_entry nows _ key (mkCacheEntry v t1 0 t2)).
  - reflexivity.
  - unfold LRU.put. simpl. apply dict_get_set_same.
Qed.

(** ** [CacheService]: keys and partitions *)

Lemma lower_app (s t : string) :
  PyStr.lower (s ++ t) = (PyStr.lower s ++ PyStr.lower t)%string.
Proof. induction s as [|c s IH]; simpl; [reflexivity|now rewrite IH]. Qed.

Lemma string_app_inv_head (s t u : string) :
  (s ++ t)%string = (s ++ u)%string -> t = u.
Proof. induction s as [|c s IH]; simpl; [exact id|]. intros [= H]. auto. Qed.

Lemma string_app_assoc (s t u : string) :
  ((s ++ t) ++ u)%string = (s ++ (t ++ u))%string.
Proof. induction s as [|c s IH]; simpl; [reflexivity|now rewrite IH]. Qed.

Lemma cache_store_spec (p : Processor) (text v : string) (tone : option string)
      (w : World) :
  cache_store p text v tone w
  = lru_put (cache_of p) (set_cache_of p) (key_of p text tone) v w.
Proof. destruct p; reflexivity. Qed.

Lemma cached_lookup_spec (p : Processor) (text : string) (tone : option string)
      (w : World) :
  cached_lookup p text tone w
  = lru_get (cache_of p) (set_cache_of p) (key_of p text tone) w.
Proof. destruct p; reflexivity. Qed.

(** X7. Lookups are insensitive to case and to surrounding whitespace: a
    value stored for a text by [cache_<op>] is what [get_<op>] returns
    right afterwards for every text with the same normalised key, and a
    text has the same normalised key as its lower-case form and as its
    trimmed form. *)
Theorem X7_lookup_modulo_normalisation :
  (forall t, Service._normalize_key (PyStr.lower t) = Service._normalize_key t) /\
  (forall t, Service._normalize_key (PyStr.strip t) = Service._normalize_key t) /\
  forall (p : Processor) (text text' v : string) (tone : option string)
         (w : World),
    Service._normalize_key text' = Service._normalize_key text ->
    fst (cached_lookup p text' tone (snd (cache_store p text v tone w)))
    = Normal (Some v).
Proof.
  split; [|split].
  - intros t. unfold Service._normalize_key.
    now rewrite strip_lower, lower_idem.
  - intros t. unfold Service._normalize_key. now rewrite strip_idem.
  - intros p text text' v tone w Hkey.
    assert (Ek : key_of p text' tone = key_of p text tone).
    { destruct p; simpl; unfold Service.tone_key; now rewrite ?Hkey. }
    rewrite cache_store_spec, cached_lookup_spec, Ek.
    destruct (lru_put_spec p (key_of p text tone) v w) as (w1 & -> & _ & Hv).
    cbn [snd].
    destruct (lru_get_spec p (key_of p text tone) w1) as (w2 & -> & _).
    simpl. now rewrite Hv.
Qed.

Lemma X7_lookup_modulo_normalisation_witness :
  Service._normalize_key "  Hello World " = Service._normalize_key "hello world" /\
  fst (cached_lookup GrammarCorrector "  Hello World " None
         (snd (cache_store GrammarCorrector "hello world" "Hello, world."
                           None empty_world)))
  = Normal (Some "Hello, world.").
Proof.
  assert (H : Service._normalize_key "  Hello World "
              = Service._normalize_key "hello world") by reflexivity.
  split; [exact H|].
  exact (proj2 (proj2 X7_lookup_modulo_normalisation)
           GrammarCorrector "hello world" "  Hello World " "Hello, world."
           None empty_world H).
Defined.

(** X8. The three caches are separate partitions: storing or looking up
    a result of one operation kind leaves the caches of the other two kinds
    exactly as they are, so a text cached for one operation is never served
    for another. *)
Theorem X8_partitions_are_independent :
  forall (p q : Processor) (text v : string) (tone : option string) (w : World),
    p <> q ->
    cache_of q (cache_service (snd (cache_store p text v tone w)))
    = cache_of q (cache_service w) /\
    cache_of q (cache_service (snd (cached_lookup p text tone w)))
    = cache_of q (cache_service w).
Proof.
  intros p q text v tone w Hne.
  rewrite cache_store_spec, cached_lookup_spec.
  unfold lru_put, lru_get, bind, time_time, modify_service, ret. simpl.
  split.
  - destruct p, q; try contradiction; reflexivity.
  - destruct (LRU.contains _ _); [|reflexivity].
    destruct (LRU.get _ _ _) as [r c']. simpl.
    destruct p, q; try contradiction; reflexivity.
Qed.

Lemma X8_partitions_are_independent_witness :
  GrammarCorrector <> TextSummarizer /\
  fst (cached_lookup TextSummarizer "hello" None
         (snd (cache_store GrammarCorrector "hello" "Hello." None empty_world)))
  = Normal None.
Proof.
  assert (H : GrammarCorrector <> TextSummarizer) by discriminate.
  split; [exact H|].
  pose proof (proj1 (X8_partitions_are_independent GrammarCorrector
                       TextSummarizer "hello" "Hello." None empty_world H)) as E.
  rewrite cached_lookup_spec.
  destruct (lru_get_spec TextSummarizer (key_of TextSummarizer "hello" None)
              (snd (cache_store GrammarCorrector "hello" "Hello." None empty_world)))
    as (w2 & -> & _).
  cbn [fst]. rewrite E. reflexivity.
Defined.

(** X9. Tone keys: for one text, two tones give the same key only if they
    are the same string. The tone is taken as it is, without the
    normalisation applied to the text, so tones that differ only in case or
    in surrounding blanks have different entries. *)
Theorem X9_tone_key_separates_tones :
  forall (text tone1 tone2 : string),
    Service.tone_key text tone1 = Service.tone_key text tone2 <-> tone1 = tone2.
Proof.
  intros text tone1 tone2. split; [|now intros ->].
  unfold Service.tone_key. intros H.
  apply string_app_inv_head in H.
  now apply (string_app_inv_head "_") in H.
Qed.

(** X10. Tone keys of different texts can coincide: the key joins text
    and tone with an underscore, so a text ending in [_a] with tone [b] has
    the key of the text without that ending with tone [a_b] (in lower
    case). An entry written for the first is found by a lookup for the
    second. *)
Theorem X10_tone_key_collision :
  forall (x a b : string),
    PyStr.strip x = x ->
    PyStr.strip (x ++ "_" ++ a) = (x ++ "_" ++ a)%string ->
    Service.tone_key (x ++ "_" ++ a) b
    = Service.tone_key x (PyStr.lower a ++ "_" ++ b) /\
    forall (v : string) (w : World),
      fst (get_tone_change x (PyStr.lower a ++ "_" ++ b)
             (snd (cache_tone_change (x ++ "_" ++ a) v b w)))
      = Normal (Some v).
Proof.
  intros x a b Hx Hxa.
  assert (Ek : Service.tone_key (x ++ "_" ++ a) b
               = Service.tone_key x (PyStr.lower a ++ "_" ++ b)).
  { unfold Service.tone_key, Service._normalize_key.
    rewrite Hx, Hxa, !lower_app, !string_app_assoc. reflexivity. }
  split; [exact Ek|]. intros v w.
  unfold get_tone_change, cache_tone_change. rewrite Ek.
  destruct (lru_put_spec ToneChanger
              (Service.tone_key x (PyStr.lower a ++ "_" ++ b)) v w)
    as (w1 & E1 & _ & Hv).
  change (cache_of ToneChanger) with tone_cache in *.
  change (set_cache_of ToneChanger) with Service.set_tone in *.
  rewrite E1.
  destruct (lru_get_spec ToneChanger
              (Service.tone_key x (PyStr.lower a ++ "_" ++ b)) w1)
    as (w2 & E2 & _).
  change (cache_of ToneChanger) with tone_cache in *.
  change (set_cache_of ToneChanger) with Service.set_tone in *.
  cbn [snd]. rewrite E2. cbn [fst]. now rewrite Hv.
Qed.

Lemma X10_tone_key_collision_witness :
  PyStr.strip "hello" = "hello" /\
  PyStr.strip ("hello" ++ "_" ++ "there") = ("hello" ++ "_" ++ "there")%string /\
  Service.tone_key "hello_there" "formal"
  = Service.tone_key "hello" "there_formal".
Proof.
  split; [reflexivity|]. split; [reflexivity|].
  exact (proj1 (X10_tone_key_collision "hello" "there" "formal"
                  eq_refl eq_refl)).
Defined.

(** ** Invariants of the service under the processors *)

Lemma cache_of_set_other (p q : Processor) (c : LRUCache string) (s : CacheService) :
  p <> q -> cache_of q (set_cache_of p c s) = cache_of q s.
Proof. destruct p, q; intros H; try contradiction; reflexivity. Qed.

Section Preservation.
Variable llm : ILLMProvider.
Variable config : Config.AppConfig.
Variable P : CacheService -> Prop.
Hypothesis P_get :
  forall p s key now,
    P s -> P (set_cache_of p (snd (LRU.get (cache_of p s) key now)) s).
Hypothesis P_put :
  forall p s key v t1 t2,
    v <> EmptyString ->
    P s -> P (set_cache_of p (LRU.put (cache_of p s) key v t1 t2) s).

Lemma lru_get_preserves (p : Processor) (key : string) (w : World) :
  P (cache_service w) ->
  P (cache_service (snd (lru_get (cache_of p) (set_cache_of p) key w))).
Proof.
  intros HP. unfold lru_get.
  destruct (LRU.contains (cache_of p (cache_service w)) key); [|exact HP].
  unfold bind, time_time, modify_service, ret. simpl.
  pose proof (P_get p (cache_service w) key
                    (readings (clock w) (reads (clock w))) HP) as H.
  destruct (LRU.get (cache_of p (cache_service w)) key
                    (readings (clock w) (reads (clock w)))) as [r c'].
  exact H.
Qed.

(** What holds of the service before an invocation and is kept by a
    lookup and by storing a non-empty value holds after the invocation. *)
Lemma run_preserves (pol : Policy) (text : string) (w : World) :
  P (cache_service w) ->
  P (cache_service (snd (run llm config pol text w))).
Proof.
  intros HP. unfold run.
  destruct (_validate_input text); simpl; [|exact HP].
  destruct (is_available llm); simpl; [|exact HP].
  unfold bind at 1.
  pose proof (lru_get_preserves (pol_kind pol) (pol_key pol) w HP) as HP1.
  destruct (lru_get_spec (pol_kind pol) (pol_key pol) w) as (w1 & E & _).
  rewrite E in HP1 |- *. cbn [snd] in HP1.
  destruct (PyStr.truthy_opt _); [exact HP1|].
  unfold try_except, run_try, bind, time_time; simpl.
  destruct (pol_unsupported pol); simpl; [exact HP1|].
  unfold stop_tokens_for.
  destruct (dict_get (pol_stop pol) (Config.stop_tokens config)); simpl;
    [|exact HP1].
  destruct (generate_response llm (provider_calls w1) (pol_request pol l))
    as [[out|e]|e]; simpl; try exact HP1;
    try (destruct (is_Exception e); simpl; exact HP1).
  destruct (PyStr.truthy (PyStr.strip out)) eqn:Hout; simpl; [|exact HP1].
  destruct (pol_min_length pol && under_30_percent (PyStr.strip out) text);
    simpl; [exact HP1|].
  apply P_put; [|exact HP1]. now apply truthy_true.
Qed.

Lemma run_invocations_preserves (calls : list Invocation) (w : World) :
  P (cache_service w) ->
  P (cache_service (run_invocations llm config calls w)).
Proof.
  revert w. induction calls as [|i calls IH]; intros w HP; [exact HP|].
  simpl. apply IH. unfold invoke. rewrite process_text_run.
  now apply run_preserves.
Qed.

End Preservation.

Lemma Processor_eq_dec (p q : Processor) : {p = q} + {p <> q}.
Proof. destruct p, q; (left; reflexivity) || (right; discriminate). Qed.

Lemma put_keeps_params (c : LRUCache string) key v t1 t2 :
  max_size (LRU.put c key v t1 t2) = max_size c /\
  cleanup_batch_size (LRU.put c key v t1 t2) = cleanup_batch_size c.
Proof. exact (put_params c (mkPutCall key v t1 t2)). Qed.

Lemma put_keeps_bound (c : LRUCache string) key v t1 t2 :
  1 <= cleanup_batch_size c -> bounded c -> bounded (LRU.put c key v t1 t2).
Proof.
  intros Hb [Hwf Hsz]. split; [now apply dict_wf_put|].
  destruct (put_keeps_params c key v t1 t2) as [-> ->].
  exact (size_put_le c (mkPutCall key v t1 t2) Hwf Hb Hsz).
Qed.

Lemma get_params {T} (c : LRUCache T) key now :
  max_size (snd (LRU.get c key now)) = max_size c /\
  cleanup_batch_size (snd (LRU.get c key now)) = cleanup_batch_size c /\
  LRU.size (snd (LRU.get c key now)) = LRU.size c.
Proof.
  unfold LRU.get, LRU.size.
  destruct (dict_get key (_cache c)) as [e|] eqn:E; simpl; auto.
  rewrite length_dict_set. unfold dict_contains. now rewrite E.
Qed.

Lemma get_keeps_bound (c : LRUCache string) key now :
  bounded c -> bounded (snd (LRU.get c key now)).
Proof.
  intros [Hwf Hsz]. split; [now apply dict_wf_get|].
  now destruct (get_params c key now) as (-> & -> & ->).
Qed.

(** The parameters of the three caches and the bound on their sizes, as
    one property of the service. *)
Lemma service_bound_kept (config : Config.AppConfig) (llm : ILLMProvider)
      (calls : list Invocation) (clock : Clock) :
  1 <= Config.cleanup_batch_size (Config.cache config) ->
  forall p,
    let c := cache_of p (cache_service
                           (run_invocations llm config calls
                                            (initial_world config clock))) in
    max_size c = max_size (cache_of p (Service.init config)) /\
    cleanup_batch_size c = Config.cleanup_batch_size (Config.cache config) /\
    bounded c.
Proof.
  intros Hb.
  set (Q := fun s : CacheService =>
              forall p,
                max_size (cache_of p s) = max_size (cache_of p (Service.init config)) /\
                cleanup_batch_size (cache_of p s)
                = Config.cleanup_batch_size (Config.cache config) /\
                bounded (cache_of p s)).
  apply (run_invocations_preserves llm config Q).
  - intros p s key now HQ q. destruct (HQ q) as (Hm & Hbs & Hbd).
    destruct (Processor_eq_dec p q) as [<-|Hne].
    + rewrite cache_of_set.
      destruct (get_params (cache_of p s) key now) as (Em & Eb & _).
      rewrite Em, Eb. split; [assumption|]. split; [assumption|].
      now apply get_keeps_bound.
    + now rewrite cache_of_set_other by exact Hne.
  - intros p s key v t1 t2 _ HQ q. destruct (HQ q) as (Hm & Hbs & Hbd).
    destruct (Processor_eq_dec p q) as [<-|Hne].
    + rewrite cache_of_set.
      destruct (put_keeps_params (cache_of p s) key v t1 t2) as (Em & Eb).
      rewrite Em, Eb. split; [assumption|]. split; [assumption|].
      apply put_keeps_bound; [lia|assumption].
    + now rewrite cache_of_set_other by exact Hne.
  - intros p. unfold initial_world, bounded. simpl.
    destruct p; simpl; repeat split; try constructor;
      unfold LRU.size; simpl; lia.
Qed.

Lemma service_params_kept (config : Config.AppConfig) (llm : ILLMProvider)
      (calls : list Invocation) (clock : Clock) (p : Processor) :
  max_size (cache_of p (cache_service
                          (run_invocations llm config calls
                                           (initial_world config clock))))
  = max_size (cache_of p (Service.init config)).
Proof.
  revert p.
  apply (run_invocations_preserves llm config
           (fun s => forall p, max_size (cache_of p s)
                               = max_size (cache_of p (Service.init config)))).
  - intros p s key now HQ q.
    destruct (Processor_eq_dec p q) as [<-|Hne].
    + rewrite cache_of_set.
      destruct (get_params (cache_of p s) key now) as (-> & _). apply HQ.
    + rewrite cache_of_set_other by exact Hne. apply HQ.
  - intros p s key v t1 t2 _ HQ q.
    destruct (Processor_eq_dec p q) as [<-|Hne].
    + rewrite cache_of_set.
      destruct (put_keeps_params (cache_of p s) key v t1 t2) as (-> & _).
      apply HQ.
    + rewrite cache_of_set_other by exact Hne. apply HQ.
  - reflexivity.
Qed.

(** X11. The statistics of the service: whatever the processors have
    done since the service was constructed, [get_cache_stats] reports the
    capacities [max_cache_size], [max_cache_size // 2] and
    [max_cache_size // 2] of the configuration; after [clear_all_caches]
    it reports three sizes of 0 with the same capacities, and every lookup
    misses. *)
Theorem X11_stats_and_clear :
  forall (llm : ILLMProvider) (config : Config.AppConfig) (clock : Clock)
         (calls : list Invocation),
    let s := cache_service (run_invocations llm config calls
                                            (initial_world config clock)) in
    let m := Config.max_cache_size (Config.cache config) in
    get_cache_stats s
    = [ ("grammar_cache_size", LRU.size (grammar_cache s));
        ("summary_cache_size", LRU.size (summary_cache s));
        ("tone_cache_size", LRU.size (tone_cache s));
        ("grammar_cache_max", m);
        ("summary_cache_max", m / 2);
        ("tone_cache_max", m / 2) ] /\
    get_cache_stats (clear_all_caches s)
    = [ ("grammar_cache_size", 0);
        ("summary_cache_size", 0);
        ("tone_cache_size", 0);
        ("grammar_cache_max", m);
        ("summary_cache_max", m / 2);
        ("tone_cache_max", m / 2) ] /\
    forall p key, cached_value (cache_of p (clear_all_caches s)) key = None.
Proof.
  intros llm config clock calls s m.
  pose proof (service_params_kept config llm calls clock GrammarCorrector) as Hg.
  pose proof (service_params_kept config llm calls clock TextSummarizer) as Hs.
  pose proof (service_params_kept config llm calls clock ToneChanger) as Ht.
  fold s in Hg, Hs, Ht. simpl in Hg, Hs, Ht.
  unfold get_cache_stats, clear_all_caches, LRU.clear, LRU.with_map.
  cbn [grammar_cache summary_cache tone_cache max_size].
  rewrite Hg, Hs, Ht.
  split; [reflexivity|]. split; [reflexivity|].
  intros p key. now destruct p.
Qed.

(** X12. The size bound of each cache holds along every run of the
    application: for a configuration with [cleanup_batch_size >= 1], after
    any sequence of processor invocations on a newly constructed service,
    each cache holds at most as many entries as the larger of its capacity
    and the batch size (100, 50 and 50 for the default configuration). *)
Theorem X12_cache_bounds_under_invocations :
  forall (llm : ILLMProvider) (config : Config.AppConfig) (clock : Clock)
         (calls : list Invocation),
    1 <= Config.cleanup_batch_size (Config.cache config) ->
    let s := cache_service (run_invocations llm config calls
                                            (initial_world config clock)) in
    let m := Config.max_cache_size (Config.cache config) in
    let b := Config.cleanup_batch_size (Config.cache config) in
    LRU.size (grammar_cache s) <= Z.max m b /\
    LRU.size (summary_cache s) <= Z.max (m / 2) b /\
    LRU.size (tone_cache s) <= Z.max (m / 2) b.
Proof.
  intros llm config clock calls Hb s m b.
  pose proof (service_bound_kept config llm calls clock Hb) as H.
  destruct (H GrammarCorrector) as (Hg1 & Hg2 & _ & Hg).
  destruct (H TextSummarizer) as (Hs1 & Hs2 & _ & Hs).
  destruct (H ToneChanger) as (Ht1 & Ht2 & _ & Ht).
  fold s in Hg1, Hg2, Hg, Hs1, Hs2, Hs, Ht1, Ht2, Ht.
  simpl cache_of in *. rewrite Hg1, Hg2 in Hg. rewrite Hs1, Hs2 in Hs.
  rewrite Ht1, Ht2 in Ht. simpl in Hg, Hs, Ht. auto.
Qed.

Lemma X12_cache_bounds_under_invocations_witness :
  let llm := mock_provider (Normal (RespText "A fine answer.")) in
  let calls := [mkInvocation GrammarCorrector "one text" None;
                mkInvocation TextSummarizer "another text" None;
                mkInvocation ToneChanger "a third text" (Some "formal")] in
  let s := cache_service (run_invocations llm Config.CONFIG calls
                                          (initial_world Config.CONFIG sample_clock)) in
  1 <= Config.cleanup_batch_size (Config.cache Config.CONFIG) /\
  LRU.size (grammar_cache s) <= 100 /\
  LRU.size (summary_cache s) <= 50 /\
  LRU.size (tone_cache s) <= 50.
Proof.
  intros llm calls s.
  assert (Hb : 1 <= Config.cleanup_batch_size (Config.cache Config.CONFIG))
    by (vm_compute; discriminate).
  split; [exact Hb|].
  exact (X12_cache_bounds_under_invocations llm Config.CONFIG sample_clock
           calls Hb).
Defined.

Section ValueInvariant.
Variable Q : string * CacheEntry string -> Prop.

Lemma Forall_dict_del (k : string) (d : dict (CacheEntry string)) :
  Forall Q d -> Forall Q (dict_del k d).
Proof.
  induction 1 as [|[k' e'] d Hx Hd IH]; simpl; [constructor|].
  destruct (String.eqb k k'); [exact Hd|now constructor].
Qed.

Lemma Forall_dict_set (k : string) (e : CacheEntry string)
      (d : dict (CacheEntry string)) :
  Q (k, e) -> Forall Q d -> Forall Q (dict_set k e d).
Proof.
  intros He. induction 1 as [|[k' e'] d Hx Hd IH]; simpl.
  - now repeat constructor.
  - destruct (String.eqb k k'); now constructor.
Qed.

Lemma Forall_cleanup (c : LRUCache string) :
  Forall Q (_cache c) -> Forall Q (_cache (LRU._cleanup c)).
Proof.
  unfold LRU._cleanup. destruct (_ <? _); [exact id|]. simpl.
  generalize (LRU.cleanup_batch c) as items. generalize (_cache c) as d.
  intros d items. revert d.
  induction items as [|item items IH]; simpl; intros d Hd; [exact Hd|].
  apply IH. now apply Forall_dict_del.
Qed.

End ValueInvariant.

(** X13. The processors never store an empty string: after any sequence
    of processor invocations on a newly constructed service, every value
    in every cache is non-empty. The case of a cached empty string, which
    the hit test would take for a miss, only arises when the service is
    written to directly. *)
Theorem X13_no_empty_cached_value :
  forall (llm : ILLMProvider) (config : Config.AppConfig) (clock : Clock)
         (calls : list Invocation) (p : Processor) (key v : string),
    cached_value
      (cache_of p (cache_service (run_invocations llm config calls
                                                  (initial_world config clock))))
      key = Some v ->
    v <> EmptyString.
Proof.
  intros llm config clock calls p key v Hv.
  assert (Hinv : no_empty_values
                   (cache_service (run_invocations llm config calls
                                                   (initial_world config clock)))).
  { apply (run_invocations_preserves llm config no_empty_values).
    - intros p0 s key0 now HQ q. specialize (HQ q).
      destruct (Processor_eq_dec p0 q) as [<-|Hne];
        [|now rewrite cache_of_set_other by exact Hne].
      rewrite cache_of_set. unfold LRU.get.
      destruct (dict_get key0 (_cache (cache_of p0 s))) as [e|] eqn:E;
        [|exact HQ].
      simpl. apply Forall_dict_set; [|exact HQ]. simpl.
      apply dict_get_Some_In in E.
      rewrite Forall_forall in HQ. exact (HQ _ E).
    - intros p0 s key0 v0 t1 t2 Hv0 HQ q. specialize (HQ q).
      destruct (Processor_eq_dec p0 q) as [<-|Hne];
        [|now rewrite cache_of_set_other by exact Hne].
      rewrite cache_of_set. unfold LRU.put. simpl.
      apply Forall_dict_set; [exact Hv0|].
      destruct (_ <=? _); [now apply Forall_cleanup|exact HQ].
    - intros q. destruct q; constructor. }
  unfold cached_value in Hv.
  destruct (dict_get key _) as [e|] eqn:E; [|discriminate].
  injection Hv as <-. apply dict_get_Some_In in E.
  specialize (Hinv p). rewrite Forall_forall in Hinv. exact (Hinv _ E).
Qed.

Lemma X13_no_empty_cached_value_witness :
  let llm := mock_provider (Normal (RespText "  Hello.  ")) in
  let w := run_invocations llm Config.CONFIG
             [mkInvocation GrammarCorrector "hello" None]
             (initial_world Config.CONFIG sample_clock) in
  cached_value (grammar_cache (cache_service w)) "hello" = Some "Hello." /\
  "Hello." <> EmptyString.
Proof.
  intros llm w.
  assert (H : cached_value (grammar_cache (cache_service w)) "hello"
              = Some "Hello.") by reflexivity.
  split; [exact H|].
  exact (X13_no_empty_cached_value llm Config.CONFIG sample_clock
           [mkInvocation GrammarCorrector "hello" None]
           GrammarCorrector "hello" "Hello." H).
Defined.

(** ** The processors, call after call *)

Lemma dict_get_contents (d : dict (CacheEntry string)) (k : string) :
  dict_get k (map (fun item => (fst item, value (snd item))) d)
  = option_map value (dict_get k d).
Proof.
  induction d as [|[k' e'] d IH]; simpl; [reflexivity|].
  now destruct (String.eqb k k').
Qed.

Lemma cached_value_of_contents (p : Processor) (s s' : CacheService) (k : string) :
  service_contents s' = service_contents s ->
  cached_value (cache_of p s') k = cached_value (cache_of p s) k.
Proof.
  unfold service_contents, cached_value. intros [= Hg Hs Ht].
  rewrite <- !dict_get_contents. fold (contents (cache_of p s')).
  fold (contents (cache_of p s)). destruct p; simpl; congruence.
Qed.

(** A non-empty cached value is served as it is. *)
Lemma cache_hit_result (llm : ILLMProvider) (config : Config.AppConfig)
      (p : Processor) (text : string) (tone : option string) (w : World)
      (v : string) :
  _validate_input text = true ->
  is_loaded llm = true ->
  cached_value (cache_of p (cache_service w)) (key_of p text tone) = Some v ->
  v <> EmptyString ->
  exists w',
    process_text llm config p text tone w
    = (Normal (from_cache_result v text
                 (pol_hit_meta (policy_of config p text tone))), w') /\
    provider_calls w' = provider_calls w.
Proof.
  intros Hvalid Hloaded Hcached Hv.
  on_paths llm config p text tone w r w' E; try congruence.
  2-8: exfalso;
    match goal with
    | H : PyStr.truthy_opt _ = false |- _ =>
        rewrite Hcached in H; simpl in H; apply truthy_false in H; auto
    end.
  assert (v0 = v) by congruence. subst v0. eauto.
Qed.

(** X14. What succeeded once is served from the cache the next time: if
    an invocation returns a success result, the same invocation right
    after it returns a success result with the same [processed_text],
    [from_cache] true and a processing time of 0, and does not call the
    provider. *)
Theorem X14_repeat_is_served_from_cache :
  forall (llm : ILLMProvider) (config : Config.AppConfig) (p : Processor)
         (text : string) (tone : option string) (w w1 : World)
         (r : TextProcessingResult),
    process_text llm config p text tone w = (Normal r, w1) ->
    success r = true ->
    exists r' w2,
      process_text llm config p text tone w1 = (Normal r', w2) /\
      success r' = true /\
      processed_text r' = processed_text r /\
      from_cache r' = true /\
      processing_time r' = 0 /\
      provider_calls w2 = provider_calls w1.
Proof.
  intros llm config p text tone w w1 r E Hs.
  assert (Hhit : _validate_input text = true /\ is_loaded llm = true /\
                 cached_value (cache_of p (cache_service w1)) (key_of p text tone)
                 = Some (processed_text r) /\
                 processed_text r <> EmptyString).
  { revert E.
    on_paths llm config p text tone w r0 w0 E0; intros [= <- <-];
      try discriminate Hs; cbn [processed_text from_cache_result fresh_result].
    - repeat split; try assumption.
      + erewrite cached_value_of_contents by eassumption. assumption.
      + now apply truthy_true.
    - repeat split; assumption. }
  destruct Hhit as (Hvalid & Hloaded & Hcached & Hne).
  destruct (cache_hit_result llm config p text tone w1 (processed_text r)
              Hvalid Hloaded Hcached Hne) as (w2 & E2 & Hcalls).
  eexists _, w2. split; [exact E2|].
  unfold from_cache. simpl. rewrite hit_meta_from_cache. auto.
Qed.

Lemma X14_repeat_is_served_from_cache_witness :
  let llm := mock_provider (Normal (RespText "This is a test sentence.")) in
  let text := "this is a test sentance" in
  let first := process_text llm Config.CONFIG GrammarCorrector text None
                            empty_world in
  exists r, fst first = Normal r /\ success r = true /\
  exists r' w2,
    process_text llm Config.CONFIG GrammarCorrector text None (snd first)
    = (Normal r', w2) /\
    processed_text r' = "This is a test sentence." /\
    from_cache r' = true /\
    provider_calls w2 = provider_calls (snd first).
Proof.
  intros llm text first.
  destruct first as [[r|e] w1] eqn:E; [|vm_compute in E; discriminate E].
  assert (Hs : success r = true).
  { vm_compute in E. injection E as <- _. reflexivity. }
  assert (Hp : processed_text r = "This is a test sentence.").
  { vm_compute in E. injection E as <- _. reflexivity. }
  exists r. split; [reflexivity|]. split; [exact Hs|].
  destruct (X14_repeat_is_served_from_cache llm Config.CONFIG GrammarCorrector
              text None empty_world w1 r E Hs)
    as (r' & w2 & E2 & _ & Hpt & Hfc & _ & Hcalls).
  exists r', w2. cbn [snd]. rewrite Hpt, Hp. auto.
Defined.

Lemma validate_input_strip (text : string) :
  _validate_input text = PyStr.truthy (PyStr.strip text).
Proof.
  unfold _validate_input. destruct text as [|c s]; [reflexivity|].
  reflexivity.
Qed.

(** X15. Rejections that come first: a text that is empty after trimming
    is refused with "Invalid input text", and any other text on a provider
    that is not loaded with the processor's "not available" message; in
    both cases before the cache, the clock or the provider is touched, so
    the world is left as it is. The input is refused first even if the
    provider is not loaded. *)
Theorem X15_early_rejections :
  forall (llm : ILLMProvider) (config : Config.AppConfig) (p : Processor)
         (text : string) (tone : option string) (w : World),
    (PyStr.strip text = EmptyString ->
     process_text llm config p text tone w
     = (Normal (_create_error_result text "Invalid input text"), w)) /\
    (PyStr.strip text <> EmptyString ->
     is_loaded llm = false ->
     process_text llm config p text tone w
     = (Normal (_create_error_result text (unavailable_message p)), w)).
Proof.
  intros llm config p text tone w.
  pose proof (validate_input_strip text) as Hv.
  split.
  - intros Hs. rewrite Hs in Hv. simpl in Hv.
    on_paths llm config p text tone w r w' E; try congruence.
  - intros Hs Hl. apply truthy_true in Hs. rewrite Hs in Hv.
    on_paths llm config p text tone w r w' E; try congruence.
    now destruct p.
Qed.

(** X16. One invocation sends at most one request, and only adds to the
    log of calls: either the log is as before, or it has one more request,
    and then the input was valid, the provider loaded, the prompt of the
    request is the operation's template around the text exactly as
    given (not its normalised form), and the stop tokens are the ones
    configured under the operation's name. *)
Theorem X16_at_most_one_request :
  forall (llm : ILLMProvider) (config : Config.AppConfig) (p : Processor)
         (text : string) (tone : option string) (w : World),
    let w' := snd (process_text llm config p text tone w) in
    provider_calls w' = provider_calls w \/
    exists req,
      provider_calls w' = provider_calls w ++ [req] /\
      _validate_input text = true /\
      is_loaded llm = true /\
      prompt req = prompt_of p text /\
      dict_get (stop_name_of p) (Config.stop_tokens config)
      = Some (req_stop_tokens req).
Proof.
  intros llm config p text tone w.
  assert (Hreq : forall stop,
             prompt (pol_request (policy_of config p text tone) stop)
             = prompt_of p text /\
             req_stop_tokens (pol_request (policy_of config p text tone) stop)
             = stop /\
             pol_stop (policy_of config p text tone) = stop_name_of p).
  { intros stop. now destruct p. }
  on_paths llm config p text tone w r w0 E; cbn [snd]; auto;
    right; eexists; (split; [eassumption|]);
    (split; [assumption|]); (split; [assumption|]);
    match goal with
    | H : dict_get (pol_stop _) _ = Some ?stop |- _ =>
        destruct (Hreq stop) as (Hp & Hst & Hn);
        rewrite Hn in H; rewrite Hp, Hst; auto
    end.
Qed.

(** X17. What a success result is: it never carries an empty
    [processed_text], it has no error message and the text as given in
    [original_text]; a result served from the cache has a processing time
    of 0, and one that is not served from the cache is, for grammar
    correction and tone change, at least 30% as long as the input. *)
Theorem X17_success_results :
  forall (llm : ILLMProvider) (config : Config.AppConfig) (p : Processor)
         (text : string) (tone : option string) (w w' : World)
         (r : TextProcessingResult),
    process_text llm config p text tone w = (Normal r, w') ->
    success r = true ->
    processed_text r <> EmptyString /\
    original_text r = text /\
    error_message r = None /\
    (from_cache r = true -> processing_time r = 0) /\
    (from_cache r = false -> p <> TextSummarizer ->
     3 * PyStr.len text <= 10 * PyStr.len (processed_text r)).
Proof.
  intros llm config p text tone w w' r E Hs. revert E.
  on_paths llm config p text tone w r0 w0 E0; intros [= <- <-];
    try discriminate Hs;
    cbn [processed_text original_text error_message processing_time
         from_cache_result fresh_result];
    unfold from_cache; cbn [metadata from_cache_result fresh_result];
    rewrite ?hit_meta_from_cache, ?miss_meta_from_cache.
  - repeat split; try discriminate; auto. now apply truthy_true.
  - repeat split; try discriminate; auto.
    intros _ Hp.
    match goal with
    | H : pol_min_length _ = true -> under_30_percent _ _ = false |- _ =>
        rewrite pol_min_length_policy in H;
        assert (Hlong : under_30_percent (PyStr.strip out) text = false)
          by (apply H; now destruct p)
    end.
    apply Z.ltb_ge in Hlong. lia.
Qed.

Lemma X17_success_results_witness :
  let llm := mock_provider (Normal (RespText "This is a test sentence.")) in
  let text := "this is a test sentance" in
  exists r w',
    process_text llm Config.CONFIG GrammarCorrector text None empty_world
    = (Normal r, w') /\
    success r = true /\
    processed_text r <> EmptyString /\
    3 * PyStr.len text <= 10 * PyStr.len (processed_text r).
Proof.
  intros llm text.
  destruct (process_text llm Config.CONFIG GrammarCorrector text None empty_world)
    as [[r|e] w'] eqn:E; [|vm_compute in E; discriminate E].
  assert (Hs : success r = true).
  { vm_compute in E. injection E as <- _. reflexivity. }
  assert (Hf : from_cache r = false).
  { vm_compute in E. injection E as <- _. reflexivity. }
  destruct (X17_success_results llm Config.CONFIG GrammarCorrector text None
              empty_world w' r E Hs) as (Hne & _ & _ & _ & Hlen).
  exists r, w'. split; [reflexivity|]. split; [exact Hs|].
  split; [exact Hne|]. apply Hlen; [exact Hf|discriminate].
Defined.

(** ** [LlamaCppProvider] *)

(** What a loaded provider answers to the processors. *)
Lemma as_provider_answer (clock_at : list GenRequest -> Clock)
      (p : Llama.LlamaCppProvider) (model : Llama.Model)
      (history : list GenRequest) (req : GenRequest) :
  Llama.llm p = Some model ->
  Llama._model_loaded p = true ->
  generate_response (Llama.as_provider clock_at p) history req
  = match model history req with
    | Normal text => Normal (RespText text)
    | Raised e =>
        if is_Exception e then Normal (RespError (exc_str e)) else Raised e
    end.
Proof.
  intros Em El. simpl. unfold Llama.generate_response. rewrite Em, El.
  unfold stry, sbind, clock_read, Llama.call_model, sret. simpl.
  destruct (model history req) as [t|e]; simpl; [reflexivity|].
  destruct (is_Exception e); reflexivity.
Qed.

Lemma is_loaded_model (p : Llama.LlamaCppProvider) :
  Llama.is_loaded p = true ->
  exists model, Llama.llm p = Some model /\ Llama._model_loaded p = true.
Proof.
  unfold Llama.is_loaded.
  destruct (Llama.llm p) as [model|], (Llama._model_loaded p);
    try discriminate. eauto.
Qed.

(** X18. [LlamaCppProvider] behind a processor. The [RuntimeError] of a
    provider that is not loaded never occurs, since a processor asks
    [is_loaded] first: every request a processor sends reaches the model.
    If the model answers, the processor reads that text; if it raises an
    instance of [Exception], [generate_response] turns it into a failure
    dictionary and the caller of the processor gets a failed result with the
    text of the exception; if it raises anything else, neither
    [generate_response] nor the processor handles it and it goes on to the
    caller. Nothing else is ever raised to the caller of the processor, and
    none of this depends on the clock readings of the provider. *)
Theorem X18_provider_errors_are_dictionaries :
  forall (p : Llama.LlamaCppProvider) (clock_at : list GenRequest -> Clock)
         (config : Config.AppConfig) (proc : Processor) (text : string)
         (tone : option string) (w : World),
    let llm := Llama.as_provider clock_at p in
    let out := process_text llm config proc text tone w in
    (forall req,
        provider_calls (snd out) = provider_calls w ++ [req] ->
        exists model,
          Llama.llm p = Some model /\
          match model (provider_calls w) req with
          | Normal answer =>
              generate_response llm (provider_calls w) req
              = Normal (RespText answer)
          | Raised e =>
              fst out = if is_Exception e
                        then Normal (_create_error_result text (exc_str e))
                        else Raised e
          end) /\
    (forall e,
        fst out = Raised e ->
        is_Exception e = false /\
        exists model req,
          Llama.llm p = Some model /\
          provider_calls (snd out) = provider_calls w ++ [req] /\
          model (provider_calls w) req = Raised e) /\
    (forall clock_at' history req,
        generate_response (Llama.as_provider clock_at' p) history req
        = generate_response llm history req).
Proof.
  intros p clock_at config proc text tone w. cbv zeta.
  split; [|split].
  - intros req.
    on_paths (Llama.as_provider clock_at p) config proc text tone w r w' E;
      cbn [snd fst]; intros Hcalls;
      try match goal with
          | H : provider_calls _ = provider_calls w |- _ => rewrite H in Hcalls
          end;
      try solve [exfalso; apply (f_equal (@List.length _)) in Hcalls;
                 rewrite length_app in Hcalls; simpl in Hcalls; lia];
      match goal with
      | H : provider_calls _ = provider_calls w ++ [pol_request _ _] |- _ =>
          rewrite H in Hcalls; apply app_inv_head in Hcalls;
          injection Hcalls as <-
      end.
    all: match goal with
         | Hl : is_loaded _ = true |- _ =>
             apply is_loaded_model in Hl as (model & Em & El)
         end.
    all: exists model; split; [exact Em|].
    all: match goal with
         | Hg : generate_response _ _ _ = _ |- _ =>
             rewrite (as_provider_answer clock_at p model _ _ Em El) in Hg
         end.
    all: rewrite ?(as_provider_answer clock_at p model _ _ Em El).
    all: destruct (model _ _) as [?answer|?exc]; try discriminate;
      try reflexivity.
    all: match goal with
         | Hg : context [is_Exception ?x] |- _ =>
             destruct (is_Exception x) eqn:?; try discriminate Hg;
             injection Hg as <-
         end; try reflexivity; try congruence.
  - intros e.
    on_paths (Llama.as_provider clock_at p) config proc text tone w r w' E;
      cbn [snd fst]; intros [= <-].
    split; [assumption|].
    match goal with
    | Hl : is_loaded _ = true |- _ =>
        apply is_loaded_model in Hl as (model & Em & El)
    end.
    match goal with
    | Hg : generate_response _ _ _ = _ |- _ =>
        rewrite (as_provider_answer clock_at p model _ _ Em El) in Hg
    end.
    eexists model, _. split; [exact Em|]. split; [eassumption|].
    destruct (model _ _) as [answer|exc]; [discriminate|].
    destruct (is_Exception exc); [discriminate|]. congruence.
  - intros clock_at' history req. simpl. unfold Llama.generate_response.
    destruct (Llama.llm p) as [model|]; [|reflexivity].
    destruct (Llama._model_loaded p); [|reflexivity].
    unfold stry, sbind, clock_read, Llama.call_model, sret. simpl.
    destruct (model history req) as [t|e]; simpl; [reflexivity|].
    destruct (is_Exception e); reflexivity.
Qed.

(** A model that runs out of memory, and one that is interrupted. *)
Lemma X18_provider_errors_are_dictionaries_witness :
  let failing := Llama.mkLlamaCppProvider
                   (Some (fun _ _ => Raised (RuntimeError "out of memory"))) true in
  let stopped := Llama.mkLlamaCppProvider
                       (Some (fun _ _ => Raised KeyboardInterrupt)) true in
  let clock_at := fun _ : list GenRequest => sample_clock in
  fst (process_text (Llama.as_provider clock_at failing) Config.CONFIG
                    GrammarCorrector "hello" None empty_world)
  = Normal (_create_error_result "hello" "out of memory") /\
  fst (process_text (Llama.as_provider clock_at stopped) Config.CONFIG
                    GrammarCorrector "hello" None empty_world)
  = Raised KeyboardInterrupt.
Proof.
  intros failing stopped clock_at.
  pose (req := grammar_request Config.CONFIG "hello" ["[INST]"; "</s>"; "[/INST]"]).
  split.
  - assert (Hc : provider_calls
                   (snd (process_text (Llama.as_provider clock_at failing)
                                      Config.CONFIG GrammarCorrector "hello" None
                                      empty_world))
                 = provider_calls empty_world ++ [req]) by reflexivity.
    destruct (proj1 (X18_provider_errors_are_dictionaries failing clock_at
                       Config.CONFIG GrammarCorrector "hello" None empty_world)
                    req Hc) as (model & Hm & Hres).
    injection Hm as <-. exact Hres.
  - assert (Hc : provider_calls
                   (snd (process_text (Llama.as_provider clock_at stopped)
                                      Config.CONFIG GrammarCorrector "hello" None
                                      empty_world))
                 = provider_calls empty_world ++ [req]) by reflexivity.
    destruct (proj1 (X18_provider_errors_are_dictionaries stopped clock_at
                       Config.CONFIG GrammarCorrector "hello" None empty_world)
                    req Hc) as (model & Hm & Hres).
    injection Hm as <-. exact Hres.
Defined.

(** X19. [load_model] answers what [is_loaded] says afterwards. It
    succeeds exactly when the provider was loaded already, or the model
    file exists and the constructor returns; a provider that is loaded is
    left as it is, whatever the file system and the constructor would do,
    and a load that fails leaves an unloaded provider. It raises only what
    the constructor raised that is not an instance of [Exception], and then
    leaves the provider as it was. *)
Theorem X19_load_model :
  forall (path_exists : bool) (construct : Completion Llama.Model)
         (p : Llama.LlamaCppProvider),
    let out := Llama.load_model path_exists construct p in
    let p' := snd out in
    match fst out with
    | Normal result =>
        result = Llama.is_loaded p' /\
        result = (Llama.is_loaded p
                  || path_exists
                     && match construct with Normal _ => true | Raised _ => false end) /\
        (Llama.is_loaded p = true -> p' = p) /\
        (Llama.load_model path_exists construct p' = (Normal result, p') \/
         result = false)
    | Raised e =>
        construct = Raised e /\ is_Exception e = false /\
        Llama.is_loaded p = false /\ path_exists = true /\ p' = p
    end /\
    (forall e,
        Llama.is_loaded p = false -> path_exists = true ->
        construct = Raised e -> is_Exception e = false ->
        out = (Raised e, p)).
Proof.
  intros path_exists construct p. unfold Llama.load_model, Llama.is_loaded.
  destruct p as [[m|] []], path_exists, construct as [m'|[[] msg]]; simpl;
    (split;
     [ try ((split; [reflexivity|]); (split; [reflexivity|]);
            (split; [intros H; (reflexivity || discriminate H)|]);
            ((left; reflexivity) || (right; reflexivity)));
       try (repeat split; reflexivity)
     | intros e H1 H2 H3 H4; try discriminate;
       injection H3 as <-; try discriminate; reflexivity ]).
Qed.

(** ** [HotkeyService] *)

Section RegistryFacts.
Context {V : Type}.
Implicit Types (d : dict V) (k : string).

Lemma dict_get_set k k' (v : V) d :
  dict_get k (dict_set k' v d)
  = if String.eqb k k' then Some v else dict_get k d.
Proof.
  destruct (String.eqb_spec k k') as [->|Hne].
  - apply dict_get_set_same.
  - now apply dict_get_set_other.
Qed.

Lemma dict_del_set_fresh k (v : V) d :
  dict_contains k d = false -> dict_del k (dict_set k v d) = d.
Proof.
  unfold dict_contains. induction d as [|[k' v'] d IH]; simpl.
  - now rewrite String.eqb_refl.
  - destruct (String.eqb k k') eqn:E; [discriminate|].
    intros H. simpl. rewrite E. now rewrite IH.
Qed.

Lemma dict_del_absent k d : dict_contains k d = false -> dict_del k d = d.
Proof.
  unfold dict_contains. induction d as [|[k' v'] d IH]; simpl; [reflexivity|].
  destruct (String.eqb k k'); [discriminate|]. intros H. now rewrite IH.
Qed.

Lemma dict_get_del_other k k' d :
  k <> k' -> dict_get k (dict_del k' d) = dict_get k d.
Proof.
  intros Hne. induction d as [|[k0 v0] d IH]; simpl; [reflexivity|].
  destruct (String.eqb_spec k' k0) as [<-|Hne'].
  - apply String.eqb_neq in Hne. now rewrite Hne.
  - simpl. now rewrite IH.
Qed.

Lemma dict_get_del_same k d : dict_wf d -> dict_get k (dict_del k d) = None.
Proof.
  unfold dict_wf. induction d as [|[k0 v0] d IH]; simpl; [reflexivity|].
  intros Hwf. inversion Hwf as [|? ? Hk Hd]; subst.
  destruct (String.eqb_spec k k0) as [->|Hne].
  - apply dict_contains_false in Hk. unfold dict_contains in Hk.
    now destruct (dict_get k0 d).
  - simpl. apply String.eqb_neq in Hne. rewrite Hne. now apply IH.
Qed.

Lemma dict_wf_display (items : list (string * V)) :
  dict_wf (Hotkey.dict_display items).
Proof.
  unfold Hotkey.dict_display.
  assert (H : forall d, dict_wf d ->
                dict_wf (fold_left (fun d' item => dict_set (fst item) (snd item) d')
                                   items d)).
  { induction items as [|item items IH]; intros d Hd; [exact Hd|].
    simpl. apply IH. now apply dict_wf_set. }
  apply H. constructor.
Qed.

End RegistryFacts.

Section HotkeyFacts.
Context {Handler : Type}.
Implicit Types (s : @Hotkey.HotkeyService Handler).

Lemma register_loop_get (items : dict (option Handler)) s (k : string) :
  dict_wf items ->
  dict_get k
    (Hotkey.handlers
       (fold_left
          (fun s' item =>
             match snd item with
             | Some handler => Hotkey.register_handler (fst item) handler s'
             | None => s'
             end) items s))
  = match dict_get k items with
    | Some (Some h) => Some h
    | _ => dict_get k (Hotkey.handlers s)
    end.
Proof.
  unfold dict_wf. revert s.
  induction items as [|[k0 v0] items IH]; intros s Hwf; [reflexivity|].
  inversion Hwf as [|? ? Hk Hd]; subst. cbn [fold_left fst snd].
  rewrite IH by exact Hd. cbn [dict_get].
  destruct (String.eqb_spec k k0) as [->|Hne].
  - apply dict_contains_false in Hk. unfold dict_contains in Hk.
    destruct (dict_get k0 items); [discriminate|].
    destruct v0 as [h|]; [|reflexivity]. simpl. apply dict_get_set_same.
  - destruct v0 as [h|]; [|reflexivity].
    simpl. now rewrite dict_get_set_other.
Qed.

Lemma hotkey_mapping_get (cfg : Hotkey.HotkeyConfig) (given : dict Handler)
      (k : string) :
  match dict_get k (Hotkey.hotkey_mapping cfg given) with
  | Some (Some h) => Some h
  | _ => None
  end = Hotkey.configured_handler cfg given k.
Proof.
  unfold Hotkey.hotkey_mapping, Hotkey.dict_display, Hotkey.configured_handler.
  cbn [fold_left fst snd]. rewrite !dict_get_set. cbn [dict_get].
  repeat match goal with
         | |- context [String.eqb k ?x] => destruct (String.eqb k x)
         end;
    repeat match goal with
           | |- context [dict_get ?n given] => destruct (dict_get n given)
           end; reflexivity.
Qed.

End HotkeyFacts.

(** X20. The registry of handlers: a registered hotkey is bound to the
    handler registered last; unregistering a hotkey that is not registered
    changes nothing (the deletion is guarded, so no [KeyError]);
    registering and then unregistering a hotkey that was not registered
    gives back the registry as it was; unregistering leaves the hotkey
    unbound and every other binding as it is. *)
Theorem X20_register_unregister :
  forall (Handler : Type) (s : @Hotkey.HotkeyService Handler)
         (hotkey : string) (h : Handler),
    dict_get hotkey (Hotkey.handlers (Hotkey.register_handler hotkey h s))
    = Some h /\
    (dict_contains hotkey (Hotkey.handlers s) = false ->
     Hotkey.unregister_handler hotkey s = s /\
     Hotkey.handlers
       (Hotkey.unregister_handler hotkey (Hotkey.register_handler hotkey h s))
     = Hotkey.handlers s) /\
    (dict_wf (Hotkey.handlers s) ->
     dict_get hotkey (Hotkey.handlers (Hotkey.unregister_handler hotkey s))
     = None) /\
    (forall k, k <> hotkey ->
       dict_get k (Hotkey.handlers (Hotkey.unregister_handler hotkey s))
       = dict_get k (Hotkey.handlers s)).
Proof.
  intros Handler s hotkey h.
  split; [apply dict_get_set_same|]. split; [|split].
  - intros Hfresh. unfold Hotkey.unregister_handler. rewrite Hfresh.
    split; [reflexivity|]. simpl.
    unfold dict_contains. rewrite dict_get_set_same.
    simpl. now apply dict_del_set_fresh.
  - intros Hwf. unfold Hotkey.unregister_handler.
    destruct (dict_contains hotkey (Hotkey.handlers s)) eqn:E; simpl.
    + now apply dict_get_del_same.
    + unfold dict_contains in E.
      now destruct (dict_get hotkey (Hotkey.handlers s)).
  - intros k Hk. unfold Hotkey.unregister_handler.
    destruct (dict_contains hotkey (Hotkey.handlers s)); [|reflexivity].
    simpl. now apply dict_get_del_other.
Qed.

(** X21. [register_default_handlers] binds each configured hotkey to the
    handler named by the last of the five settings that has this hotkey,
    and leaves a hotkey for which that handler is missing, and every other
    hotkey, bound as before. With five different hotkeys and the five
    handlers of [get_handlers], a new registry holds exactly the five
    bindings, in the order of the settings; if two settings share a hotkey,
    the earlier operation is not reachable by it. *)
Theorem X21_register_default_handlers :
  forall (Handler : Type) (s : @Hotkey.HotkeyService Handler)
         (given : dict Handler),
    (forall hotkey,
        dict_get hotkey
          (Hotkey.handlers (Hotkey.register_default_handlers given s))
        = match Hotkey.configured_handler (Hotkey.hotkeys s) given hotkey with
          | Some h => Some h
          | None => dict_get hotkey (Hotkey.handlers s)
          end) /\
    forall (cfg : Hotkey.HotkeyConfig) (a b c d e : Handler),
      NoDup [Hotkey.grammar_fix_line cfg; Hotkey.grammar_fix_selection cfg;
             Hotkey.summarize cfg; Hotkey.change_tone cfg; Hotkey.exit_app cfg] ->
      Hotkey.handlers
        (Hotkey.register_default_handlers (Hotkey.get_handlers a b c d e)
                                          (Hotkey.init cfg))
      = [ (Hotkey.grammar_fix_line cfg, a);
          (Hotkey.grammar_fix_selection cfg, b);
          (Hotkey.summarize cfg, c);
          (Hotkey.change_tone cfg, d);
          (Hotkey.exit_app cfg, e) ].
Proof.
  intros Handler s given. split.
  - intros hotkey. unfold Hotkey.register_default_handlers.
    rewrite register_loop_get by apply dict_wf_display.
    rewrite <- hotkey_mapping_get.
    destruct (dict_get hotkey (Hotkey.hotkey_mapping (Hotkey.hotkeys s) given))
      as [[h|]|]; reflexivity.
  - intros cfg a b c d e Hnd.
    destruct cfg as [k1 k2 k3 k4 k5]. simpl in Hnd.
    repeat match goal with
           | H : NoDup (_ :: _) |- _ =>
               let Hn := fresh "Hn" in
               inversion H as [|? ? Hn ?]; subst; clear H; simpl in Hn
           end.
    assert (E21 : String.eqb k2 k1 = false) by (apply String.eqb_neq; intuition).
    assert (E31 : String.eqb k3 k1 = false) by (apply String.eqb_neq; intuition).
    assert (E32 : String.eqb k3 k2 = false) by (apply String.eqb_neq; intuition).
    assert (E41 : String.eqb k4 k1 = false) by (apply String.eqb_neq; intuition).
    assert (E42 : String.eqb k4 k2 = false) by (apply String.eqb_neq; intuition).
    assert (E43 : String.eqb k4 k3 = false) by (apply String.eqb_neq; intuition).
    assert (E51 : String.eqb k5 k1 = false) by (apply String.eqb_neq; intuition).
    assert (E52 : String.eqb k5 k2 = false) by (apply String.eqb_neq; intuition).
    assert (E53 : String.eqb k5 k3 = false) by (apply String.eqb_neq; intuition).
    assert (E54 : String.eqb k5 k4 = false) by (apply String.eqb_neq; intuition).
    unfold Hotkey.register_default_handlers, Hotkey.hotkey_mapping,
      Hotkey.dict_display, Hotkey.register_handler, Hotkey.init,
      Hotkey.get_handlers.
    repeat (progress
              (simpl;
               rewrite ?E21, ?E31, ?E32, ?E41, ?E42, ?E43, ?E51, ?E52, ?E53,
                 ?E54)).
    reflexivity.
Qed.

Lemma X21_register_default_handlers_witness :
  NoDup [Hotkey.grammar_fix_line Hotkey.default;
         Hotkey.grammar_fix_selection Hotkey.default;
         Hotkey.summarize Hotkey.default; Hotkey.change_tone Hotkey.default;
         Hotkey.exit_app Hotkey.default] /\
  Hotkey.handlers
    (Hotkey.register_default_handlers (Hotkey.get_handlers 1 2 3 4 5)
                                      (Hotkey.init Hotkey.default))
  = [("<120>", 1); ("<121>", 2); ("<119>", 3); ("<118>", 4);
     ("<ctrl>+<shift>+e", 5)].
Proof.
  assert (H : NoDup [Hotkey.grammar_fix_line Hotkey.default;
                     Hotkey.grammar_fix_selection Hotkey.default;
                     Hotkey.summarize Hotkey.default;
                     Hotkey.change_tone Hotkey.default;
                     Hotkey.exit_app Hotkey.default]).
  { simpl. repeat constructor; simpl; intuition discriminate. }
  split; [exact H|].
  exact (proj2 (X21_register_default_handlers Z (Hotkey.init Hotkey.default) [])
           Hotkey.default 1 2 3 4 5 H).
Defined.

(** ** [ClipboardService] and the default handlers *)

Section ClipFacts.
Variable env : Clip.Environment.

(** A block runs its actions in order, up to the first one that raises. *)
Lemma performs_spec (ps : list Clip.Prim) (log : list Clip.Prim) :
  performs env ps log = (Normal tt, log ++ ps) \/
  exists ev0 p rest e,
    ps = ev0 ++ p :: rest /\
    env (log ++ ev0) p = Raised e /\
    performs env ps log = (Raised e, log ++ ev0 ++ [p]).
Proof.
  revert log. induction ps as [|p ps IH]; intros log; simpl.
  - left. unfold sret. now rewrite app_nil_r.
  - unfold sbind, Clip.perform.
    destruct (env log p) as [t|e] eqn:E.
    + destruct (IH (log ++ [p])) as [H|(ev0 & q & rest & e & Hps & Henv & H)].
      * left. rewrite H, <- app_assoc. reflexivity.
      * right. exists (p :: ev0), q, rest, e.
        rewrite <- app_assoc in Henv, H. simpl in Henv, H.
        split; [now rewrite Hps|]. split; [exact Henv|exact H].
    + right. exists [], p, ps, e. rewrite app_nil_r. auto.
Qed.

Lemma block_runs (ps : list Clip.Prim) (P : Clip.Prim -> Prop)
      (log : list Clip.Prim) :
  Forall P ps ->
  runs env (stry (performs env ps) (fun _ => sret tt)) P log.
Proof.
  intros HP. unfold runs, stry.
  destruct (performs_spec ps log)
    as [->|(ev0 & p & rest & e & Hps & Henv & ->)].
  - exists ps. split; [reflexivity|]. split; [exact HP|]. discriminate.
  - assert (HP' : Forall P (ev0 ++ [p])).
    { rewrite Hps in HP. apply Forall_app in HP as [H0 H1].
      apply Forall_app. split; [exact H0|].
      inversion H1; subst. now repeat constructor. }
    exists (ev0 ++ [p]). destruct (is_Exception e) eqn:Hexc; simpl.
    + split; [reflexivity|]. split; [exact HP'|]. discriminate.
    + split; [reflexivity|]. split; [exact HP'|].
      intros e' [= <-]. split; [exact Hexc|]. eauto.
Qed.

Lemma copy_to_clipboard_runs (log : list Clip.Prim) :
  runs env (Clip.copy_to_clipboard env) Clip.reads_only log.
Proof.
  apply (block_runs [Clip.Press Clip.KeyCtrl; Clip.Press (Clip.KeyChar "c");
                     Clip.Release (Clip.KeyChar "c"); Clip.Release Clip.KeyCtrl]).
  repeat constructor.
Qed.

Lemma select_current_line_runs (log : list Clip.Prim) :
  runs env (Clip.select_current_line env) Clip.reads_only log.
Proof.
  apply (block_runs [Clip.Press Clip.KeyHome; Clip.Release Clip.KeyHome;
                     Clip.Press Clip.KeyShift; Clip.Press Clip.KeyEnd;
                     Clip.Release Clip.KeyEnd; Clip.Release Clip.KeyShift]).
  repeat constructor.
Qed.

Lemma paste_from_clipboard_runs (log : list Clip.Prim) :
  runs env (Clip.paste_from_clipboard env) Clip.no_copy log.
Proof.
  apply (block_runs [Clip.Press Clip.KeyCtrl; Clip.Press (Clip.KeyChar "v");
                     Clip.Release (Clip.KeyChar "v"); Clip.Release Clip.KeyCtrl]).
  repeat constructor.
Qed.

(** The write to the clipboard is always attempted. *)
Lemma set_clipboard_text_runs (text : string) (log : list Clip.Prim) :
  snd (Clip.set_clipboard_text env text log) = log ++ [Clip.Copy text] /\
  forall e,
    fst (Clip.set_clipboard_text env text log) = Raised e ->
    interrupted env log [Clip.Copy text] e.
Proof.
  unfold Clip.set_clipboard_text, stry, sbind, sret, Clip.perform.
  destruct (env log (Clip.Copy text)) as [t|e] eqn:E; simpl.
  - split; [reflexivity|discriminate].
  - destruct (is_Exception e) eqn:Hexc; simpl;
      (split; [reflexivity|]); [discriminate|].
    intros e' [= <-]. split; [exact Hexc|].
    exists [], (Clip.Copy text). rewrite app_nil_r. auto.
Qed.

Lemma get_clipboard_text_runs (wait_time : Q) (log : list Clip.Prim) :
  copy_outcome env (Clip.get_clipboard_text env wait_time) log.
Proof.
  unfold copy_outcome, Clip.get_clipboard_text.
  destruct (negb (Qle_bool wait_time 0)).
  - cbv [Clip.sleep stry sbind sret Clip.perform].
    destruct (env log (Clip.Sleep wait_time)) as [t|e] eqn:Es; simpl.
    + exists [Clip.Sleep wait_time; Clip.Paste].
      destruct (env (log ++ [Clip.Sleep wait_time]) Clip.Paste) as [t'|e']
        eqn:Ep; simpl.
      * rewrite <- app_assoc. split; [reflexivity|].
        split; [repeat constructor|]. left. exists [Clip.Sleep wait_time].
        split; [reflexivity|]. now rewrite Ep.
      * destruct (is_Exception e') eqn:Hexc; simpl; rewrite <- app_assoc;
          (split; [reflexivity|]); (split; [repeat constructor|]).
        -- left. exists [Clip.Sleep wait_time]. split; [reflexivity|].
           now rewrite Ep.
        -- split; [exact Hexc|]. exists [Clip.Sleep wait_time], Clip.Paste.
           auto.
    + exists [Clip.Sleep wait_time].
      destruct (is_Exception e) eqn:Hexc; simpl;
        (split; [reflexivity|]); (split; [repeat constructor|]).
      * right. split; [reflexivity|]. exists [], wait_time, e.
        rewrite app_nil_r. auto.
      * split; [exact Hexc|]. exists [], (Clip.Sleep wait_time).
        rewrite app_nil_r. auto.
  - unfold stry, sbind, sret, Clip.perform. exists [Clip.Paste].
    destruct (env log Clip.Paste) as [t'|e'] eqn:Ep; simpl.
    + split; [reflexivity|]. split; [repeat constructor|]. left. exists [].
      rewrite app_nil_r, Ep. auto.
    + destruct (is_Exception e') eqn:Hexc; simpl;
        (split; [reflexivity|]); (split; [repeat constructor|]).
      * left. exists []. rewrite app_nil_r, Ep. auto.
      * split; [exact Hexc|]. exists [], Clip.Paste. rewrite app_nil_r. auto.
Qed.

Lemma interrupted_shift (log ev1 ev2 : list Clip.Prim) (e : PyException) :
  interrupted env (log ++ ev1) ev2 e -> interrupted env log (ev1 ++ ev2) e.
Proof.
  intros (Hexc & ev0 & p & -> & He). split; [exact Hexc|].
  exists (ev1 ++ ev0), p. now rewrite !app_assoc.
Qed.

Lemma writes_once_shift (text : string) (ev1 ev2 : list Clip.Prim) :
  Forall Clip.reads_only ev1 -> writes_once text ev2 ->
  writes_once text (ev1 ++ ev2).
Proof.
  intros H1 (ev0 & ev3 & -> & H0 & H3). exists (ev1 ++ ev0), ev3.
  rewrite app_assoc. split; [reflexivity|]. split; [|exact H3].
  apply Forall_app. now split.
Qed.

Lemma copy_outcome_bind (m1 : St (list Clip.Prim) unit)
      (m2 : St (list Clip.Prim) string) (log : list Clip.Prim) :
  runs env m1 Clip.reads_only log -> (forall l, copy_outcome env m2 l) ->
  copy_outcome env (m1 ;~ m2) log.
Proof.
  intros (ev1 & S1 & F1 & I1) H2. unfold copy_outcome, sbind.
  destruct (m1 log) as [[a|e] l1]; simpl in S1; subst l1.
  - destruct (H2 (log ++ ev1)) as (ev2 & S2 & F2 & R2).
    exists (ev1 ++ ev2). rewrite app_assoc. split; [exact S2|].
    split; [apply Forall_app; now split|].
    destruct (fst (m2 (log ++ ev1))) as [text|e].
    + destruct R2 as [(ev0 & -> & Ht)|(-> & ev0 & s & e & -> & He & Hexc)].
      * left. exists (ev1 ++ ev0). rewrite !app_assoc. auto.
      * right. split; [reflexivity|]. exists (ev1 ++ ev0), s, e.
        rewrite !app_assoc. auto.
    + now apply interrupted_shift.
  - exists ev1. cbn [fst snd] in *.
    split; [reflexivity|]. split; [assumption|]. now apply I1.
Qed.

Lemma copy_outcome_stry (m : St (list Clip.Prim) string)
      (h : string -> St (list Clip.Prim) string) (log : list Clip.Prim) :
  copy_outcome env m log -> copy_outcome env (stry m h) log.
Proof.
  unfold copy_outcome, stry. intros (ev & S & F & R).
  destruct (m log) as [[text|e] l1]; simpl in *; [eauto|].
  destruct R as (Hexc & R). rewrite Hexc. simpl. exists ev.
  split; [exact S|]. split; [exact F|]. split; assumption.
Qed.

Lemma copy_selection_runs (log : list Clip.Prim) :
  copy_outcome env (Clip.copy_selection env) log.
Proof.
  apply copy_outcome_stry, copy_outcome_bind.
  - apply copy_to_clipboard_runs.
  - intros l. apply get_clipboard_text_runs.
Qed.

Lemma copy_current_line_runs (log : list Clip.Prim) :
  copy_outcome env (Clip.copy_current_line env) log.
Proof.
  apply copy_outcome_stry, copy_outcome_bind.
  - apply select_current_line_runs.
  - intros l. apply copy_outcome_bind.
    + apply copy_to_clipboard_runs.
    + intros l'. apply get_clipboard_text_runs.
Qed.

Lemma replace_selection_runs (text : string) (log : list Clip.Prim) :
  replace_outcome env (Clip.replace_selection_with_text env text) text log.
Proof.
  destruct (set_clipboard_text_runs text log) as (S1 & I1).
  unfold replace_outcome, Clip.replace_selection_with_text, stry, sbind.
  destruct (Clip.set_clipboard_text env text log) as [[[]|e] l1];
    simpl in S1; subst l1.
  - destruct (paste_from_clipboard_runs (log ++ [Clip.Copy text]))
      as (ev2 & S2 & F2 & I2).
    destruct (Clip.paste_from_clipboard env (log ++ [Clip.Copy text]))
      as [[[]|e] l2]; simpl in S2; subst l2.
    + exists (Clip.Copy text :: ev2). simpl. rewrite <- app_assoc.
      split; [reflexivity|]. exists [], ev2. auto.
    + destruct (I2 e eq_refl) as (Hexc & Hlast). rewrite Hexc. simpl.
      exists (Clip.Copy text :: ev2). rewrite <- app_assoc.
      split; [reflexivity|]. split.
      * apply (interrupted_shift log [Clip.Copy text]). now split.
      * right. exists [], ev2. auto.
  - destruct (I1 e eq_refl) as (Hexc & Hlast). rewrite Hexc. simpl.
    exists [Clip.Copy text]. split; [reflexivity|]. split.
    + now split.
    + right. exists [], []. auto.
Qed.

Lemma replace_current_line_runs (text : string) (log : list Clip.Prim) :
  replace_outcome env (Clip.replace_current_line_with_text env text) text log.
Proof.
  destruct (select_current_line_runs log) as (ev1 & S1 & F1 & I1).
  unfold replace_outcome, Clip.replace_current_line_with_text, stry, sbind.
  destruct (Clip.select_current_line env log) as [[[]|e] l1];
    simpl in S1; subst l1.
  - destruct (replace_selection_runs text (log ++ ev1)) as (ev2 & S2 & R2).
    destruct (Clip.replace_selection_with_text env text (log ++ ev1))
      as [[[]|e] l2]; simpl in S2, R2; subst l2.
    + exists (ev1 ++ ev2). simpl. rewrite app_assoc. split; [reflexivity|].
      now apply writes_once_shift.
    + destruct R2 as ((Hexc & Hlast) & Hev). rewrite Hexc. simpl.
      exists (ev1 ++ ev2). rewrite app_assoc. split; [reflexivity|]. split.
      * apply interrupted_shift. now split.
      * destruct Hev as [Hev|Hev].
        -- left. apply Forall_app. now split.
        -- right. now apply writes_once_shift.
  - destruct (I1 e eq_refl) as (Hexc & Hlast). rewrite Hexc. simpl.
    exists ev1. split; [reflexivity|]. split; [now split|now left].
Qed.

End ClipFacts.


(** What a processor raises is what its provider raised, and no instance
    of [Exception]. *)
Lemma process_text_raises (llm : ILLMProvider) (config : Config.AppConfig)
      (p : Processor) (text : string) (tone : option string) (w : World)
      (e : PyException) :
  fst (process_text llm config p text tone w) = Raised e ->
  is_Exception e = false /\
  exists history req, generate_response llm history req = Raised e.
Proof.
  on_paths llm config p text tone w r w' E; cbn [fst]; intros [= <-]. eauto.
Qed.

Lemma interrupted_desk_raised (env : Clip.Environment)
      (log ev : list Clip.Prim) (e : PyException) :
  interrupted env log ev e -> is_Exception e = false /\ desk_raised env e.
Proof.
  intros (Hexc & ev0 & p & _ & He). split; [exact Hexc|].
  now exists (log ++ ev0), p.
Qed.

Section HandlerFacts.
Variable env : Clip.Environment.

Lemma handle_spec (processor : option TextProcessor) (clipboard : option unit)
      (copy : St (list Clip.Prim) string)
      (process : TextProcessor -> string -> M TextProcessingResult)
      (replace : string -> St (list Clip.Prim) unit)
      (w : World) (log : list Clip.Prim) :
  (forall l, copy_outcome env copy l) ->
  (forall t l, replace_outcome env (replace t) t l) ->
  (forall proc text w0 e,
      fst (process proc text w0) = Raised e ->
      is_Exception e = false /\ provider_raised proc e) ->
  exists w' ev,
    snd (handle processor clipboard copy process replace (w, log))
    = (w', log ++ ev) /\
    (forall e,
        fst (handle processor clipboard copy process replace (w, log))
        = Raised e ->
        is_Exception e = false /\
        (desk_raised env e \/
         exists proc, processor = Some proc /\ provider_raised proc e)) /\
    (processor = None \/ clipboard = None ->
     handle processor clipboard copy process replace (w, log)
     = (Normal tt, (w, log))) /\
    ((w' = w /\ Forall Clip.reads_only ev) \/
     exists proc text,
       processor = Some proc /\
       PyStr.strip text <> EmptyString /\
       snd (process proc text w) = w' /\
       match fst (process proc text w) with
       | Normal r =>
           if success r
           then writes_once (processed_text r) ev \/
                (Forall Clip.reads_only ev /\
                 exists e,
                   fst (handle processor clipboard copy process replace (w, log))
                   = Raised e)
           else Forall Clip.reads_only ev /\
                fst (handle processor clipboard copy process replace (w, log))
                = Normal tt
       | Raised e =>
           Forall Clip.reads_only ev /\
           fst (handle processor clipboard copy process replace (w, log))
           = Raised e
       end).
Proof.
  intros Hcopy Hreplace Hprocess.
  destruct (handle processor clipboard copy process replace (w, log))
    as [c [wf lf]] eqn:Eh.
  cbn [fst snd]. unfold handle, stry in Eh.
  destruct processor as [proc|], clipboard as [[]|];
    try (injection Eh as <- <- <-; exists w, []; rewrite app_nil_r;
         split; [reflexivity|]; split; [discriminate|];
         split; [reflexivity|]; left; split; [reflexivity|constructor]).
  unfold sbind at 1, on_clipboard at 1 in Eh. cbn [fst snd] in Eh.
  destruct (Hcopy log) as (ev1 & S1 & F1 & R1).
  destruct (copy log) as [[text|e] l1]; cbn [fst snd] in S1, R1; subst l1.
  2:{ (* the copy was interrupted *)
      apply interrupted_desk_raised in R1 as (Hexc & Hdesk).
      rewrite Hexc in Eh. injection Eh as <- <- <-. exists w, ev1.
      split; [reflexivity|].
      split; [intros e' [= <-]; auto|].
      split; [intros [H|H]; discriminate H|]. left. auto. }
  clear R1.
  destruct (PyStr.truthy (PyStr.strip text)) eqn:Htext; cbn [negb] in Eh.
  2:{ injection Eh as <- <- <-. exists w, ev1. split; [reflexivity|].
      split; [discriminate|].
      split; [intros [H|H]; discriminate H|]. left. auto. }
  apply truthy_true in Htext.
  unfold sbind, on_world in Eh. cbn [fst snd] in Eh.
  pose proof (Hprocess proc text w) as Hraise.
  destruct (process proc text w) as [[r|e] w'] eqn:Ep; cbn [fst snd] in *.
  2:{ (* the processor was interrupted *)
      destruct (Hraise e eq_refl) as (Hexc & Hprov). rewrite Hexc in Eh.
      injection Eh as <- <- <-. exists w', ev1. split; [reflexivity|].
      split; [intros e' [= <-]; eauto|].
      split; [intros [H|H]; discriminate H|].
      right. exists proc, text. rewrite Ep. cbn [fst snd]. auto. }
  clear Hraise.
  destruct (success r) eqn:Hs.
  - unfold on_clipboard in Eh. cbn [fst snd] in Eh.
    destruct (Hreplace (processed_text r) (log ++ ev1)) as (ev2 & S2 & R2).
    destruct (replace (processed_text r) (log ++ ev1)) as [[[]|e] l2];
      cbn [fst snd] in S2, R2; subst l2.
    + injection Eh as <- <- <-. exists w', (ev1 ++ ev2). rewrite app_assoc.
      split; [reflexivity|]. split; [discriminate|].
      split; [intros [H|H]; discriminate H|].
      right. exists proc, text. rewrite Ep. cbn [fst snd]. rewrite Hs.
      split; [reflexivity|]. split; [exact Htext|]. split; [reflexivity|].
      left. now apply writes_once_shift.
    + destruct R2 as (Hint & Hev).
      apply interrupted_desk_raised in Hint as (Hexc & Hdesk).
      rewrite Hexc in Eh. injection Eh as <- <- <-.
      exists w', (ev1 ++ ev2). rewrite app_assoc.
      split; [reflexivity|].
      split; [intros e' [= <-]; auto|].
      split; [intros [H|H]; discriminate H|].
      right. exists proc, text. rewrite Ep. cbn [fst snd]. rewrite Hs.
      split; [reflexivity|]. split; [exact Htext|]. split; [reflexivity|].
      destruct Hev as [Hev|Hev].
      * right. split; [apply Forall_app; now split|eauto].
      * left. now apply writes_once_shift.
  - injection Eh as <- <- <-. exists w', ev1. split; [reflexivity|].
    split; [discriminate|].
    split; [intros [H|H]; discriminate H|].
    right. exists proc, text. rewrite Ep. cbn [fst snd]. rewrite Hs. auto.
Qed.

End HandlerFacts.


(** ** main_dev.py *)

Section DevFacts.
Context {V : Type}.
Implicit Types (d : dict V).

Lemma fold_del_keys (ks : list string) d :
  dict_wf d ->
  fold_left (fun d' key => dict_del key d') ks d = remove_keys ks d.
Proof.
  revert d. induction ks as [|k ks IH]; simpl; intros d Hwf.
  - symmetry. now apply filter_all.
  - rewrite dict_del_remove_keys by exact Hwf.
    rewrite IH by now apply dict_wf_remove_keys.
    apply remove_keys_cons.
Qed.

Lemma remove_first_keys d (n : nat) :
  dict_wf d -> remove_keys (firstn n (keys d)) d = skipn n d.
Proof.
  intros Hwf. unfold keys. rewrite firstn_map.
  unfold dict_wf, keys in Hwf.
  rewrite <- (firstn_skipn n d) in Hwf. rewrite map_app in Hwf.
  rewrite <- (firstn_skipn n d) at 2.
  unfold remove_keys. rewrite filter_app, filter_none, filter_all; [reflexivity| |].
  - intros x Hx. apply negb_true_iff.
    destruct (key_in (fst x) (map fst (firstn n d))) eqn:E; [|reflexivity].
    apply key_in_In in E. exfalso.
    eapply NoDup_app_disjoint; [exact Hwf|exact E|now apply in_map].
  - intros x Hx. apply negb_false_iff, key_in_In. now apply in_map.
Qed.

Lemma dict_set_fresh k (v : V) d :
  dict_get k d = None -> dict_set k v d = d ++ [(k, v)].
Proof.
  induction d as [|[k' v'] d IH]; simpl; [reflexivity|].
  destruct (String.eqb k k'); [discriminate|]. intros H. now rewrite IH.
Qed.

Lemma dict_wf_skipn d (n : nat) : dict_wf d -> dict_wf (skipn n d).
Proof.
  unfold dict_wf, keys. rewrite <- (firstn_skipn n d) at 1.
  rewrite map_app. apply NoDup_app_remove_l.
Qed.

End DevFacts.

Lemma trim_spec (cache : dict string) :
  dict_wf cache ->
  Dev.trim 100 20 cache
  = if 100 <? Z.of_nat (List.length cache) then skipn 20 cache else cache.
Proof.
  intros Hwf. unfold Dev.trim. destruct (100 <? _); [|reflexivity].
  rewrite fold_del_keys by exact Hwf.
  change (slice_to 20 (keys cache)) with (firstn 20 (keys cache)).
  now apply remove_first_keys.
Qed.

(** One call keeps the keys distinct and the cache at 100 entries at
    most. *)
Lemma fix_text_keeps_bound (llm : Llama.Model) (text : string) (g : Dev.Globals) :
  dict_wf (Dev.correction_cache g) ->
  (List.length (Dev.correction_cache g) <= 100)%nat ->
  dict_wf (Dev.correction_cache (snd (Dev.fix_text llm text g))) /\
  (List.length (Dev.correction_cache (snd (Dev.fix_text llm text g))) <= 100)%nat.
Proof.
  intros Hwf Hlen. unfold Dev.fix_text.
  destruct (Dev.MODEL_LOADED g); simpl; [|auto].
  destruct (dict_get _ (Dev.correction_cache g)) eqn:Eget; simpl; [auto|].
  destruct (llm _ _) as [out|e]; simpl;
    [|destruct (is_Exception e); simpl; auto].
  destruct (PyStr.truthy (PyStr.strip out)); simpl; [|auto].
  destruct (_ && _); simpl; [auto|].
  rewrite trim_spec by now apply dict_wf_set.
  rewrite (dict_set_fresh _ _ _ Eget).
  destruct (100 <? _) eqn:E.
  - split.
    + apply dict_wf_skipn. rewrite <- (dict_set_fresh _ _ _ Eget).
      now apply dict_wf_set.
    + rewrite length_skipn, length_app. simpl. lia.
  - split.
    + rewrite <- (dict_set_fresh _ _ _ Eget). now apply dict_wf_set.
    + apply Z.ltb_ge in E. lia.
Qed.

(** X24. The cache of [fix_text] is bounded: starting from a cache with
    distinct keys and at most 100 entries (the empty one of the script in
    particular), after any sequence of [fix_text] calls, whatever the model
    answers, the cache holds at most 100 entries. *)
Theorem X24_dev_cache_bound :
  forall (llm : Llama.Model) (texts : list string) (g : Dev.Globals),
    dict_wf (Dev.correction_cache g) ->
    (List.length (Dev.correction_cache g) <= 100)%nat ->
    (List.length (Dev.correction_cache (Dev.run_fix_texts llm texts g)) <= 100)%nat.
Proof.
  intros llm texts. induction texts as [|text texts IH]; intros g Hwf Hlen.
  - exact Hlen.
  - simpl. destruct (fix_text_keeps_bound llm text g Hwf Hlen) as [Hwf' Hlen'].
    now apply IH.
Qed.

Lemma X24_dev_cache_bound_witness :
  let llm : Llama.Model := fun _ _ => Normal "Hello." in
  let g := Dev.mkGlobals true [] [] in
  dict_wf (Dev.correction_cache g) /\
  (List.length (Dev.correction_cache g) <= 100)%nat /\
  (List.length (Dev.correction_cache
                  (Dev.run_fix_texts llm ["hello"; "helo"; "hello"] g)) <= 100)%nat.
Proof.
  intros llm g.
  assert (Hwf : dict_wf (Dev.correction_cache g)) by constructor.
  assert (Hlen : (List.length (Dev.correction_cache g) <= 100)%nat)
    by (simpl; lia).
  split; [exact Hwf|]. split; [exact Hlen|].
  exact (X24_dev_cache_bound llm ["hello"; "helo"; "hello"] g Hwf Hlen).
Defined.

Lemma dict_get_skipn_last (d : dict string) (k v : string) (n : nat) :
  dict_get k d = None -> (n <= List.length d)%nat ->
  dict_get k (skipn n (d ++ [(k, v)])) = Some v.
Proof.
  revert n. induction d as [|[k' v'] d IH]; intros n Hget Hn.
  - simpl in Hn. assert (n = 0%nat) by lia. subst n. simpl.
    now rewrite String.eqb_refl.
  - simpl in Hget. destruct (String.eqb k k') eqn:E; [discriminate|].
    destruct n as [|n]; simpl.
    + rewrite E. change (dict_get k (skipn 0 (d ++ [(k, v)])) = Some v).
      apply IH; [exact Hget|lia].
    + apply IH; [exact Hget|simpl in Hn; lia].
Qed.

Lemma fix_text_hit (llm : Llama.Model) (text v : string) (g : Dev.Globals) :
  Dev.MODEL_LOADED g = true ->
  dict_get (PyStr.lower (PyStr.strip text)) (Dev.correction_cache g) = Some v ->
  Dev.fix_text llm text g = (Normal v, g).
Proof. intros Hl Hget. unfold Dev.fix_text. now rewrite Hl, Hget. Qed.

(** X25. [fix_text] answers a repeated request from its cache: when a
    call returns something else than the text it was given, the same call
    right afterwards returns the same string and does not call the model;
    the entry just stored is never among those the trimming removes. *)
Theorem X25_dev_repeat_hits_cache :
  forall (llm : Llama.Model) (text : string) (g : Dev.Globals) (r : string),
    dict_wf (Dev.correction_cache g) ->
    (List.length (Dev.correction_cache g) <= 100)%nat ->
    fst (Dev.fix_text llm text g) = Normal r ->
    r <> text ->
    let g1 := snd (Dev.fix_text llm text g) in
    fst (Dev.fix_text llm text g1) = Normal r /\
    snd (Dev.fix_text llm text g1) = g1.
Proof.
  intros llm text g r Hwf Hlen Hr Hne g1. subst g1.
  destruct (Dev.fix_text llm text g) as [c g1] eqn:E. cbn [fst snd] in *.
  subst c. unfold Dev.fix_text in E.
  destruct (Dev.MODEL_LOADED g) eqn:Hl; simpl in E; [|congruence].
  destruct (dict_get _ (Dev.correction_cache g)) as [cached|] eqn:Eget.
  - injection E as <- <-. now rewrite (fix_text_hit llm text cached g Hl Eget).
  - destruct (llm _ _) as [out|e];
      [|destruct (is_Exception e); congruence].
    destruct (PyStr.truthy (PyStr.strip out)); simpl in E; [|congruence].
    destruct (_ && _); [congruence|]. injection E as <- <-.
    rewrite (fix_text_hit llm text (PyStr.strip out)); [auto|reflexivity|].
    cbn [Dev.correction_cache].
    rewrite trim_spec by now apply dict_wf_set.
    destruct (100 <? _) eqn:Elt; [|apply dict_get_set_same].
    rewrite (dict_set_fresh _ _ _ Eget) in *.
    apply dict_get_skipn_last; [exact Eget|].
    apply Z.ltb_lt in Elt. rewrite length_app in Elt. simpl in Elt. lia.
Qed.

Lemma X25_dev_repeat_hits_cache_witness :
  let llm : Llama.Model := fun _ _ => Normal " Hello. " in
  let g := Dev.mkGlobals true [] [] in
  dict_wf (Dev.correction_cache g) /\
  fst (Dev.fix_text llm "helo" g) = Normal "Hello." /\
  fst (Dev.fix_text llm "helo" (snd (Dev.fix_text llm "helo" g)))
  = Normal "Hello.".
Proof.
  intros llm g.
  assert (Hwf : dict_wf (Dev.correction_cache g)) by constructor.
  assert (Hlen : (List.length (Dev.correction_cache g) <= 100)%nat)
    by (simpl; lia).
  assert (Hr : fst (Dev.fix_text llm "helo" g) = Normal "Hello.")
    by reflexivity.
  assert (Hne : "Hello." <> "helo") by discriminate.
  split; [exact Hwf|]. split; [exact Hr|].
  exact (proj1 (X25_dev_repeat_hits_cache llm "helo" g "Hello." Hwf Hlen Hr Hne)).
Defined.
